(** * The key-value store of learning_observer (kvs.py)

    A shallow embedding of [learning_observer/kvs.py]: the in-memory
    backend over the module global [OBJECT_STORE], the Redis backend, the
    bulk [dump]/[load] of the base class [_KVS] and the start-up check
    [kvs_startup_check].

    Python objects live in an explicit heap: lists and dicts are mutable
    objects reached through references, so that storing a value "by
    reference" and handing out a deep copy can be told apart. *)

From Stdlib Require Import ZArith String Ascii.
From stdpp Require Import base option list strings gmap pretty.

Set Warnings "-register-all".

Open Scope Z_scope.
Open Scope string_scope.
Open Scope list_scope.
Open Scope stdpp_scope.

(** ** Python values *)

Abbreviation loc := nat.

(** Immutable, hashable values.  [ABytes] is a [bytes] object: hashable,
    atomic for [copy.deepcopy], and refused by [json.dumps]. Floats are left
    out. *)
Inductive atom :=
| ANone
| ABool (b : bool)
| AInt (z : Z)
| AStr (s : string)
| ABytes (s : string).

(** A value is an atom or a reference to a mutable object of the heap. *)
Inductive val :=
| VAtom (a : atom)
| VRef (l : loc).

(** Mutable objects: a [list], or a [dict] in insertion order. *)
Inductive obj :=
| OList (items : list val)
| ODict (entries : list (atom * val)).

#[global] Instance atom_eq_dec : EqDecision atom.
Proof. solve_decision. Defined.
#[global] Instance val_eq_dec : EqDecision val.
Proof. solve_decision. Defined.
#[global] Instance obj_eq_dec : EqDecision obj.
Proof. solve_decision. Defined.

Definition py_None : val := VAtom ANone.
Definition py_str (s : string) : val := VAtom (AStr s).
Definition py_int (z : Z) : val := VAtom (AInt z).

(** [isinstance(key, str)] *)
Definition is_str (v : val) : bool :=
  match v with VAtom (AStr _) => true | _ => false end.

Definition atom_is_str (a : atom) : bool :=
  match a with AStr _ => true | _ => false end.

(** Equality of dict keys, as [dict] sees it ([True == 1], [b"a" != "a"]). *)
Definition key_eqb (a b : atom) : bool :=
  match a, b with
  | ANone, ANone => true
  | ABool x, ABool y => bool_decide (x = y)
  | ABool x, AInt z | AInt z, ABool x => bool_decide (z = Z.b2z x)
  | AInt x, AInt y => bool_decide (x = y)
  | AStr x, AStr y => bool_decide (x = y)
  | ABytes x, ABytes y => bool_decide (x = y)
  | _, _ => false
  end.

(** [d.get(k)] on the entries of a dict. *)
Fixpoint dict_get (k : atom) (d : list (atom * val)) : option val :=
  match d with
  | [] => None
  | (k', v) :: d' => if key_eqb k' k then Some v else dict_get k d'
  end.

(** [d[k] = v]: an existing key keeps its place (and its key object), a new
    one goes last. *)
Fixpoint dict_set (k : atom) (v : val) (d : list (atom * val)) : list (atom * val) :=
  match d with
  | [] => [(k, v)]
  | (k', v') :: d' =>
      if key_eqb k' k then (k', v) :: d' else (k', v') :: dict_set k v d'
  end.

(** No two entries of a dict have equal keys. *)
Fixpoint dict_ok (d : list (atom * val)) : bool :=
  match d with
  | [] => true
  | (k, _) :: d' => bool_decide (dict_get k d' = None) && dict_ok d'
  end.

(** ** The heap *)

Abbreviation heap := (list obj).

Definition children (o : obj) : list val :=
  match o with
  | OList items => items
  | ODict entries => entries.*2
  end.

Definition val_ok (n : nat) (v : val) : bool :=
  match v with VAtom _ => true | VRef l => bool_decide (l < n)%nat end.

Definition obj_ok (n : nat) (o : obj) : bool :=
  forallb (val_ok n) (children o) &&
  match o with OList _ => true | ODict entries => dict_ok entries end.

(** A heap is well formed when no reference dangles and every dict has
    distinct keys: what the Python runtime guarantees. *)
Definition heap_ok (h : heap) : bool := forallb (obj_ok (length h)) h.

(** [l] is one of the objects the value [v] is made of. *)
Inductive reachable (h : heap) : val → loc → Prop :=
| reach_here l : reachable h (VRef l) l
| reach_step l o x l' :
    h !! l = Some o → x ∈ children o → reachable h x l' →
    reachable h (VRef l) l'.

(** ** Unfoldings and deep equality *)

(** The tree a value unfolds to, cut below [d] references. A dangling
    reference is cut as well. *)
Inductive tree :=
| TAtom (a : atom)
| TList (ts : list tree)
| TDict (kts : list (atom * tree))
| TCut.

Fixpoint unfold (d : nat) (h : heap) (v : val) : tree :=
  match v with
  | VAtom a => TAtom a
  | VRef l =>
      match d with
      | O => TCut
      | S d' =>
          match h !! l with
          | None => TCut
          | Some (OList items) => TList (map (unfold d' h) items)
          | Some (ODict entries) =>
              TDict (map (λ kv, (kv.1, unfold d' h kv.2)) entries)
          end
      end
  end.

(** Two values are deep-equal when they unfold to the same tree at every
    depth: same shape, same atoms, dict entries in the same order. This
    implies Python's [==] wherever that terminates. *)
Definition deep_equal (h1 : heap) (v1 : val) (h2 : heap) (v2 : val) : Prop :=
  ∀ d, unfold d h1 v1 = unfold d h2 v2.

(** ** JSON documents *)

Inductive json :=
| JNull
| JBool (b : bool)
| JNum (z : Z)
| JStr (s : string)
| JArr (items : list json)
| JObj (members : list (string * json)).

(** First member of an object with the given name. *)
Fixpoint assoc {A} (k : string) (m : list (string * A)) : option A :=
  match m with
  | [] => None
  | (k', x) :: m' => if bool_decide (k' = k) then Some x else assoc k m'
  end.

(** The document an atom stands for; [bytes] has none. *)
Definition atom_json (a : atom) : option json :=
  match a with
  | ANone => Some JNull
  | ABool b => Some (JBool b)
  | AInt z => Some (JNum z)
  | AStr s => Some (JStr s)
  | ABytes _ => None
  end.

Definition member_of (f : val → option json) (kv : atom * val) : option (string * json) :=
  match kv.1 with
  | AStr s => j ← f kv.2; Some (s, j)
  | _ => None
  end.

(** The document a value denotes, when it is a finite tree of lists, dicts
    with distinct string keys, and atoms other than bytes, at most [d]
    references deep. *)
Fixpoint snapshot (d : nat) (h : heap) (v : val) : option json :=
  match v with
  | VAtom a => atom_json a
  | VRef l =>
      match d with
      | O => None
      | S d' =>
          match h !! l with
          | None => None
          | Some (OList items) => JArr <$> mapM (snapshot d' h) items
          | Some (ODict entries) =>
              ms ← mapM (member_of (snapshot d' h)) entries;
              if bool_decide (NoDup ms.*1) then Some (JObj ms) else None
          end
      end
  end.

(** A JSON value in the sense of the data model: it "serializes losslessly
    to and from a JSON document". *)
Definition is_json (h : heap) (v : val) : bool :=
  bool_decide (is_Some (snapshot (length h) h v)).

(** A string held by a file or by the remote store: the text of a JSON
    document, represented by the document, or some other text. How
    [json.dumps] spells a document in characters is not modelled. *)
Inductive text :=
| JsonText (doc : json)
| NotJson (raw : string).

(** ** Exceptions and the world *)

Inductive exn :=
| TypeError (msg : string)
| ValueError (msg : string)
| KeyError (key : json)
| AssertionError (msg : string)
| AttributeError (msg : string)
| FileNotFoundError (path : string)
| IsADirectoryError (path : string)
| PermissionError (path : string)
| JSONDecodeError
| ConnectionError
| StartupCheck (msg : string).

(** How a call ends. [Stuck] is for the model only: a dangling reference
    or exhausted fuel, which a well-formed world never meets. *)
Inductive outcome (A : Type) :=
| Ok (a : A)
| Raise (e : exn)
| Stuck.
Arguments Ok {A} a.
Arguments Raise {A} e.
Arguments Stuck {A}.

(** The three backend classes [KVS_MAP] chooses from. *)
Inductive kvs_class :=
| InMemoryKVS_class
| EphemeralRedisKVS_class
| PersistentRedisKVS_class.

(** What the remote store holds under a key: the string written and the
    [expire] argument it was written with. The model has no clock, so an
    entry stays readable. *)
Record redis_entry := RedisEntry {
  payload : text;
  ttl : json
}.

Record world := World {
  heap_of : heap;
  (** the module global [OBJECT_STORE]: a reference to a dict *)
  OBJECT_STORE : loc;
  (** the module global [KVS] *)
  KVS : option kvs_class;
  (** [learning_observer.settings.settings], a dict *)
  settings : list (string * json);
  (** the connection of [learning_observer.redis] *)
  redis_connected : bool;
  redis_db : gmap string redis_entry;
  (** outcomes of the coming round trips to the remote store, the next one
      first; when none is listed the round trip succeeds *)
  net : list bool;
  files : gmap string text;
  (** what [open(filename, 'w')] raises for a path that cannot be opened
      for writing ([FileNotFoundError] when its directory is missing,
      [IsADirectoryError], [PermissionError]); [None] when it opens *)
  open_w : string → option exn
}.

Definition set_heap (h : heap) (w : world) : world :=
  World h (OBJECT_STORE w) (KVS w) (settings w) (redis_connected w)
        (redis_db w) (net w) (files w) (open_w w).
Definition set_OBJECT_STORE (l : loc) (w : world) : world :=
  World (heap_of w) l (KVS w) (settings w) (redis_connected w)
        (redis_db w) (net w) (files w) (open_w w).
Definition set_KVS (c : option kvs_class) (w : world) : world :=
  World (heap_of w) (OBJECT_STORE w) c (settings w) (redis_connected w)
        (redis_db w) (net w) (files w) (open_w w).
Definition set_redis_connected (b : bool) (w : world) : world :=
  World (heap_of w) (OBJECT_STORE w) (KVS w) (settings w) b
        (redis_db w) (net w) (files w) (open_w w).
Definition set_redis_db (db : gmap string redis_entry) (w : world) : world :=
  World (heap_of w) (OBJECT_STORE w) (KVS w) (settings w) (redis_connected w)
        db (net w) (files w) (open_w w).
Definition set_net (n : list bool) (w : world) : world :=
  World (heap_of w) (OBJECT_STORE w) (KVS w) (settings w) (redis_connected w)
        (redis_db w) n (files w) (open_w w).
Definition set_files (f : gmap string text) (w : world) : world :=
  World (heap_of w) (OBJECT_STORE w) (KVS w) (settings w) (redis_connected w)
        (redis_db w) (net w) f (open_w w).
Definition set_open_w (o : string → option exn) (w : world) : world :=
  World (heap_of w) (OBJECT_STORE w) (KVS w) (settings w) (redis_connected w)
        (redis_db w) (net w) (files w) o.

(** Computations: a world in, an outcome and a world out. An exception
    keeps the world as it was when it was raised. *)
Definition M (A : Type) : Type := world → outcome A * world.

Definition ret {A} (a : A) : M A := λ w, (Ok a, w).
Definition raise {A} (e : exn) : M A := λ w, (Raise e, w).
Definition stuck {A} : M A := λ w, (Stuck, w).
Definition bind {A B} (c : M A) (k : A → M B) : M B :=
  λ w, match c w with
       | (Ok a, w') => k a w'
       | (Raise e, w') => (Raise e, w')
       | (Stuck, w') => (Stuck, w')
       end.

Declare Scope py_scope.
Delimit Scope py_scope with py.
Notation "x <- c ;; k" := (bind c (λ x, k))
  (at level 100, c at next level, right associativity) : py_scope.
Notation "c ;;; k" := (bind c (λ _, k))
  (at level 100, right associativity) : py_scope.
Open Scope py_scope.

(** Lift a pure outcome. *)
Definition lift {A} (o : outcome A) : M A := λ w, (o, w).

(** [for x in xs: body(x)] *)
Fixpoint for_each {A} (xs : list A) (body : A → M unit) : M unit :=
  match xs with
  | [] => ret tt
  | x :: xs' => body x ;;; for_each xs' body
  end.

(** [assert cond, msg] *)
Definition py_assert (cond : bool) (msg : string) : M unit :=
  if cond then ret tt else raise (AssertionError msg).

Definition alloc (o : obj) : M loc :=
  λ w, (Ok (length (heap_of w)), set_heap (heap_of w ++ [o]) w).

Definition read (l : loc) : M obj :=
  λ w, match heap_of w !! l with
       | Some o => (Ok o, w)
       | None => (Stuck, w)
       end.

Definition write (l : loc) (o : obj) : M unit :=
  λ w, (Ok tt, set_heap (<[l := o]> (heap_of w)) w).

(** ** [copy.deepcopy] *)

(** The memo of [copy.deepcopy]: the copy made for each object met so far. *)
Abbreviation memo := (list (nat * nat)).

Fixpoint memo_get (l : loc) (m : memo) : option loc :=
  match m with
  | [] => None
  | (a, b) :: m' => if bool_decide (a = l) then Some b else memo_get l m'
  end.

(** [y.append(c)] for the list at [ly]. *)
Definition list_append (ly : loc) (c : val) (h : heap) : heap :=
  match h !! ly with
  | Some (OList ys) => <[ly := OList (ys ++ [c])]> h
  | _ => h
  end.

(** [y[k] = c] for the dict at [ly]. *)
Definition dict_setitem (ly : loc) (k : atom) (c : val) (h : heap) : heap :=
  match h !! ly with
  | Some (ODict es) => <[ly := ODict (dict_set k c es)]> h
  | _ => h
  end.

Abbreviation copy_state := (list obj * list (nat * nat))%type.

(** [for a in x: y.append(deepcopy(a, memo))] *)
Definition copy_items (rec : val → copy_state → option (val * copy_state))
    (ly : loc) : list val → copy_state → option copy_state :=
  fix go items st :=
    match items with
    | [] => Some st
    | a :: rest =>
        match rec a st with
        | Some (c, st1) => go rest (list_append ly c st1.1, st1.2)
        | None => None
        end
    end.

(** [for key, value in x.items(): y[deepcopy(key, memo)] = deepcopy(value, memo)];
    a key is an atom and is its own copy. *)
Definition copy_entries (rec : val → copy_state → option (val * copy_state))
    (ly : loc) : list (atom * val) → copy_state → option copy_state :=
  fix go entries st :=
    match entries with
    | [] => Some st
    | (k, a) :: rest =>
        match rec a st with
        | Some (c, st1) => go rest (dict_setitem ly k c st1.1, st1.2)
        | None => None
        end
    end.

(** [deepcopy(x, memo)]: atoms are returned as they are; an object already
    in the memo yields its copy; otherwise an empty copy is made, entered
    in the memo, and filled. [fuel] bounds the nesting of new objects. *)
Fixpoint deepcopy (fuel : nat) (x : val) (st : copy_state) : option (val * copy_state) :=
  match x with
  | VAtom _ => Some (x, st)
  | VRef lx =>
      match memo_get lx st.2 with
      | Some ly => Some (VRef ly, st)
      | None =>
          match fuel with
          | O => None
          | S n =>
              let ly := length st.1 in
              match st.1 !! lx with
              | None => None
              | Some (OList items) =>
                  st' ← copy_items (deepcopy n) ly items
                        (st.1 ++ [OList []], (lx, ly) :: st.2);
                  Some (VRef ly, st')
              | Some (ODict entries) =>
                  st' ← copy_entries (deepcopy n) ly entries
                        (st.1 ++ [ODict []], (lx, ly) :: st.2);
                  Some (VRef ly, st')
              end
          end
      end
  end.

(** [copy.deepcopy(x)], with a fresh memo. There are never more nested new
    objects than objects in the heap. *)
Definition copy_deepcopy (x : val) : M val :=
  λ w, match deepcopy (length (heap_of w)) x (heap_of w, []) with
       | Some (y, st) => (Ok y, set_heap st.1 w)
       | None => (Stuck, w)
       end.

(** ** [json.dumps] and [json.loads] *)

Definition obind {A B} (o : outcome A) (k : A → outcome B) : outcome B :=
  match o with
  | Ok a => k a
  | Raise e => Raise e
  | Stuck => Stuck
  end.

Definition omap {A B} (f : A → B) (o : outcome A) : outcome B :=
  obind o (λ a, Ok (f a)).

Fixpoint mapM_out {A B} (f : A → outcome B) (l : list A) : outcome (list B) :=
  match l with
  | [] => Ok []
  | x :: l' => obind (f x) (λ y, obind (mapM_out f l') (λ ys, Ok (y :: ys)))
  end.

(** The member name the encoder writes for a dict key. *)
Definition encode_key (k : atom) : outcome string :=
  match k with
  | AStr s => Ok s
  | AInt z => Ok (pretty z)
  | ABool true => Ok "true"
  | ABool false => Ok "false"
  | ANone => Ok "null"
  | ABytes _ =>
      Raise (TypeError "keys must be str, int, float, bool or None, not bytes")
  end.

(** The encoder of [json.dumps]. [markers] holds the containers being
    encoded around the current one; meeting one of them again is a circular
    reference. *)
Fixpoint encode (fuel : nat) (h : heap) (markers : list loc) (v : val) : outcome json :=
  match v with
  | VAtom ANone => Ok JNull
  | VAtom (ABool b) => Ok (JBool b)
  | VAtom (AInt z) => Ok (JNum z)
  | VAtom (AStr s) => Ok (JStr s)
  | VAtom (ABytes _) =>
      Raise (TypeError "Object of type bytes is not JSON serializable")
  | VRef l =>
      if bool_decide (l ∈ markers)
      then Raise (ValueError "Circular reference detected")
      else match fuel with
           | O => Stuck
           | S n =>
               match h !! l with
               | None => Stuck
               | Some (OList items) =>
                   omap JArr (mapM_out (encode n h (l :: markers)) items)
               | Some (ODict entries) =>
                   omap JObj
                     (mapM_out (λ kv, obind (encode_key kv.1) (λ k,
                                      obind (encode n h (l :: markers) kv.2) (λ j,
                                      Ok (k, j)))) entries)
               end
           end
  end.

(** [json.dumps(v)] as a document. The nesting of containers never exceeds
    the number of objects. *)
Definition json_dumps (h : heap) (v : val) : outcome json :=
  encode (length h) h [] v.

Definition decode_list (dec : json → heap → val * heap) :
    list json → heap → list val * heap :=
  fix go items h :=
    match items with
    | [] => ([], h)
    | j :: rest =>
        let '(v, h1) := dec j h in
        let '(vs, h2) := go rest h1 in
        (v :: vs, h2)
    end.

Definition decode_members (dec : json → heap → val * heap) :
    list (string * json) → heap → list (atom * val) * heap :=
  fix go members h :=
    match members with
    | [] => ([], h)
    | (k, j) :: rest =>
        let '(v, h1) := dec j h in
        let '(es, h2) := go rest h1 in
        ((AStr k, v) :: es, h2)
    end.

(** [dict(pairs)]: later pairs win. *)
Definition dict_of (pairs : list (atom * val)) : list (atom * val) :=
  foldl (λ d kv, dict_set kv.1 kv.2 d) [] pairs.

(** The decoder of [json.loads]: builds new objects for arrays and objects. *)
Fixpoint decode (j : json) (h : heap) : val * heap :=
  match j with
  | JNull => (VAtom ANone, h)
  | JBool b => (VAtom (ABool b), h)
  | JNum z => (VAtom (AInt z), h)
  | JStr s => (VAtom (AStr s), h)
  | JArr items =>
      let '(vs, h1) := decode_list decode items h in
      (VRef (length h1), h1 ++ [OList vs])
  | JObj members =>
      let '(es, h1) := decode_members decode members h in
      (VRef (length h1), h1 ++ [ODict (dict_of es)])
  end.

(** [json.loads(s)] *)
Definition json_loads (s : text) : M val :=
  match s with
  | NotJson _ => raise JSONDecodeError
  | JsonText doc =>
      λ w, let '(v, h) := decode doc (heap_of w) in (Ok v, set_heap h w)
  end.

(** ** Dicts on the heap *)

Definition get_world : M world := λ w, (Ok w, w).

(** [d.get(key, None)] for the dict at [l]; a list or a dict is not hashable. *)
Definition dict_lookup (l : loc) (key : val) : M val :=
  match key with
  | VRef _ => raise (TypeError "unhashable type")
  | VAtom k =>
      o <- read l ;;
      match o with
      | ODict es => ret (default py_None (dict_get k es))
      | OList _ => stuck
      end
  end.

(** [d[key] = value] for the dict at [l]. *)
Definition dict_store (l : loc) (key value : val) : M unit :=
  match key with
  | VRef _ => raise (TypeError "unhashable type")
  | VAtom k =>
      o <- read l ;;
      match o with
      | ODict es => write l (ODict (dict_set k value es))
      | OList _ => stuck
      end
  end.

(** [list(d.keys())], as the elements of the new list. *)
Definition dict_keys (l : loc) : M (list val) :=
  o <- read l ;;
  match o with
  | ODict es => ret (VAtom <$> es.*1)
  | OList _ => stuck
  end.

(** [data.items()] *)
Definition dict_items (data : val) : M (list (atom * val)) :=
  match data with
  | VAtom _ => raise (AttributeError "object has no attribute 'items'")
  | VRef l =>
      o <- read l ;;
      match o with
      | ODict es => ret es
      | OList _ => raise (AttributeError "'list' object has no attribute 'items'")
      end
  end.

(** [json.dumps(value)] in the current heap. *)
Definition dumps (value : val) : M json :=
  λ w, (json_dumps (heap_of w) value, w).

(** ** The backends *)

(** The interface [_KVS] relies on: [self[key]], [self.set(key, value)] and
    [self.keys()] (the elements of the list returned). *)
Class Backend (T : Type) := {
  getitem : T → val → M val;
  set : T → val → val → M unit;
  keys : T → M (list val)
}.

(** *** InMemoryKVS *)

(** An instance has no attribute of its own, only its identity. *)
Record InMemoryKVS := { instance_id : nat }.

(** [copy.deepcopy(OBJECT_STORE.get(key, None))] *)
Definition InMemoryKVS_getitem (self : InMemoryKVS) (key : val) : M val :=
  w <- get_world ;;
  x <- dict_lookup (OBJECT_STORE w) key ;;
  copy_deepcopy x.

Definition InMemoryKVS_set (self : InMemoryKVS) (key value : val) : M unit :=
  dumps value ;;;
  py_assert (is_str key) "KVS keys must be strings" ;;;
  w <- get_world ;;
  dict_store (OBJECT_STORE w) key value.

Definition InMemoryKVS_keys (self : InMemoryKVS) : M (list val) :=
  w <- get_world ;;
  dict_keys (OBJECT_STORE w).

(** [global OBJECT_STORE; OBJECT_STORE = dict()]: the global is bound to a
    new dict; the old one is left as it is. *)
Definition InMemoryKVS_clear (self : InMemoryKVS) : M unit :=
  l <- alloc (ODict []) ;;
  λ w, (Ok tt, set_OBJECT_STORE l w).

#[global] Instance InMemoryKVS_backend : Backend InMemoryKVS := {
  getitem := InMemoryKVS_getitem;
  set := InMemoryKVS_set;
  keys := InMemoryKVS_keys
}.

(** *** The remote store *)

(** Modelled from the spec: [learning_observer.redis] is not part of the
    sources at hand. A round trip to the remote store succeeds or fails as
    [net] says; network errors "propagate to the caller uncaught". *)
Definition round_trip : M unit :=
  λ w, match net w with
       | [] => (Ok tt, w)
       | true :: rest => (Ok tt, set_net rest w)
       | false :: rest => (Raise ConnectionError, set_net rest w)
       end.

(** Modelled from the spec: [learning_observer.redis.connect()]. The
    connection "is established lazily on first operation" and "cached for
    reuse". *)
Definition redis_connect : M unit :=
  w <- get_world ;;
  if redis_connected w then ret tt
  else round_trip ;;; λ w, (Ok tt, set_redis_connected true w).

(** Modelled from the spec: [learning_observer.redis.connection()], the
    shared handle. *)
Definition redis_connection : M unit := ret tt.

(** Modelled from the spec: [connection.get(key)], "a remote read"; keys are
    strings. *)
Definition connection_get (key : val) : M (option text) :=
  match key with
  | VAtom (AStr k) =>
      round_trip ;;;
      w <- get_world ;;
      ret (payload <$> redis_db w !! k)
  | _ => raise (TypeError "key must be a string")
  end.

(** Modelled from the spec: [connection.set(key, value, expire=...)], "a
    remote write with the configured expiry". *)
Definition connection_set (key : val) (value : text) (expire : json) : M unit :=
  match key with
  | VAtom (AStr k) =>
      round_trip ;;;
      λ w, (Ok tt, set_redis_db (<[k := RedisEntry value expire]> (redis_db w)) w)
  | _ => raise (TypeError "key must be a string")
  end.

(** Modelled from the spec: [connection.keys("*")], "a remote pattern-scan
    for all keys". *)
Definition connection_keys : M (list string) :=
  round_trip ;;;
  w <- get_world ;;
  ret (map_to_list (redis_db w)).*1.

(** *** _RedisKVS and its two subclasses *)

(** [self.expire]; Python's [None] is [JNull]. *)
Record RedisKVS := { expire : json }.

Definition RedisKVS_connect (self : RedisKVS) : M unit := redis_connect.

Definition RedisKVS_getitem (self : RedisKVS) (key : val) : M val :=
  RedisKVS_connect self ;;;
  redis_connection ;;;
  item <- connection_get key ;;
  match item with
  | Some s => json_loads s
  | None => ret py_None
  end.

Definition RedisKVS_set (self : RedisKVS) (key value : val) : M unit :=
  RedisKVS_connect self ;;;
  dumps value ;;;
  py_assert (is_str key) "KVS keys must be strings" ;;;
  redis_connection ;;;
  doc <- dumps value ;;
  connection_set key (JsonText doc) (expire self).

Definition RedisKVS_keys (self : RedisKVS) : M (list val) :=
  RedisKVS_connect self ;;;
  redis_connection ;;;
  ks <- connection_keys ;;
  ret (py_str <$> ks).

#[global] Instance RedisKVS_backend : Backend RedisKVS := {
  getitem := RedisKVS_getitem;
  set := RedisKVS_set;
  keys := RedisKVS_keys
}.

(** [x[k]] for a value of the settings and a string [k]. *)
Definition subscript (x : json) (k : string) : outcome json :=
  match x with
  | JObj m =>
      match assoc k m with
      | Some y => Ok y
      | None => Raise (KeyError (JStr k))
      end
  | JStr _ => Raise (TypeError "string indices must be integers")
  | JArr _ => Raise (TypeError "list indices must be integers or slices, not str")
  | _ => Raise (TypeError "object is not subscriptable")
  end.

(** [learning_observer.settings.settings[k]] *)
Definition settings_item (k : string) : M json :=
  w <- get_world ;;
  lift (subscript (JObj (settings w)) k).

(** [EphemeralRedisKVS()]:
    [super().__init__(expire=learning_observer.settings.settings['kvs']['expiry'])] *)
Definition EphemeralRedisKVS : M RedisKVS :=
  kvs <- settings_item "kvs" ;;
  e <- lift (subscript kvs "expiry") ;;
  ret {| expire := e |}.

(** [PersistentRedisKVS()]: [super().__init__(expire=None)] *)
Definition PersistentRedisKVS : M RedisKVS :=
  ret {| expire := JNull |}.

(** ** The bulk interface of [_KVS] *)

(** [with open(filename, 'w') as f: json.dump(data, f, indent=4)]. When the
    path cannot be opened for writing, [open] raises and nothing is written.
    Opening truncates the file; when the encoder fails, what was written of
    the text before is not modelled and the file is left empty. *)
Definition json_dump (data : val) (filename : string) : M unit :=
  w <- get_world ;;
  match open_w w filename with
  | Some e => raise e
  | None =>
      (λ w, (Ok tt, set_files (<[filename := NotJson ""]> (files w)) w)) ;;;
      doc <- dumps data ;;
      λ w, (Ok tt, set_files (<[filename := JsonText doc]> (files w)) w)
  end.

(** [with open(filename) as f: data = json.load(f)] *)
Definition json_load (filename : string) : M val :=
  w <- get_world ;;
  match files w !! filename with
  | None => raise (FileNotFoundError filename)
  | Some s => json_loads s
  end.

(** [_KVS.dump(filename=None)]; [filename] is [None] or a string, and
    [if filename:] holds for a string that is not empty. *)
Definition dump `{Backend T} (self : T) (filename : option string) : M val :=
  data <- alloc (ODict []) ;;
  ks <- keys self ;;
  for_each ks (λ key, v <- getitem self key ;; dict_store data key v) ;;;
  match filename with
  | Some f => if bool_decide (f = "") then ret tt else json_dump (VRef data) f
  | None => ret tt
  end ;;;
  ret (VRef data).

(** [_KVS.load(filename)] *)
Definition load `{Backend T} (self : T) (filename : string) : M unit :=
  data <- json_load filename ;;
  items <- dict_items data ;;
  for_each items (λ kv, set self (VAtom kv.1) kv.2).

(** ** The start-up check *)

Definition nl : string := String (ascii_of_nat 10) EmptyString.

Definition KVS_MAP : list (string * kvs_class) :=
  [("stub", InMemoryKVS_class);
   ("redis_ephemeral", EphemeralRedisKVS_class);
   ("redis", PersistentRedisKVS_class)].

(** [KVS_MAP[t]]; a list or a dict is not hashable. *)
Definition KVS_MAP_item (t : json) : outcome kvs_class :=
  match t with
  | JArr _ => Raise (TypeError "unhashable type: 'list'")
  | JObj _ => Raise (TypeError "unhashable type: 'dict'")
  | JStr s =>
      match assoc s KVS_MAP with
      | Some c => Ok c
      | None => Raise (KeyError t)
      end
  | _ => Raise (KeyError t)
  end.

(** [t not in KVS_MAP] *)
Definition not_in_KVS_MAP (t : json) : outcome bool :=
  match t with
  | JArr _ => Raise (TypeError "unhashable type: 'list'")
  | JObj _ => Raise (TypeError "unhashable type: 'dict'")
  | JStr s => Ok (bool_decide (assoc s KVS_MAP = None))
  | _ => Ok true
  end.

(** [str(t)], as [format] uses it, for the values that can be looked up
    in a dict. It is never asked for a list or a dict. *)
Definition py_format (t : json) : string :=
  match t with
  | JStr s => s
  | JNum z => pretty z
  | JBool true => "True"
  | JBool false => "False"
  | JNull => "None"
  | JArr _ | JObj _ => ""
  end.

(** [str(list(KVS_MAP.keys()))] *)
Definition supported_types : string :=
  "[" +:+ String.concat ", " ((λ kc, "'" +:+ kc.1 +:+ "'") <$> KVS_MAP) +:+ "]".

Definition no_kvs_message : string :=
  "No KVS configured. Please set kvs.type in settings.py" +:+ nl +:+
  "Look at example settings file to see what's available.".

Definition unknown_type_message (t : json) : string :=
  "Unknown KVS type: " +:+ py_format t +:+ nl +:+
  "Look at example settings file to see what's available. " +:+ nl +:+
  "Suppported types: " +:+ supported_types.

Definition misconfigured_message : string :=
  "KVS incorrectly configured. Please fix the error, and" +:+ nl +:+
  "then replace this with a more meaningful error message".

(** [try: body except KeyError: handler] *)
Definition try_except_KeyError {A} (body handler : M A) : M A :=
  λ w, match body w with
       | (Raise (KeyError _), w') => handler w'
       | r => r
       end.

(** [learning_observer.settings.settings['kvs']['type']] *)
Definition settings_kvs_type : M json :=
  kvs <- settings_item "kvs" ;;
  lift (subscript kvs "type").

Definition kvs_startup_check : M bool :=
  try_except_KeyError
    (t <- settings_kvs_type ;;
     c <- lift (KVS_MAP_item t) ;;
     λ w, (Ok tt, set_KVS (Some c) w))
    (w <- get_world ;;
     if bool_decide (assoc "kvs" (settings w) = None)
     then raise (StartupCheck no_kvs_message)
     else
       t <- settings_kvs_type ;;
       unknown <- lift (not_in_KVS_MAP t) ;;
       if (unknown : bool)
       then t' <- settings_kvs_type ;;
            raise (StartupCheck (unknown_type_message t'))
       else raise (StartupCheck misconfigured_message)) ;;;
  ret true.

(** ** Well-formed worlds *)

(** The entries of the table [OBJECT_STORE] is bound to. *)
Definition store_entries (w : world) : option (list (atom * val)) :=
  match heap_of w !! OBJECT_STORE w with
  | Some (ODict es) => Some es
  | _ => None
  end.

(** The value stored under a key, if any. *)
Definition store_lookup (w : world) (k : atom) : option val :=
  es ← store_entries w; dict_get k es.

(** The heap is well formed and [OBJECT_STORE] is bound to a dict. *)
Definition world_ok (w : world) : bool :=
  heap_ok (heap_of w) && bool_decide (is_Some (store_entries w)).

(** A world at start-up: the table is empty, [KVS = None], nothing is
    connected. *)
Definition initial_world (cfg : list (string * json)) : world :=
  World [ODict []] 0%nat None cfg false ∅ [] ∅ (λ _, None).

(** ** Invariants of [copy.deepcopy] *)

(** [c] is what the memo [m] makes of [a]: an atom is itself, an object is
    its copy. *)
Definition copy_of (m : memo) (a c : val) : Prop :=
  match a with
  | VAtom _ => c = a
  | VRef l => ∃ l', memo_get l m = Some l' ∧ c = VRef l'
  end.

Definition obj_copy_of (m : memo) (o o' : obj) : Prop :=
  match o, o' with
  | OList xs, OList cs => Forall2 (copy_of m) xs cs
  | ODict es, ODict cs => Forall2 (λ e c, e.1 = c.1 ∧ copy_of m e.2 c.2) es cs
  | _, _ => False
  end.

(** While a copy runs from the heap [h0]: the objects of [h0] are as they
    were, and the memo sends them, one to one, to objects made since. *)
Record copy_inv (h0 : heap) (st : copy_state) : Prop := {
  inv_length : (length h0 ≤ length st.1)%nat;
  inv_old : ∀ l, (l < length h0)%nat → st.1 !! l = h0 !! l;
  inv_memo : ∀ lx ly, memo_get lx st.2 = Some ly →
             (lx < length h0 ∧ length h0 ≤ ly < length st.1)%nat;
  inv_inj : ∀ lx lx' ly, memo_get lx st.2 = Some ly →
            memo_get lx' st.2 = Some ly → lx = lx';
  inv_new : ∀ ly, (length h0 ≤ ly < length st.1)%nat →
            ∃ lx, memo_get lx st.2 = Some ly
}.

(** The copy of [lx] is finished: it holds the copies of what [lx] holds. *)
Definition done_at (h0 : heap) (st : copy_state) (lx : loc) : Prop :=
  ∃ ly o o', memo_get lx st.2 = Some ly ∧ h0 !! lx = Some o ∧
             st.1 !! ly = Some o' ∧ obj_copy_of st.2 o o'.

(** Every copy is finished but those of the objects in [P]. *)
Definition settled (h0 : heap) (st : copy_state) (P : loc → Prop) : Prop :=
  ∀ lx, is_Some (memo_get lx st.2) → ¬ P lx → done_at h0 st lx.

(** What a call of [deepcopy] leaves: objects that existed before the call
    untouched, the memo grown. *)
Record copy_post (h0 : heap) (st st' : copy_state) : Prop := {
  post_frame : ∀ l, (l < length st.1)%nat → st'.1 !! l = st.1 !! l;
  post_length : (length st.1 ≤ length st'.1)%nat;
  post_memo : ∀ lx ly, memo_get lx st.2 = Some ly → memo_get lx st'.2 = Some ly;
  post_inv : copy_inv h0 st'
}.

(** Objects of [h0] the memo has not met. *)
Definition free_count (n : nat) (m : memo) : nat :=
  length (filter (λ l, memo_get l m = None) (seq 0 n)).

(** What [deepcopy] promises for one call, whatever copies are still open. *)
Definition rec_spec (h0 : heap)
    (rec : val → copy_state → option (val * copy_state)) : Prop :=
  ∀ x st y st' (P : loc → Prop),
    copy_inv h0 st → val_ok (length h0) x = true → settled h0 st P →
    rec x st = Some (y, st') →
    copy_post h0 st st' ∧ copy_of st'.2 x y ∧ settled h0 st' P.

(** What filling the copy at [ly] leaves: every other object that existed
    untouched. *)
Record fill_post (h0 : heap) (ly : loc) (st st' : copy_state) : Prop := {
  fill_frame : ∀ l, (l < length st.1)%nat → l ≠ ly → st'.1 !! l = st.1 !! l;
  fill_length : (length st.1 ≤ length st'.1)%nat;
  fill_memo : ∀ lx ly, memo_get lx st.2 = Some ly → memo_get lx st'.2 = Some ly;
  fill_inv : copy_inv h0 st'
}.

(** [deepcopy] with fuel [n] answers whenever at most [n] objects of [h0]
    are still to be met. *)
Definition rec_total (h0 : heap) (n : nat)
    (rec : val → copy_state → option (val * copy_state)) : Prop :=
  ∀ x st, copy_inv h0 st → val_ok (length h0) x = true →
          (free_count (length h0) st.2 ≤ n)%nat → is_Some (rec x st).

(** [h'] has every object of [h], unchanged, and maybe more. *)
Definition extends (h h' : heap) : Prop :=
  (length h ≤ length h')%nat ∧ ∀ l, (l < length h)%nat → h' !! l = h !! l.

(** Documents in which no object has two members of the same name. *)
Inductive json_ok : json → Prop :=
| ok_null : json_ok JNull
| ok_bool b : json_ok (JBool b)
| ok_num z : json_ok (JNum z)
| ok_str s : json_ok (JStr s)
| ok_arr items : Forall json_ok items → json_ok (JArr items)
| ok_obj members :
    NoDup members.*1 → Forall (λ m, json_ok m.2) members →
    json_ok (JObj members).

(** Induction on documents, through arrays and objects. *)
Section json_induction.
Variable P : json → Prop.
Hypothesis Hnull : P JNull.
Hypothesis Hbool : ∀ b, P (JBool b).
Hypothesis Hnum : ∀ z, P (JNum z).
Hypothesis Hstr : ∀ s, P (JStr s).
Hypothesis Harr : ∀ items, Forall P items → P (JArr items).
Hypothesis Hobj : ∀ members, Forall (λ m, P m.2) members → P (JObj members).

Fixpoint json_induction (j : json) : P j :=
  match j with
  | JNull => Hnull
  | JBool b => Hbool b
  | JNum z => Hnum z
  | JStr s => Hstr s
  | JArr items =>
      Harr items
        ((fix go (l : list json) : Forall P l :=
            match l with
            | [] => @List.Forall_nil _ P
            | x :: l' => @List.Forall_cons _ P x l' (json_induction x) (go l')
            end) items)
  | JObj members =>
      Hobj members
        ((fix go (l : list (string * json)) : Forall (λ m, P m.2) l :=
            match l with
            | [] => @List.Forall_nil _ (λ m, P m.2)
            | m :: l' =>
                @List.Forall_cons _ (λ m, P m.2) m l'
                  (match m return P m.2 with (_, x) => json_induction x end)
                  (go l')
            end) members)
  end.
End json_induction.

(** What [json.loads] leaves in the heap for a document: a value of new
    objects only, which denotes a document, the one decoded when that has
    no repeated member name. *)
Definition decoded (doc : json) (h : heap) (r : val * heap) : Prop :=
  extends h r.2 ∧
  (heap_ok h = true → heap_ok r.2 = true) ∧
  val_ok (length r.2) r.1 = true ∧
  (∀ l, reachable r.2 r.1 l → (length h ≤ l < length r.2)%nat) ∧
  is_Some (snapshot (length r.2 - length h) r.2 r.1) ∧
  (json_ok doc → snapshot (length r.2 - length h) r.2 r.1 = Some doc).

(** What [json.loads] leaves for one element [x] of an array or an object,
    decoded from [j]. *)
Definition decoded_item (h h' : heap) (x : val) (j : json) : Prop :=
  val_ok (length h') x = true ∧
  (∀ l, reachable h' x l → (length h ≤ l < length h')%nat) ∧
  is_Some (snapshot (length h' - length h) h' x) ∧
  (json_ok j → snapshot (length h' - length h) h' x = Some j).

(** The same, for the elements of an array decoded one after the other. *)
Definition decoded_list (items : list json) (h : heap) (r : list val * heap) : Prop :=
  extends h r.2 ∧
  (heap_ok h = true → heap_ok r.2 = true) ∧
  Forall2 (decoded_item h r.2) r.1 items.

(** ** Callers *)

(** [w2] is [w1] after its holder has changed the value [r]: objects that
    [r] is made of may have any new contents and new objects may exist;
    every other object is as it was, and so is the binding of
    [OBJECT_STORE]. *)
Definition mutated (r : val) (w1 w2 : world) : Prop :=
  OBJECT_STORE w2 = OBJECT_STORE w1 ∧
  (length (heap_of w1) ≤ length (heap_of w2))%nat ∧
  ∀ l, (l < length (heap_of w1))%nat → ¬ reachable (heap_of w1) r l →
       heap_of w2 !! l = heap_of w1 !! l.

(** A call on an instance of the in-memory backend. *)
Inductive call :=
| CallSet (key value : val)
| CallGetitem (key : val)
| CallKeys
| CallClear.

(** The world after a call, whether it returned or raised. *)
Definition run_call (w : world) (c : InMemoryKVS * call) : world :=
  match c.2 with
  | CallSet key value => (InMemoryKVS_set c.1 key value w).2
  | CallGetitem key => (InMemoryKVS_getitem c.1 key w).2
  | CallKeys => (InMemoryKVS_keys c.1 w).2
  | CallClear => (InMemoryKVS_clear c.1 w).2
  end.

Definition run_calls (cs : list (InMemoryKVS * call)) (w : world) : world :=
  foldl run_call w cs.

(** The remote store after the members [kds] were written to it. *)
Definition written (self : RedisKVS) (kds : list (string * json))
    (db : gmap string redis_entry) : gmap string redis_entry :=
  foldl (λ db kd, <[kd.1 := RedisEntry (JsonText kd.2) (expire self)]> db) db kds.

(** The entries of [data] as the Redis backend writes them: the key, and
    the document [json.dumps] gives for the value. *)
Definition to_write (h : heap) (kv : atom * val) (kd : string * json) : Prop :=
  kv.1 = AStr kd.1 ∧ json_dumps h kv.2 = Ok kd.2.

(** The entry [kv] of a dict has the name and denotes the document of [kd],
    within the heap, and is made of objects other than [ld]. *)
Definition denotes (ld : loc) (h : heap) (kv : atom * val) (kd : string * json) : Prop :=
  kv.1 = AStr kd.1 ∧
  (∃ d, snapshot d h kv.2 = Some kd.2 ∧ (S d ≤ length h)%nat) ∧
  (∀ l, reachable h kv.2 l → l ≠ ld).

(** While [dump] fills the dict at [ld]: [self[k]] answers with a value of
    new objects that denotes [doc], and keeps what [I] says of the world. *)
Definition reads `{Backend T} (self : T) (I : world → Prop) (ld : loc)
    (k : string) (doc : json) : Prop :=
  ∀ w, I w → (ld < length (heap_of w))%nat →
    ∃ r w', getitem self (py_str k) w = (Ok r, w') ∧ I w' ∧
            extends (heap_of w) (heap_of w') ∧
            (∃ d, snapshot d (heap_of w') r = Some doc ∧
                  (S d ≤ length (heap_of w'))%nat) ∧
            (∀ l, reachable (heap_of w') r l → (length (heap_of w) ≤ l)%nat).

(** [I] does not depend on the dict at [ld]. *)
Definition framed (I : world → Prop) (ld : loc) : Prop :=
  ∀ w es, I w → (ld < length (heap_of w))%nat →
          obj_ok (length (heap_of w)) (ODict es) = true →
          I (set_heap (<[ld := ODict es]> (heap_of w)) w).

(** The body of the loop of [dump]: [data[key] = await self[key]]. *)
Definition dump_step `{Backend T} (self : T) (data : loc) (key : val) : M unit :=
  v <- getitem self key ;; dict_store data key v.

(** What stays true of the world while the in-memory backend is dumped:
    the store is the dict at [s0] of the heap [h0], and [h0] is as it was. *)
Definition mem_dumping (h0 : heap) (s0 : loc) (w : world) : Prop :=
  world_ok w = true ∧ OBJECT_STORE w = s0 ∧ extends h0 (heap_of w).

(** What stays true of the world while the Redis backend is dumped. *)
Definition redis_dumping (db : gmap string redis_entry) (fs : gmap string text)
    (w : world) : Prop :=
  net w = [] ∧ redis_connected w = true ∧ redis_db w = db ∧ files w = fs.

(** The store holds JSON values under string keys. *)
Definition store_is_json (w : world) : Prop :=
  ∃ es, store_entries w = Some es ∧
        Forall (λ kv, atom_is_str kv.1 = true ∧ is_json (heap_of w) kv.2 = true) es.

(** Every string of the remote store is a JSON text without repeated
    member names, as [set] writes them. *)
Definition db_is_json (db : gmap string redis_entry) : Prop :=
  ∀ k e, db !! k = Some e → ∃ doc, payload e = JsonText doc ∧ json_ok doc.

(** ** More invariants of the in-memory table *)

(** Every key of the table [OBJECT_STORE] is bound to is a [str]. *)
Definition keys_are_strings (w : world) : Prop :=
  ∃ es, store_entries w = Some es ∧ Forall (λ kv, atom_is_str kv.1 = true) es.

(** No object the value is made of contains itself. *)
Definition acyclic (h : heap) (v : val) : Prop :=
  ∀ l o x, reachable h v l → h !! l = Some o → x ∈ children o →
           ¬ reachable h x l.

(** The computation leaves [f] of the world as it was, however it ends. *)
Definition keeps {A X} (f : world → X) (c : M A) : Prop :=
  ∀ w, f (c w).2 = f w.

(** While [dump] copies the table [s0] of the heap [h0] into the dict at
    [length h0]: the entries [pre] have been read and [acc] is what the dict
    holds for them, copies that share nothing with [h0] or with the dict
    itself; the objects of [h0] are as they were. *)
Record dumped (h0 : heap) (s0 : loc) (pre acc : list (atom * val)) (w : world) : Prop := {
  dumped_ok : world_ok w = true;
  dumped_store : OBJECT_STORE w = s0;
  dumped_old : ∀ l, (l < length h0)%nat → heap_of w !! l = h0 !! l;
  dumped_length : (length h0 < length (heap_of w))%nat;
  dumped_data : heap_of w !! length h0 = Some (ODict acc);
  dumped_keys : acc.*1 = pre.*1;
  dumped_values :
    Forall2 (λ e e', deep_equal (heap_of w) e'.2 h0 e.2 ∧
                     ∀ l, reachable (heap_of w) e'.2 l → (length h0 < l)%nat)
            pre acc
}.

(** ** The self-test of the module *)

(** What [print] was given, in the order of the calls: a value, the name
    of a type, a boolean, the elements of a list, a string. *)
Inductive printed :=
| PrintVal (v : val)
| PrintType (name : string)
| PrintBool (b : bool)
| PrintList (items : list val)
| PrintStr (s : string).

(** [x is None] *)
Definition py_is_None (x : val) : bool :=
  match x with VAtom ANone => true | _ => false end.

(** [x == z] for an [int] literal [z]; [True == 1], and a string, a list or
    a dict equals no [int]. *)
Definition py_eq_int (x : val) (z : Z) : bool :=
  match x with
  | VAtom (AInt y) => bool_decide (y = z)
  | VAtom (ABool b) => bool_decide (Z.b2z b = z)
  | _ => false
  end.

(** [type(x)], by its name. *)
Definition py_type (x : val) : M string :=
  match x with
  | VAtom ANone => ret "NoneType"
  | VAtom (ABool _) => ret "bool"
  | VAtom (AInt _) => ret "int"
  | VAtom (AStr _) => ret "str"
  | VAtom (ABytes _) => ret "bytes"
  | VRef l =>
      o <- read l ;;
      ret (match o with OList _ => "list" | ODict _ => "dict" end)
  end.

(** [test()]. Standard output is not part of the world: what the calls of
    [print] were given is returned when [test] returns, and is lost when it
    raises. [assert cond] raises [AssertionError] with no message. The two
    instances of [InMemoryKVS] differ by their identity only. *)
Definition test : M (list printed) :=
  let mk1 := {| instance_id := 1 |} in
  let mk2 := {| instance_id := 2 |} in
  ek1 <- EphemeralRedisKVS ;;
  ek2 <- EphemeralRedisKVS ;;
  x <- InMemoryKVS_getitem mk1 (py_str "hi") ;;
  py_assert (py_is_None x) "" ;;;
  p1 <- RedisKVS_getitem ek1 (py_str "hi") ;;
  x <- RedisKVS_getitem ek1 (py_str "hi") ;;
  py_assert (py_is_None x) "" ;;;
  InMemoryKVS_set mk1 (py_str "hi") (py_int 5) ;;;
  InMemoryKVS_set mk2 (py_str "hi") (py_int 7) ;;;
  RedisKVS_set ek1 (py_str "hi") (py_int 8) ;;;
  RedisKVS_set ek2 (py_str "hi") (py_int 9) ;;;
  x <- InMemoryKVS_getitem mk1 (py_str "hi") ;;
  py_assert (py_eq_int x 7) "" ;;;
  p2 <- RedisKVS_getitem ek1 (py_str "hi") ;;
  x <- RedisKVS_getitem ek1 (py_str "hi") ;;
  p3 <- py_type x ;;
  x <- RedisKVS_getitem ek1 (py_str "hi") ;;
  let p4 := py_eq_int x 9 in
  x <- RedisKVS_getitem ek1 (py_str "hi") ;;
  py_assert (py_eq_int x 9) "" ;;;
  p5 <- InMemoryKVS_keys mk1 ;;
  p6 <- RedisKVS_keys ek1 ;;
  ret [PrintVal p1; PrintVal p2; PrintType p3; PrintBool p4;
       PrintList p5; PrintList p6;
       PrintStr "Test successful";
       PrintStr "Please wait before running test again";
       PrintStr "redis needs to flush expiring objects";
       PrintStr "This delay is set in the config file.";
       PrintStr "It is typically 1s - 24h, depending on";
       PrintStr "the work."].

(** * Properties *)

(** ** Dicts *)

Lemma key_eqb_sym a b : key_eqb a b = key_eqb b a.
Proof.
  destruct a, b; simpl; try reflexivity;
    apply bool_decide_ext; split; congruence.
Qed.

Lemma key_eqb_str s a : key_eqb a (AStr s) = true ↔ a = AStr s.
Proof.
  destruct a; simpl; try (split; [discriminate | congruence]).
  rewrite bool_decide_eq_true. split; congruence.
Qed.

Lemma dict_get_None k d :
  dict_get k d = None ↔ Forall (λ kv, key_eqb kv.1 k = false) d.
Proof.
  induction d as [|[k' v] d IH]; simpl.
  - split; [constructor | reflexivity].
  - destruct (key_eqb k' k) eqn:E.
    + split; [discriminate |]. intros H. inversion H; simpl in *; congruence.
    + rewrite IH. split; [by constructor | by inversion 1].
Qed.

Lemma dict_get_keys k d d' : d.*1 = d'.*1 → dict_get k d = None → dict_get k d' = None.
Proof.
  rewrite !dict_get_None. intros Hk H.
  apply Forall_fmap with (f := fst) (P := λ a, key_eqb a k = false).
  rewrite <- Hk. by apply Forall_fmap.
Qed.

Lemma dict_set_fresh k v d : dict_get k d = None → dict_set k v d = d ++ [(k, v)].
Proof.
  induction d as [|[k' v'] d IH]; simpl; [done |].
  destruct (key_eqb k' k); [done |]. intros H. by rewrite IH.
Qed.

Lemma dict_get_set k v d : dict_get k (dict_set k v d) = Some v.
Proof.
  induction d as [|[k' v'] d IH]; simpl.
  - destruct k; simpl; rewrite ?bool_decide_eq_true_2; try done.
  - destruct (key_eqb k' k) eqn:E; simpl; by rewrite E.
Qed.

Lemma dict_set_keys_fst k v d :
  dict_get k d ≠ None → (dict_set k v d).*1 = d.*1.
Proof.
  induction d as [|[k' v'] d IH]; simpl; [done |].
  destruct (key_eqb k' k); [done |]. intros H.
  rewrite !fmap_cons. f_equal. by apply IH.
Qed.

Lemma key_eqb_trans a b c : key_eqb a b = true → key_eqb a c = key_eqb b c.
Proof.
  intros H. destruct a, b; simpl in H; try discriminate;
    try apply bool_decide_eq_true in H; subst;
    destruct c; simpl; try reflexivity;
    apply bool_decide_ext; split; intros; subst;
    repeat match goal with b : bool |- _ => destruct b end;
    simpl in *; congruence.
Qed.

Lemma dict_get_set_other k k' v d :
  key_eqb k' k = false → dict_get k (dict_set k' v d) = dict_get k d.
Proof.
  intros Hne. induction d as [|[k0 v0] d IH]; simpl.
  - by rewrite Hne.
  - destruct (key_eqb k0 k') eqn:E; simpl; [| by rewrite IH].
    by rewrite (key_eqb_trans _ _ k E), Hne.
Qed.

Lemma dict_ok_snoc d k v :
  dict_ok d = true → dict_get k d = None → dict_ok (d ++ [(k, v)]) = true.
Proof.
  induction d as [|[k' v'] d IH]; simpl; [done |].
  rewrite !andb_true_iff, !bool_decide_eq_true.
  intros [Hk' Hd]. destruct (key_eqb k' k) eqn:E; [done |]. intros Hk.
  split; [| by apply IH].
  apply dict_get_None, Forall_app. split; [by apply dict_get_None |].
  repeat constructor. simpl. by rewrite key_eqb_sym.
Qed.

Lemma dict_ok_set k v d : dict_ok d = true → dict_ok (dict_set k v d) = true.
Proof.
  induction d as [|[k' v'] d IH]; simpl; [done |].
  rewrite !andb_true_iff, !bool_decide_eq_true. intros [Hk' Hd].
  destruct (key_eqb k' k) eqn:E; simpl;
    rewrite andb_true_iff, bool_decide_eq_true.
  - done.
  - split; [| by apply IH]. rewrite dict_get_set_other; [done |].
    by rewrite key_eqb_sym.
Qed.

(** In a dict with distinct keys, a key is met by no earlier entry. *)
Lemma dict_ok_middle pre k v post :
  dict_ok (pre ++ (k, v) :: post) = true → dict_get k pre = None.
Proof.
  induction pre as [|[k' v'] pre IH]; simpl; [done |].
  rewrite andb_true_iff, bool_decide_eq_true. intros [Hk' Hd].
  apply dict_get_None, Forall_app in Hk' as [_ Hk'].
  inversion Hk' as [|? ? Hkk]; subst; simpl in Hkk.
  rewrite key_eqb_sym, Hkk. by apply IH.
Qed.

Lemma dict_ok_keys d d' : d.*1 = d'.*1 → dict_ok d = true → dict_ok d' = true.
Proof.
  revert d'. induction d as [|[k v] d IH]; intros [|[k' v'] d']; try done.
  rewrite !fmap_cons. simpl. intros [= <- Hk].
  rewrite !andb_true_iff, !bool_decide_eq_true. intros [Hget Hd].
  split; [by eapply dict_get_keys | by apply IH].
Qed.

(** ** Well-formed heaps *)

Lemma heap_ok_lookup h l o :
  heap_ok h = true → h !! l = Some o → obj_ok (length h) o = true.
Proof.
  unfold heap_ok. rewrite forallb_forall. intros H Hl.
  apply H, list_elem_of_In, list_elem_of_lookup. eauto.
Qed.

Lemma obj_ok_children n o :
  obj_ok n o = true → Forall (λ v, val_ok n v = true) (children o).
Proof.
  unfold obj_ok. rewrite andb_true_iff, forallb_forall. intros [H _].
  apply Forall_forall. intros v Hv. by apply H, list_elem_of_In.
Qed.

Lemma obj_ok_dict n es : obj_ok n (ODict es) = true → dict_ok es = true.
Proof. unfold obj_ok. rewrite andb_true_iff. tauto. Qed.

Lemma val_ok_mono n n' v : (n ≤ n')%nat → val_ok n v = true → val_ok n' v = true.
Proof.
  destruct v; simpl; [done |]. rewrite !bool_decide_eq_true. lia.
Qed.

Lemma obj_ok_mono n n' o : (n ≤ n')%nat → obj_ok n o = true → obj_ok n' o = true.
Proof.
  unfold obj_ok. rewrite !andb_true_iff, !forallb_forall.
  intros Hn [H ?]. split; [| done]. intros v Hv. eapply val_ok_mono; eauto.
Qed.

Lemma obj_ok_intro n o :
  Forall (λ v, val_ok n v = true) (children o) →
  (∀ es, o = ODict es → dict_ok es = true) → obj_ok n o = true.
Proof.
  intros Hc Hd. unfold obj_ok. rewrite andb_true_iff, forallb_forall. split.
  - intros v Hv. rewrite Forall_forall in Hc. by apply Hc, list_elem_of_In.
  - destruct o; [done |]. by apply Hd.
Qed.

Lemma heap_ok_intro h :
  (∀ l o, h !! l = Some o → obj_ok (length h) o = true) → heap_ok h = true.
Proof.
  intros H. unfold heap_ok. rewrite forallb_forall. intros o Ho.
  apply list_elem_of_In, list_elem_of_lookup in Ho as [l Hl]. eauto.
Qed.

(** ** The memo *)

Lemma copy_of_mono m m' a c :
  (∀ lx ly, memo_get lx m = Some ly → memo_get lx m' = Some ly) →
  copy_of m a c → copy_of m' a c.
Proof.
  intros Hm. destruct a; simpl; [done |]. intros (l' & ? & ->). eauto.
Qed.

Lemma obj_copy_of_mono m m' o o' :
  (∀ lx ly, memo_get lx m = Some ly → memo_get lx m' = Some ly) →
  obj_copy_of m o o' → obj_copy_of m' o o'.
Proof.
  intros Hm. destruct o, o'; simpl; try done.
  - intros H. eapply Forall2_impl; [exact H |]. intros. by eapply copy_of_mono.
  - intros H. eapply Forall2_impl; [exact H |].
    intros ? ? [? ?]. split; [done |]. by eapply copy_of_mono.
Qed.

Lemma copy_post_refl h0 st : copy_inv h0 st → copy_post h0 st st.
Proof. intros. by split. Qed.

Lemma done_at_mono h0 st st' lx :
  copy_inv h0 st →
  (∀ l, (length h0 ≤ l < length st.1)%nat → st'.1 !! l = st.1 !! l) →
  (∀ lx ly, memo_get lx st.2 = Some ly → memo_get lx st'.2 = Some ly) →
  done_at h0 st lx → done_at h0 st' lx.
Proof.
  intros Hinv Hfr Hm (ly & o & o' & Hly & Ho & Ho' & Hc).
  exists ly, o, o'. split; [by apply Hm |]. split; [done |]. split.
  - rewrite Hfr; [done |]. destruct (inv_memo _ _ Hinv _ _ Hly). lia.
  - by eapply obj_copy_of_mono.
Qed.

Lemma copy_inv_insert h0 h m ly o :
  copy_inv h0 (h, m) → (length h0 ≤ ly)%nat → copy_inv h0 (<[ly := o]> h, m).
Proof.
  intros [H1 H2 H3 H4 H5] Hly. split; simpl in *.
  - by rewrite length_insert.
  - intros l Hl. rewrite list_lookup_insert_ne by lia. by apply H2.
  - intros lx ly' Hm. rewrite length_insert. by apply H3.
  - done.
  - intros l. rewrite length_insert. apply H5.
Qed.

Lemma settled_insert h0 h m (P : loc → Prop) lx ly o :
  copy_inv h0 (h, m) → settled h0 (h, m) P →
  P lx → memo_get lx m = Some ly →
  settled h0 (<[ly := o]> h, m) P.
Proof.
  intros Hinv Hs HP Hlx lx' Hsome HnP.
  destruct (Hs lx' Hsome HnP) as (ly' & o1 & o2 & Hly' & Ho1 & Ho2 & Hc).
  exists ly', o1, o2. simpl in *. repeat split; try done.
  rewrite list_lookup_insert_ne; [done |]. intros ->.
  apply HnP. by rewrite (inv_inj _ _ Hinv lx' lx ly').
Qed.

Lemma fill_post_trans h0 ly st1 st2 st3 :
  fill_post h0 ly st1 st2 → fill_post h0 ly st2 st3 → fill_post h0 ly st1 st3.
Proof.
  intros [F1 L1 M1 I1] [F2 L2 M2 I2]. split; try done.
  - intros l Hl Hne. rewrite F2 by (done || lia). by apply F1.
  - lia.
  - eauto.
Qed.

(** One element copied and stored in the copy at [ly]. *)
Lemma fill_step h0 (P : loc → Prop) lx ly st st1 o :
  copy_inv h0 st → settled h0 st1 P → copy_post h0 st st1 →
  P lx → memo_get lx st.2 = Some ly →
  let st2 := (<[ly := o]> st1.1, st1.2) in
  fill_post h0 ly st st2 ∧ settled h0 st2 P ∧ st2.1 !! ly = Some o ∧
  memo_get lx st2.2 = Some ly.
Proof.
  intros Hinv Hs [F L Mm I] HP Hlx st2.
  destruct (inv_memo _ _ Hinv _ _ Hlx) as [? ?].
  assert (copy_inv h0 st2) as I2.
  { destruct st1. apply copy_inv_insert; [done | lia]. }
  split; [| split; [| split]].
  - split; simpl; try done.
    + intros l Hl Hne. rewrite list_lookup_insert_ne by done. by apply F.
    + by rewrite length_insert.
  - destruct st1. eapply settled_insert; eauto.
  - simpl. apply list_lookup_insert_eq. lia.
  - simpl. by apply Mm.
Qed.

Lemma copy_items_spec h0 rec (P : loc → Prop) lx ly :
  rec_spec h0 rec → P lx →
  ∀ items st ys st',
    copy_inv h0 st → Forall (λ v, val_ok (length h0) v = true) items →
    settled h0 st P → memo_get lx st.2 = Some ly →
    st.1 !! ly = Some (OList ys) →
    copy_items rec ly items st = Some st' →
    fill_post h0 ly st st' ∧ settled h0 st' P ∧
    ∃ cs, st'.1 !! ly = Some (OList (ys ++ cs)) ∧ Forall2 (copy_of st'.2) items cs.
Proof.
  intros Hrec HP. induction items as [|a rest IH]; intros st ys st' Hinv Hok Hs Hlx Hly; simpl.
  - intros [= <-]. split; [by split |]. split; [done |].
    exists []. rewrite app_nil_r. by split.
  - destruct (rec a st) as [[c st1]|] eqn:Ea; [| done]. intros Hgo.
    inversion Hok as [|? ? Ha Hrest]; subst.
    destruct (Hrec _ _ _ _ P Hinv Ha Hs Ea) as (Hpost & Hc & Hs1).
    destruct (inv_memo _ _ Hinv _ _ Hlx) as [? ?].
    assert (st1.1 !! ly = Some (OList ys)) as Hly1.
    { rewrite (post_frame _ _ _ Hpost); [done | lia]. }
    unfold list_append in Hgo. rewrite Hly1 in Hgo.
    destruct (fill_step h0 P lx ly st st1 (OList (ys ++ [c])) Hinv Hs1 Hpost HP Hlx)
      as (Hf & Hs2 & Hly2 & Hlx2).
    destruct (IH _ _ _ (fill_inv _ _ _ _ Hf) Hrest Hs2 Hlx2 Hly2 Hgo)
      as (Hf' & Hs' & cs & Hcs & Hall).
    split; [by eapply fill_post_trans |]. split; [done |].
    exists (c :: cs). rewrite <- app_assoc in Hcs. split; [done |].
    constructor; [| done].
    eapply copy_of_mono; [| exact Hc]. apply (fill_memo _ _ _ _ Hf').
Qed.

Lemma copy_entries_spec h0 rec (P : loc → Prop) lx ly :
  rec_spec h0 rec → P lx →
  ∀ entries st (pre ys : list (atom * val)) st',
    copy_inv h0 st → Forall (λ v, val_ok (length h0) v = true) entries.*2 →
    dict_ok (pre ++ entries) = true → ys.*1 = pre.*1 →
    settled h0 st P → memo_get lx st.2 = Some ly →
    st.1 !! ly = Some (ODict ys) →
    copy_entries rec ly entries st = Some st' →
    fill_post h0 ly st st' ∧ settled h0 st' P ∧
    ∃ cs, st'.1 !! ly = Some (ODict (ys ++ cs)) ∧
          Forall2 (λ e c, e.1 = c.1 ∧ copy_of st'.2 e.2 c.2) entries cs.
Proof.
  intros Hrec HP.
  induction entries as [|[k a] rest IH];
    intros st pre ys st' Hinv Hok Hdict Hkeys Hs Hlx Hly; simpl.
  - intros [= <-]. split; [by split |]. split; [done |].
    exists []. rewrite app_nil_r. by split.
  - destruct (rec a st) as [[c st1]|] eqn:Ea; [| done]. intros Hgo.
    rewrite fmap_cons in Hok. inversion Hok as [|? ? Ha Hrest]; subst.
    destruct (Hrec _ _ _ _ P Hinv Ha Hs Ea) as (Hpost & Hc & Hs1).
    destruct (inv_memo _ _ Hinv _ _ Hlx) as [? ?].
    assert (st1.1 !! ly = Some (ODict ys)) as Hly1.
    { rewrite (post_frame _ _ _ Hpost); [done | lia]. }
    unfold dict_setitem in Hgo. rewrite Hly1 in Hgo.
    assert (dict_get k ys = None) as Hfresh.
    { eapply dict_get_keys; [symmetry; exact Hkeys |].
      by eapply dict_ok_middle. }
    rewrite (dict_set_fresh _ _ _ Hfresh) in Hgo.
    destruct (fill_step h0 P lx ly st st1 (ODict (ys ++ [(k, c)])) Hinv Hs1 Hpost HP Hlx)
      as (Hf & Hs2 & Hly2 & Hlx2).
    assert (dict_ok ((pre ++ [(k, a)]) ++ rest) = true) as Hdict'.
    { by rewrite <- app_assoc. }
    assert ((ys ++ [(k, c)]).*1 = (pre ++ [(k, a)]).*1) as Hkeys'.
    { rewrite !fmap_app. by f_equal. }
    destruct (IH _ _ _ _ (fill_inv _ _ _ _ Hf) Hrest Hdict' Hkeys' Hs2 Hlx2 Hly2 Hgo)
      as (Hf' & Hs' & cs & Hcs & Hall).
    split; [by eapply fill_post_trans |]. split; [done |].
    exists ((k, c) :: cs). rewrite <- app_assoc in Hcs. split; [done |].
    constructor; [| done]. split; [done |].
    eapply copy_of_mono; [| exact Hc]. apply (fill_memo _ _ _ _ Hf').
Qed.

(** The state right after an empty copy of [lx] is made and entered in the
    memo. *)
Lemma open_copy h0 st (P : loc → Prop) lx o :
  copy_inv h0 st → settled h0 st P → (lx < length h0)%nat →
  memo_get lx st.2 = None →
  let ly := length st.1 in
  let st1 := (st.1 ++ [o], (lx, ly) :: st.2) in
  copy_inv h0 st1 ∧ settled h0 st1 (λ l, P l ∨ l = lx) ∧
  memo_get lx st1.2 = Some ly ∧ st1.1 !! ly = Some o ∧
  (∀ l l', memo_get l st.2 = Some l' → memo_get l st1.2 = Some l').
Proof.
  intros Hinv Hs Hlx Hnone ly st1.
  assert (∀ l l', memo_get l st.2 = Some l' → memo_get l st1.2 = Some l') as Hmono.
  { intros l l' Hl. simpl. case_bool_decide; [congruence | done]. }
  assert (copy_inv h0 st1) as Hinv1.
  { destruct Hinv as [H1 H2 H3 H4 H5]. split; simpl.
    - rewrite length_app. lia.
    - intros l Hl. rewrite lookup_app_l by lia. by apply H2.
    - intros l l'. rewrite length_app. simpl. case_bool_decide.
      + intros [= <-]. subst. unfold ly. lia.
      + intros Hl. apply H3 in Hl. lia.
    - intros l1 l2 l'. repeat case_bool_decide; subst.
      + done.
      + intros [= <-] Hl. apply H3 in Hl. unfold ly in Hl. lia.
      + intros Hl [= <-]. apply H3 in Hl. unfold ly in Hl. lia.
      + apply H4.
    - intros l. rewrite length_app. simpl. intros Hl.
      destruct (decide (l = ly)) as [-> |Hne].
      + exists lx. by rewrite bool_decide_eq_true_2.
      + destruct (H5 l) as [l0 Hl0]; [unfold ly in Hne; lia |].
        exists l0. case_bool_decide; [congruence | done]. }
  split; [done |]. split; [| split; [| split]].
  - intros l [l' Hl] HnP. simpl in Hl. case_bool_decide; [subst; tauto |].
    eapply done_at_mono; [exact Hinv | | exact Hmono |].
    + intros l0 Hl0. simpl. by rewrite lookup_app_l by lia.
    + apply Hs; [eauto | tauto].
  - simpl. by rewrite bool_decide_eq_true_2.
  - simpl. unfold ly. by rewrite lookup_app_r, Nat.sub_diag by lia.
  - done.
Qed.

(** From the filled copy back to the caller. *)
Lemma close_copy h0 st st1 st' (P : loc → Prop) lx ly o o' :
  copy_inv h0 st → ly = length st.1 →
  (∀ l, (l < length st.1)%nat → st1.1 !! l = st.1 !! l) →
  (length st.1 < length st1.1)%nat →
  (∀ l l', memo_get l st.2 = Some l' → memo_get l st1.2 = Some l') →
  memo_get lx st1.2 = Some ly → h0 !! lx = Some o' →
  fill_post h0 ly st1 st' → settled h0 st' (λ l, P l ∨ l = lx) →
  st'.1 !! ly = Some o → obj_copy_of st'.2 o' o →
  copy_post h0 st st' ∧ copy_of st'.2 (VRef lx) (VRef ly) ∧ settled h0 st' P.
Proof.
  intros Hinv -> Hfr1 Hlen1 Hm1 Hlx Ho' [F L Mm I] Hs Ho Hc.
  split; [| split].
  - split; [| lia | eauto | done].
    intros l Hl. rewrite F by lia. by apply Hfr1.
  - simpl. eauto.
  - intros l Hl HnP. destruct (decide (l = lx)) as [-> |Hne].
    + exists (length st.1), o', o. eauto.
    + apply Hs; [done | tauto].
Qed.

Theorem deepcopy_spec h0 : heap_ok h0 = true → ∀ n, rec_spec h0 (deepcopy n).
Proof.
  intros Hok. induction n as [|n IH]; intros x st y st' P Hinv Hx Hs;
    (destruct x as [a|lx]; simpl;
     [intros [= <- <-]; by auto using copy_post_refl |]);
    (destruct (memo_get lx st.2) as [ly|] eqn:Hmemo;
     [intros [= <- <-]; split; [by apply copy_post_refl |]; split; [simpl; eauto | done] |]);
    [done |].
  simpl in Hx. apply bool_decide_eq_true in Hx.
  rewrite (inv_old _ _ Hinv lx Hx).
  destruct (h0 !! lx) as [o|] eqn:Ho; [| done].
  pose proof (heap_ok_lookup _ _ _ Hok Ho) as Hobj.
  pose proof (obj_ok_children _ _ Hobj) as Hch.
  destruct o as [items|entries].
  - destruct (open_copy h0 st P lx (OList []) Hinv Hs Hx Hmemo)
      as (Hinv1 & Hs1 & Hlx1 & Hly1 & Hm1).
    destruct (copy_items _ _ _ _) as [st2|] eqn:Eloop; [| done].
    simpl. intros [= <- <-].
    destruct (copy_items_spec h0 (deepcopy n) (λ l, P l ∨ l = lx) lx (length st.1)
                IH (or_intror eq_refl) _ _ _ _ Hinv1 Hch Hs1 Hlx1 Hly1 Eloop)
      as (Hf & Hs2 & cs & Hcs & Hall).
    eapply (close_copy h0 st (st.1 ++ [OList []], (lx, length st.1) :: st.2)
              st2 P lx); eauto.
    + intros l Hl. simpl. by rewrite lookup_app_l.
    + simpl. rewrite length_app. simpl. lia.
  - destruct (open_copy h0 st P lx (ODict []) Hinv Hs Hx Hmemo)
      as (Hinv1 & Hs1 & Hlx1 & Hly1 & Hm1).
    destruct (copy_entries _ _ _ _) as [st2|] eqn:Eloop; [| done].
    simpl. intros [= <- <-].
    destruct (copy_entries_spec h0 (deepcopy n) (λ l, P l ∨ l = lx) lx (length st.1)
                IH (or_intror eq_refl) _ _ [] [] _ Hinv1 Hch
                (obj_ok_dict _ _ Hobj) eq_refl Hs1 Hlx1 Hly1 Eloop)
      as (Hf & Hs2 & cs & Hcs & Hall).
    eapply (close_copy h0 st (st.1 ++ [ODict []], (lx, length st.1) :: st.2)
              st2 P lx); eauto.
    + intros l Hl. simpl. by rewrite lookup_app_l.
    + simpl. rewrite length_app. simpl. lia.
Qed.

(** ** [deepcopy] answers *)

Lemma filter_length_le {A} (P Q : A → Prop) `{∀ x, Decision (P x)}
    `{∀ x, Decision (Q x)} (l : list A) :
  (∀ x, x ∈ l → Q x → P x) → (length (filter Q l) ≤ length (filter P l))%nat.
Proof.
  induction l as [|a l IH]; intros HQP; [done |].
  rewrite !filter_cons.
  assert (length (filter Q l) ≤ length (filter P l))%nat.
  { apply IH. intros x Hx. apply HQP. by right. }
  destruct (decide (Q a)) as [HQ|]; destruct (decide (P a)) as [|HnP]; simpl; try lia.
  exfalso. apply HnP, HQP; [left | done].
Qed.

Lemma filter_length_lt {A} (P Q : A → Prop) `{∀ x, Decision (P x)}
    `{∀ x, Decision (Q x)} (l : list A) a :
  a ∈ l → P a → ¬ Q a → (∀ x, x ∈ l → Q x → P x) →
  (length (filter Q l) < length (filter P l))%nat.
Proof.
  induction l as [|b l IH]; intros Ha HP HnQ HQP; [by inversion Ha |].
  rewrite !filter_cons.
  assert (∀ x, x ∈ l → Q x → P x) as HQP' by (intros x Hx; apply HQP; by right).
  pose proof (filter_length_le P Q l HQP').
  apply elem_of_cons in Ha as [<- |Ha].
  - destruct (decide (Q a)); [done |]. destruct (decide (P a)); [| done]. simpl. lia.
  - specialize (IH Ha HP HnQ HQP').
    destruct (decide (Q b)) as [HQ|]; destruct (decide (P b)) as [|HnP]; simpl; try lia.
    exfalso. apply HnP, HQP; [left | done].
Qed.

Lemma free_count_mono n m m' :
  (∀ l l', memo_get l m = Some l' → memo_get l m' = Some l') →
  (free_count n m' ≤ free_count n m)%nat.
Proof.
  intros Hm. apply filter_length_le. intros l _ Hl.
  destruct (memo_get l m) eqn:E; [| done]. apply Hm in E. congruence.
Qed.

Lemma free_count_lt n m m' lx :
  (lx < n)%nat → memo_get lx m = None → is_Some (memo_get lx m') →
  (∀ l l', memo_get l m = Some l' → memo_get l m' = Some l') →
  (free_count n m' < free_count n m)%nat.
Proof.
  intros Hlx Hnone [l' Hsome] Hm. apply filter_length_lt with (a := lx).
  - apply elem_of_seq. lia.
  - done.
  - congruence.
  - intros l _ Hl. destruct (memo_get l m) eqn:E; [| done]. apply Hm in E. congruence.
Qed.

Lemma free_count_pos n m lx :
  (lx < n)%nat → memo_get lx m = None → (0 < free_count n m)%nat.
Proof.
  intros Hlx Hnone. unfold free_count.
  assert (lx ∈ filter (λ l, memo_get l m = None) (seq 0 n)) as Hin.
  { apply list_elem_of_filter. split; [done |]. apply elem_of_seq. lia. }
  destruct (filter _ _); [by inversion Hin | simpl; lia].
Qed.

Lemma settled_all h0 st : settled h0 st (λ _, True).
Proof. intros l _ H. by destruct H. Qed.

Lemma copy_items_total h0 n rec ly :
  rec_spec h0 rec → rec_total h0 n rec → (length h0 ≤ ly)%nat →
  ∀ items st,
    copy_inv h0 st → Forall (λ v, val_ok (length h0) v = true) items →
    (free_count (length h0) st.2 ≤ n)%nat →
    is_Some (copy_items rec ly items st).
Proof.
  intros Hspec Htot Hly. induction items as [|a rest IH]; intros st Hinv Hok Hn; simpl.
  - eauto.
  - inversion Hok as [|? ? Ha Hrest]; subst.
    destruct (Htot a st Hinv Ha Hn) as [[c st1] Ea]. rewrite Ea.
    destruct (Hspec _ _ _ _ _ Hinv Ha (settled_all h0 st) Ea) as (Hpost & _ & _).
    apply IH; [| done |].
    + unfold list_append. destruct st1 as [h1 m1]; simpl.
      destruct (h1 !! ly) as [[ys|]|]; try apply (post_inv _ _ _ Hpost).
      apply copy_inv_insert; [apply (post_inv _ _ _ Hpost) | done].
    + simpl. pose proof (free_count_mono (length h0) _ _ (post_memo _ _ _ Hpost)). lia.
Qed.

Lemma copy_entries_total h0 n rec ly :
  rec_spec h0 rec → rec_total h0 n rec → (length h0 ≤ ly)%nat →
  ∀ entries st,
    copy_inv h0 st → Forall (λ v, val_ok (length h0) v = true) entries.*2 →
    (free_count (length h0) st.2 ≤ n)%nat →
    is_Some (copy_entries rec ly entries st).
Proof.
  intros Hspec Htot Hly. induction entries as [|[k a] rest IH]; intros st Hinv Hok Hn; simpl.
  - eauto.
  - rewrite fmap_cons in Hok. inversion Hok as [|? ? Ha Hrest]; subst.
    destruct (Htot a st Hinv Ha Hn) as [[c st1] Ea]. rewrite Ea.
    destruct (Hspec _ _ _ _ _ Hinv Ha (settled_all h0 st) Ea) as (Hpost & _ & _).
    apply IH; [| done |].
    + unfold dict_setitem. destruct st1 as [h1 m1]; simpl.
      destruct (h1 !! ly) as [[|ys]|]; try apply (post_inv _ _ _ Hpost).
      apply copy_inv_insert; [apply (post_inv _ _ _ Hpost) | done].
    + simpl. pose proof (free_count_mono (length h0) _ _ (post_memo _ _ _ Hpost)). lia.
Qed.

Theorem deepcopy_total h0 :
  heap_ok h0 = true → ∀ n, rec_total h0 n (deepcopy n).
Proof.
  intros Hok. induction n as [|n IH]; intros x st Hinv Hx Hn;
    (destruct x as [a|lx]; simpl; [by eauto |]);
    (destruct (memo_get lx st.2) as [ly|] eqn:Hmemo; [by eauto |]);
    simpl in Hx; apply bool_decide_eq_true in Hx.
  { pose proof (free_count_pos _ _ _ Hx Hmemo). lia. }
  rewrite (inv_old _ _ Hinv lx Hx).
  destruct (h0 !! lx) as [o|] eqn:Ho; [| apply lookup_lt_is_Some_2 in Hx as [? ?]; congruence].
  pose proof (heap_ok_lookup _ _ _ Hok Ho) as Hobj.
  pose proof (obj_ok_children _ _ Hobj) as Hch.
  assert (free_count (length h0) ((lx, length st.1) :: st.2) ≤ n)%nat as Hn'.
  { assert (free_count (length h0) ((lx, length st.1) :: st.2)
            < free_count (length h0) st.2)%nat; [| lia].
    apply free_count_lt with (lx := lx); try done.
    - simpl. rewrite bool_decide_eq_true_2; eauto.
    - intros l l' Hl. simpl. case_bool_decide; [congruence | done]. }
  pose proof (inv_length _ _ Hinv) as Hlen.
  destruct o as [items|entries].
  - destruct (open_copy h0 st (λ _, True) lx (OList []) Hinv (settled_all _ _) Hx Hmemo)
      as (Hinv1 & _).
    destruct (copy_items_total h0 n (deepcopy n) (length st.1)
                (deepcopy_spec h0 Hok n) IH Hlen items _ Hinv1 Hch Hn') as [st2 ->].
    simpl. eauto.
  - destruct (open_copy h0 st (λ _, True) lx (ODict []) Hinv (settled_all _ _) Hx Hmemo)
      as (Hinv1 & _).
    destruct (copy_entries_total h0 n (deepcopy n) (length st.1)
                (deepcopy_spec h0 Hok n) IH Hlen entries _ Hinv1 Hch Hn') as [st2 ->].
    simpl. eauto.
Qed.

(** ** What a deep copy is *)

Lemma extends_refl h : extends h h.
Proof. by split. Qed.

Lemma extends_trans h1 h2 h3 : extends h1 h2 → extends h2 h3 → extends h1 h3.
Proof.
  intros [L1 F1] [L2 F2]. split; [lia |].
  intros l Hl. rewrite F2 by lia. by apply F1.
Qed.

Lemma extends_app h k : extends h (h ++ k).
Proof.
  split; [rewrite length_app; lia |]. intros l Hl. by apply lookup_app_l.
Qed.

Lemma Forall2_map_eq {A B C} (f : B → C) (g : A → C) (xs : list A) (ys : list B) :
  Forall2 (λ x y, f y = g x) xs ys → map f ys = map g xs.
Proof. induction 1; simpl; congruence. Qed.

(** A well-formed heap is closed: a value of it unfolds the same in every
    heap that keeps its objects. *)
Lemma unfold_extends h h' :
  heap_ok h = true → (∀ l, (l < length h)%nat → h' !! l = h !! l) →
  ∀ d x, val_ok (length h) x = true → unfold d h' x = unfold d h x.
Proof.
  intros Hok Hfr. induction d as [|d IH]; intros [a|l] Hx; simpl; try done.
  apply bool_decide_eq_true in Hx. rewrite (Hfr l Hx).
  destruct (h !! l) as [o|] eqn:Ho; [| done].
  pose proof (obj_ok_children _ _ (heap_ok_lookup _ _ _ Hok Ho)) as Hch.
  destruct o as [items|entries]; simpl in Hch; f_equal.
  - apply map_ext_Forall. eapply Forall_impl; [exact Hch | eauto].
  - apply map_ext_Forall. apply Forall_fmap in Hch.
    eapply Forall_impl; [exact Hch |]. intros [k v] Hv. simpl. f_equal. by apply IH.
Qed.

Section Copied.
Variables (h0 : heap) (st : copy_state).
Hypothesis Hok : heap_ok h0 = true.
Hypothesis Hinv : copy_inv h0 st.
Hypothesis Hdone : settled h0 st (λ _, False).

Lemma copy_done lx ly :
  memo_get lx st.2 = Some ly →
  ∃ o o', h0 !! lx = Some o ∧ st.1 !! ly = Some o' ∧ obj_copy_of st.2 o o'.
Proof.
  intros Hlx. destruct (Hdone lx) as (ly' & o & o' & Hly' & ? & ? & ?); eauto.
  assert (ly' = ly) as -> by congruence. eauto.
Qed.

Lemma unfold_copy d : ∀ a c,
  val_ok (length h0) a = true → copy_of st.2 a c →
  unfold d st.1 c = unfold d h0 a.
Proof.
  induction d as [|d IH]; intros [a|lx] c Ha; simpl.
  - by intros ->.
  - by intros (ly & _ & ->).
  - by intros ->.
  - intros (ly & Hly & ->). simpl.
    destruct (copy_done lx ly Hly) as (o & o' & Ho & Ho' & Hc).
    rewrite Ho, Ho'.
    pose proof (obj_ok_children _ _ (heap_ok_lookup _ _ _ Hok Ho)) as Hch.
    destruct o as [items|entries], o' as [cs|cs]; simpl in Hc; try done; f_equal.
    + apply Forall2_map_eq. simpl in Hch.
      apply Forall2_same_length_lookup. split; [by eapply Forall2_length |].
      intros i x y Hx Hy. apply IH.
      * by eapply Forall_lookup_1 in Hch.
      * by eapply Forall2_lookup_lr in Hc.
    + apply Forall2_map_eq. simpl in Hch.
      apply Forall2_same_length_lookup. split; [by eapply Forall2_length |].
      intros i x y Hx Hy.
      destruct (Forall2_lookup_lr _ _ _ _ _ _ Hc Hx Hy) as [Hk Hv].
      rewrite <- Hk. f_equal. apply IH; [| done].
      eapply Forall_lookup_1 in Hch; [exact Hch |].
      by rewrite list_lookup_fmap, Hx.
Qed.

Lemma copy_of_new a c l :
  copy_of st.2 a c → c = VRef l → (length h0 ≤ l < length st.1)%nat.
Proof.
  destruct a; simpl; [by intros -> |].
  intros (l' & Hl' & ->) [= ->]. destruct (inv_memo _ _ Hinv _ _ Hl'). lia.
Qed.

(** What a finished copy holds is an atom or another copy. *)
Lemma copy_children ly o' :
  (length h0 ≤ ly)%nat → st.1 !! ly = Some o' →
  obj_ok (length st.1) o' = true ∧
  ∀ x l, x ∈ children o' → x = VRef l → (length h0 ≤ l)%nat.
Proof.
  intros Hly Ho'.
  destruct (inv_new _ _ Hinv ly) as [lx Hlx].
  { split; [done |]. by eapply lookup_lt_Some. }
  destruct (copy_done lx ly Hlx) as (o & o2 & Ho & Ho2 & Hc).
  assert (o2 = o') as -> by congruence.
  assert (∀ x l, x ∈ children o' → x = VRef l →
                 (length h0 ≤ l < length st.1)%nat) as Hnew.
  { intros x l Hx ->. destruct o as [items|entries], o' as [cs|cs];
      simpl in Hc, Hx; try done.
    - apply list_elem_of_lookup in Hx as [i Hi].
      destruct (Forall2_lookup_r _ _ _ _ _ Hc Hi) as (a & _ & Ha).
      by eapply copy_of_new.
    - apply list_elem_of_fmap in Hx as ([k c] & Hkc & Hin). simpl in Hkc. subst c.
      apply list_elem_of_lookup in Hin as [i Hi].
      destruct (Forall2_lookup_r _ _ _ _ _ Hc Hi) as (a & _ & _ & Ha).
      by eapply copy_of_new. }
  split; [| intros x l Hx Hl; by destruct (Hnew x l Hx Hl)].
  apply obj_ok_intro.
  - apply Forall_forall. intros [a|l] Hx; simpl; [done |].
    apply bool_decide_eq_true. by destruct (Hnew (VRef l) l Hx eq_refl).
  - intros cs ->. destruct o as [items|entries]; simpl in Hc; [done |].
    eapply dict_ok_keys;
      [| exact (obj_ok_dict _ _ (heap_ok_lookup _ _ _ Hok Ho))].
    apply list_eq_Forall2. rewrite Forall2_fmap.
    eapply Forall2_impl; [exact Hc |]. by intros ? ? [? _].
Qed.

Lemma copied_heap_ok : heap_ok st.1 = true.
Proof.
  apply heap_ok_intro. intros l o Ho.
  destruct (decide (l < length h0)%nat) as [Hl|Hl].
  - rewrite (inv_old _ _ Hinv l Hl) in Ho.
    eapply obj_ok_mono; [apply (inv_length _ _ Hinv) |].
    by eapply heap_ok_lookup.
  - apply (copy_children l o); [lia | done].
Qed.

Lemma copied_reachable v l :
  reachable st.1 v l → (∀ l0, v = VRef l0 → (length h0 ≤ l0)%nat) →
  (length h0 ≤ l)%nat.
Proof.
  induction 1 as [l|l o x l' Ho Hx _ IH]; intros Hv; [by apply Hv |].
  apply IH. intros l0 ->.
  destruct (copy_children l o (Hv l eq_refl) Ho) as [_ Hnew]. by eapply Hnew.
Qed.
End Copied.

Lemma copy_inv_start h : copy_inv h (h, []).
Proof. split; simpl; try done. intros ly ?. lia. Qed.

Lemma free_count_start n : (free_count n [] ≤ n)%nat.
Proof.
  unfold free_count. etrans; [apply length_filter |]. by rewrite length_seq.
Qed.

(** [copy.deepcopy(x)] answers with a value deep-equal to [x], made of new
    objects only; it leaves every object that existed as it was. *)
Theorem copy_deepcopy_spec w x :
  heap_ok (heap_of w) = true → val_ok (length (heap_of w)) x = true →
  ∃ y h', copy_deepcopy x w = (Ok y, set_heap h' w) ∧
          extends (heap_of w) h' ∧ heap_ok h' = true ∧
          val_ok (length h') y = true ∧
          deep_equal h' y (heap_of w) x ∧
          (∀ l, reachable h' y l → (length (heap_of w) ≤ l)%nat).
Proof.
  intros Hok Hx. set (h := heap_of w).
  destruct (deepcopy_total h Hok (length h) x (h, []) (copy_inv_start h) Hx
              (free_count_start _)) as [[y st'] E].
  assert (settled h (h, []) (λ _, False)) as Hs0 by (by intros l [? ?]).
  destruct (deepcopy_spec h Hok (length h) x (h, []) y st' _
              (copy_inv_start h) Hx Hs0 E) as (Hpost & Hc & Hs).
  pose proof (post_inv _ _ _ Hpost) as Hinv.
  exists y, st'.1. unfold copy_deepcopy. fold h. rewrite E.
  split; [done |]. split; [| split; [| split; [| split]]].
  - split; [apply (post_length _ _ _ Hpost) | apply (post_frame _ _ _ Hpost)].
  - by eapply copied_heap_ok.
  - destruct x as [a|lx]; simpl in Hc.
    + by subst.
    + destruct Hc as (l' & Hl' & ->). simpl. apply bool_decide_eq_true.
      destruct (inv_memo _ _ Hinv _ _ Hl'). lia.
  - intros d. by eapply unfold_copy.
  - intros l Hl. eapply copied_reachable; eauto.
    intros l0 ->. by destruct (copy_of_new h st' Hinv x (VRef l0) l0 Hc eq_refl).
Qed.

(** ** The start-up check *)

Lemma settings_kvs_type_eq w m t :
  assoc "kvs" (settings w) = Some (JObj m) → assoc "type" m = Some t →
  settings_kvs_type w = (Ok t, w).
Proof.
  intros Hk Ht.
  unfold settings_kvs_type, settings_item, bind, get_world, lift, subscript.
  by rewrite Hk, Ht.
Qed.

Lemma supported_types_eq : supported_types = "['stub', 'redis_ephemeral', 'redis']".
Proof. reflexivity. Qed.

Lemma unrecognized_type t :
  t ≠ "stub" → t ≠ "redis_ephemeral" → t ≠ "redis" → assoc t KVS_MAP = None.
Proof.
  intros H1 H2 H3. unfold KVS_MAP. simpl.
  repeat (case_bool_decide; [congruence |]). done.
Qed.

(** C3: on a configuration without a [kvs] section the check fails with the
    configuration error that tells to set [kvs.type]; on an unrecognized
    [kvs.type] it fails with the error that lists [stub], [redis_ephemeral]
    and [redis]; on [kvs.type = "stub"] it returns [True] and binds [KVS] to
    the in-memory class. *)
Theorem kvs_startup_check_cases (w : world) :
  (assoc "kvs" (settings w) = None →
   kvs_startup_check w =
     (Raise (StartupCheck
        ("No KVS configured. Please set kvs.type in settings.py" +:+ nl +:+
         "Look at example settings file to see what's available.")), w)) ∧
  (∀ m t, assoc "kvs" (settings w) = Some (JObj m) →
          assoc "type" m = Some (JStr t) →
          t ≠ "stub" → t ≠ "redis_ephemeral" → t ≠ "redis" →
   kvs_startup_check w =
     (Raise (StartupCheck
        ("Unknown KVS type: " +:+ t +:+ nl +:+
         "Look at example settings file to see what's available. " +:+ nl +:+
         "Suppported types: ['stub', 'redis_ephemeral', 'redis']")), w)) ∧
  (∀ m, assoc "kvs" (settings w) = Some (JObj m) →
        assoc "type" m = Some (JStr "stub") →
   kvs_startup_check w = (Ok true, set_KVS (Some InMemoryKVS_class) w)).
Proof.
  split; [| split].
  - intros Hk.
    unfold kvs_startup_check, bind, try_except_KeyError, settings_kvs_type,
      settings_item, bind, get_world, lift, subscript, raise.
    by rewrite Hk, bool_decide_eq_true_2.
  - intros m t Hk Ht H1 H2 H3.
    pose proof (unrecognized_type t H1 H2 H3) as Hnone.
    unfold kvs_startup_check, bind, try_except_KeyError.
    rewrite (settings_kvs_type_eq w m _ Hk Ht).
    unfold lift, KVS_MAP_item, get_world. rewrite Hnone.
    rewrite bool_decide_eq_false_2 by congruence.
    rewrite (settings_kvs_type_eq w m _ Hk Ht).
    unfold not_in_KVS_MAP. rewrite bool_decide_eq_true_2 by done.
    by rewrite (settings_kvs_type_eq w m _ Hk Ht).
  - intros m Hk Ht.
    unfold kvs_startup_check, bind, try_except_KeyError.
    by rewrite (settings_kvs_type_eq w m _ Hk Ht).
Qed.

Lemma kvs_startup_check_cases_witness :
  (∃ msg, kvs_startup_check (initial_world []) =
          (Raise (StartupCheck msg), initial_world [])) ∧
  (∃ msg, kvs_startup_check (initial_world [("kvs", JObj [("type", JStr "bogus")])]) =
          (Raise (StartupCheck msg),
           initial_world [("kvs", JObj [("type", JStr "bogus")])])) ∧
  kvs_startup_check (initial_world [("kvs", JObj [("type", JStr "stub")])]) =
    (Ok true,
     set_KVS (Some InMemoryKVS_class)
       (initial_world [("kvs", JObj [("type", JStr "stub")])])).
Proof.
  split; [| split].
  - eexists.
    apply (proj1 (kvs_startup_check_cases (initial_world []))). reflexivity.
  - eexists.
    apply (proj1 (proj2 (kvs_startup_check_cases
                           (initial_world [("kvs", JObj [("type", JStr "bogus")])])))
             [("type", JStr "bogus")] "bogus");
      [reflexivity | reflexivity | discriminate | discriminate | discriminate].
  - apply (proj2 (proj2 (kvs_startup_check_cases
                           (initial_world [("kvs", JObj [("type", JStr "stub")])])))
             [("type", JStr "stub")]); reflexivity.
Defined.

(** C4, at the input where the code departs from it: with a [kvs] section
    that has no [type], the second lookup of [settings['kvs']['type']], in
    the handler, raises [KeyError('type')] again; that error leaves the
    check, and [StartupCheck] is not raised. *)
Theorem kvs_startup_check_missing_type (w : world) m :
  assoc "kvs" (settings w) = Some (JObj m) → assoc "type" m = None →
  kvs_startup_check w = (Raise (KeyError (JStr "type")), w).
Proof.
  intros Hk Ht.
  unfold kvs_startup_check, bind, try_except_KeyError, settings_kvs_type,
    settings_item, bind, get_world, lift, subscript, raise.
  rewrite Hk, Ht. rewrite bool_decide_eq_false_2 by congruence. by rewrite Hk, Ht.
Qed.

Lemma kvs_startup_check_missing_type_witness :
  kvs_startup_check (initial_world [("kvs", JObj [])]) =
    (Raise (KeyError (JStr "type")), initial_world [("kvs", JObj [])]).
Proof.
  apply (kvs_startup_check_missing_type (initial_world [("kvs", JObj [])]) []);
    reflexivity.
Defined.

(** C10: with [kvs.type = "redis_ephemeral"] and no [kvs.expiry] the check
    returns [True] and binds [KVS] to the ephemeral class; constructing an
    [EphemeralRedisKVS] afterwards raises [KeyError('expiry')]. *)
Theorem kvs_startup_check_ignores_expiry (w : world) m :
  assoc "kvs" (settings w) = Some (JObj m) →
  assoc "type" m = Some (JStr "redis_ephemeral") →
  assoc "expiry" m = None →
  kvs_startup_check w = (Ok true, set_KVS (Some EphemeralRedisKVS_class) w) ∧
  ∀ w', settings w' = settings w →
        EphemeralRedisKVS w' = (Raise (KeyError (JStr "expiry")), w').
Proof.
  intros Hk Ht He. split.
  - unfold kvs_startup_check, bind, try_except_KeyError.
    by rewrite (settings_kvs_type_eq w m _ Hk Ht).
  - intros w' Hw'.
    unfold EphemeralRedisKVS, settings_item, bind, get_world, lift, subscript.
    by rewrite Hw', Hk, He.
Qed.

Lemma kvs_startup_check_ignores_expiry_witness :
  let w := initial_world [("kvs", JObj [("type", JStr "redis_ephemeral")])] in
  kvs_startup_check w = (Ok true, set_KVS (Some EphemeralRedisKVS_class) w) ∧
  EphemeralRedisKVS (set_KVS (Some EphemeralRedisKVS_class) w) =
    (Raise (KeyError (JStr "expiry")), set_KVS (Some EphemeralRedisKVS_class) w).
Proof.
  intros w.
  destruct (kvs_startup_check_ignores_expiry w [("type", JStr "redis_ephemeral")])
    as [H1 H2]; [reflexivity | reflexivity | reflexivity |].
  split; [exact H1 | apply H2; reflexivity].
Defined.

(** ** Single calls on the backends *)

(** Unfolds the plumbing of [M]. *)
Ltac mrun :=
  repeat (progress (unfold bind, ret, raise, stuck, lift, get_world, read,
                      write, alloc, py_assert, dumps, round_trip,
                      redis_connection; simpl)).

Lemma set_heap_id w : set_heap (heap_of w) w = w.
Proof. by destruct w. Qed.

Lemma store_entries_Some w es :
  store_entries w = Some es ↔ heap_of w !! OBJECT_STORE w = Some (ODict es).
Proof.
  unfold store_entries. destruct (heap_of w !! OBJECT_STORE w) as [[|]|];
    split; congruence.
Qed.

Lemma copy_deepcopy_atom a w : copy_deepcopy (VAtom a) w = (Ok (VAtom a), w).
Proof.
  unfold copy_deepcopy. destruct (length (heap_of w)); simpl; by rewrite set_heap_id.
Qed.

Lemma InMemoryKVS_getitem_eq self k w es :
  store_entries w = Some es →
  InMemoryKVS_getitem self (VAtom k) w =
    copy_deepcopy (default py_None (dict_get k es)) w.
Proof.
  intros Hes%store_entries_Some.
  unfold InMemoryKVS_getitem, bind, get_world, dict_lookup, bind, read, ret.
  by rewrite Hes.
Qed.

Lemma InMemoryKVS_set_raise self key value w e :
  json_dumps (heap_of w) value = Raise e →
  InMemoryKVS_set self key value w = (Raise e, w).
Proof.
  intros He. unfold InMemoryKVS_set, bind, dumps. by rewrite He.
Qed.

Lemma InMemoryKVS_set_key self key value w doc :
  json_dumps (heap_of w) value = Ok doc → is_str key = false →
  InMemoryKVS_set self key value w =
    (Raise (AssertionError "KVS keys must be strings"), w).
Proof.
  intros Hd Hk. unfold InMemoryKVS_set, bind, dumps, py_assert.
  by rewrite Hd, Hk.
Qed.

Lemma InMemoryKVS_set_ok self k value w doc es :
  json_dumps (heap_of w) value = Ok doc → store_entries w = Some es →
  InMemoryKVS_set self (py_str k) value w =
    (Ok tt, set_heap (<[OBJECT_STORE w := ODict (dict_set (AStr k) value es)]>
                        (heap_of w)) w).
Proof.
  intros Hd Hes%store_entries_Some.
  unfold InMemoryKVS_set, bind, dumps, py_assert, get_world, dict_store, bind,
    read, write, ret.
  rewrite Hd. simpl. by rewrite Hes.
Qed.

Lemma redis_connect_eq w :
  net w = [] → redis_connect w = (Ok tt, set_redis_connected true w).
Proof.
  intros Hnet. unfold redis_connect, bind, get_world, round_trip, ret.
  destruct (redis_connected w) eqn:E.
  - destruct w; simpl in *; by subst.
  - by rewrite Hnet.
Qed.

Lemma RedisKVS_set_raise self key value w e :
  net w = [] → json_dumps (heap_of w) value = Raise e →
  RedisKVS_set self key value w = (Raise e, set_redis_connected true w).
Proof.
  intros Hnet He. unfold RedisKVS_set, RedisKVS_connect, bind.
  rewrite (redis_connect_eq w Hnet). unfold dumps. simpl. by rewrite He.
Qed.

Lemma RedisKVS_set_key self key value w doc :
  net w = [] → json_dumps (heap_of w) value = Ok doc → is_str key = false →
  RedisKVS_set self key value w =
    (Raise (AssertionError "KVS keys must be strings"),
     set_redis_connected true w).
Proof.
  intros Hnet Hd Hk. unfold RedisKVS_set, RedisKVS_connect, bind.
  rewrite (redis_connect_eq w Hnet). unfold dumps, py_assert. simpl.
  by rewrite Hd, Hk.
Qed.

Lemma RedisKVS_set_ok self k value w doc :
  net w = [] → json_dumps (heap_of w) value = Ok doc →
  RedisKVS_set self (py_str k) value w =
    (Ok tt,
     set_redis_db (<[k := RedisEntry (JsonText doc) (expire self)]> (redis_db w))
       (set_redis_connected true w)).
Proof.
  intros Hnet Hd.
  unfold RedisKVS_set, RedisKVS_connect, bind.
  rewrite (redis_connect_eq w Hnet).
  unfold dumps, py_assert, redis_connection, ret, connection_set, bind, round_trip.
  simpl. by rewrite Hd, Hnet.
Qed.

Lemma RedisKVS_getitem_eq self k w :
  net w = [] →
  RedisKVS_getitem self (py_str k) w =
    match redis_db w !! k with
    | Some e => json_loads (payload e) (set_redis_connected true w)
    | None => (Ok py_None, set_redis_connected true w)
    end.
Proof.
  intros Hnet. unfold RedisKVS_getitem, RedisKVS_connect, bind.
  rewrite (redis_connect_eq w Hnet).
  unfold connection_get. mrun. rewrite Hnet. mrun.
  by destruct (redis_db w !! k).
Qed.

(** A failed [set] on the remote backend writes nothing, whatever made it
    fail. *)
Lemma RedisKVS_set_failed self key value w e w' :
  RedisKVS_set self key value w = (Raise e, w') →
  redis_db w' = redis_db w ∧ heap_of w' = heap_of w.
Proof.
  unfold RedisKVS_set, RedisKVS_connect, redis_connect, connection_set. mrun.
  destruct (redis_connected w) eqn:Ec; mrun.
  - destruct (json_dumps (heap_of w) value) eqn:Ed; mrun;
      [| by intros [= <- <-] | done].
    destruct (is_str key) eqn:Ek; mrun; [| by intros [= <- <-]].
    destruct key as [[]|]; simpl in Ek; try done. rewrite Ed. mrun.
    destruct (net w) as [|[] ?]; mrun; [done | done | by intros [= <- <-]].
  - destruct (net w) as [|[] rest] eqn:En; mrun; [| | by intros [= <- <-]].
    + destruct (json_dumps (heap_of w) value) eqn:Ed; mrun;
        [| by intros [= <- <-] | done].
      destruct (is_str key) eqn:Ek; mrun; [| by intros [= <- <-]].
      destruct key as [[]|]; simpl in Ek; try done. rewrite Ed. mrun.
      by rewrite En.
    + destruct (json_dumps (heap_of w) value) eqn:Ed; mrun;
        [| by intros [= <- <-] | done].
      destruct (is_str key) eqn:Ek; mrun; [| by intros [= <- <-]].
      destruct key as [[]|]; simpl in Ek; try done. rewrite Ed. mrun.
      destruct rest as [|[] ?]; mrun; [done | done | by intros [= <- <-]].
Qed.

(** ** Rejected writes *)

(** C2 as stated does not hold: it has the key validated first, so that a
    key that is not a string is answered with the key error whatever the
    value. [set(5, b"x")] is answered with the encoder's error instead, on
    both backends. *)
Lemma set_validates_key_first_fails :
  InMemoryKVS_set {| instance_id := 0 |} (py_int 5) (VAtom (ABytes "x"))
      (initial_world []) =
    (Raise (TypeError "Object of type bytes is not JSON serializable"),
     initial_world []) ∧
  RedisKVS_set {| expire := JNull |} (py_int 5) (VAtom (ABytes "x"))
      (initial_world []) =
    (Raise (TypeError "Object of type bytes is not JSON serializable"),
     set_redis_connected true (initial_world [])) ∧
  ¬ (∀ (self : InMemoryKVS) key value w,
       is_str key = false →
       ∃ msg, InMemoryKVS_set self key value w = (Raise (AssertionError msg), w)) ∧
  ¬ (∀ (self : RedisKVS) key value w,
       is_str key = false →
       ∃ msg w', RedisKVS_set self key value w = (Raise (AssertionError msg), w')).
Proof.
  split; [reflexivity |]. split; [reflexivity |]. split.
  - intros H.
    destruct (H {| instance_id := 0 |} (py_int 5) (VAtom (ABytes "x"))
                (initial_world []) eq_refl) as [msg Hmsg].
    discriminate Hmsg.
  - intros H.
    destruct (H {| expire := JNull |} (py_int 5) (VAtom (ABytes "x"))
                (initial_world []) eq_refl) as (msg & w' & Hmsg).
    discriminate Hmsg.
Qed.

(** C2, amended: [set] runs [json.dumps(value)] first and raises the
    encoder's error when that fails, whatever the key; when the value
    serializes and the key is not a string, it raises
    [AssertionError("KVS keys must be strings")]. In both cases nothing is
    written: the world of the in-memory backend is as before, and the
    remote store holds what it held (the connection has been opened). *)
Theorem set_rejects_without_writing key value w :
  (∀ e, json_dumps (heap_of w) value = Raise e →
     (∀ self : InMemoryKVS, InMemoryKVS_set self key value w = (Raise e, w)) ∧
     (∀ self : RedisKVS, net w = [] →
        RedisKVS_set self key value w = (Raise e, set_redis_connected true w))) ∧
  (∀ doc, json_dumps (heap_of w) value = Ok doc → is_str key = false →
     (∀ self : InMemoryKVS,
        InMemoryKVS_set self key value w =
          (Raise (AssertionError "KVS keys must be strings"), w)) ∧
     (∀ self : RedisKVS, net w = [] →
        RedisKVS_set self key value w =
          (Raise (AssertionError "KVS keys must be strings"),
           set_redis_connected true w))) ∧
  (∀ (self : RedisKVS) e w',
     RedisKVS_set self key value w = (Raise e, w') →
     redis_db w' = redis_db w ∧ heap_of w' = heap_of w).
Proof.
  split; [| split].
  - intros e He. split; intros self.
    + by apply InMemoryKVS_set_raise.
    + intros Hnet. by apply RedisKVS_set_raise.
  - intros doc Hd Hk. split; intros self.
    + by eapply InMemoryKVS_set_key.
    + intros Hnet. by eapply RedisKVS_set_key.
  - intros self e w'. apply RedisKVS_set_failed.
Qed.

Lemma set_rejects_without_writing_witness :
  let w := initial_world [] in
  InMemoryKVS_set {| instance_id := 0 |} (py_int 5) (VAtom (ABytes "x")) w =
    (Raise (TypeError "Object of type bytes is not JSON serializable"), w) ∧
  RedisKVS_set {| expire := JNull |} (py_str "k") (VAtom (ABytes "x")) w =
    (Raise (TypeError "Object of type bytes is not JSON serializable"),
     set_redis_connected true w) ∧
  InMemoryKVS_set {| instance_id := 0 |} (py_int 5) (py_int 1) w =
    (Raise (AssertionError "KVS keys must be strings"), w) ∧
  RedisKVS_set {| expire := JNull |} (py_int 5) (py_int 1) w =
    (Raise (AssertionError "KVS keys must be strings"),
     set_redis_connected true w).
Proof.
  intros w.
  destruct (set_rejects_without_writing (py_int 5) (VAtom (ABytes "x")) w)
    as (H1 & _ & _).
  destruct (set_rejects_without_writing (py_str "k") (VAtom (ABytes "x")) w)
    as (H2 & _ & _).
  destruct (set_rejects_without_writing (py_int 5) (py_int 1) w)
    as (_ & H3 & _).
  split; [apply (H1 _ eq_refl) |].
  split; [apply (H2 _ eq_refl); reflexivity |].
  split; [apply (H3 _ eq_refl eq_refl) |].
  apply (H3 _ eq_refl eq_refl); reflexivity.
Defined.

(** ** Reading a key that is not there *)

(** C6: [self[k]] for a key [k] under which nothing is stored returns
    [None] and raises nothing, on the in-memory backend and, when the
    remote store has nothing under [k], on the Redis backend. *)
Theorem getitem_missing_key k w :
  (∀ self : InMemoryKVS,
     is_Some (store_entries w) → store_lookup w (AStr k) = None →
     InMemoryKVS_getitem self (py_str k) w = (Ok py_None, w)) ∧
  (∀ self : RedisKVS,
     net w = [] → redis_db w !! k = None →
     RedisKVS_getitem self (py_str k) w =
       (Ok py_None, set_redis_connected true w)).
Proof.
  split; intros self.
  - intros [es Hes] Hk. unfold store_lookup in Hk. rewrite Hes in Hk. simpl in Hk.
    unfold py_str. rewrite (InMemoryKVS_getitem_eq self _ w es Hes), Hk. simpl.
    apply copy_deepcopy_atom.
  - intros Hnet Hk. by rewrite (RedisKVS_getitem_eq self k w Hnet), Hk.
Qed.

Lemma getitem_missing_key_witness :
  let w := initial_world [] in
  InMemoryKVS_getitem {| instance_id := 1 |} (py_str "hi") w = (Ok py_None, w) ∧
  RedisKVS_getitem {| expire := JNum 1 |} (py_str "hi") w =
    (Ok py_None, set_redis_connected true w).
Proof.
  intros w. destruct (getitem_missing_key "hi" w) as [H1 H2]. split.
  - apply H1; [by eexists | reflexivity].
  - apply H2; reflexivity.
Defined.

(** ** Documents and the values that denote them *)

Lemma member_of_Some f kv m :
  member_of f kv = Some m ↔ ∃ s j, kv.1 = AStr s ∧ f kv.2 = Some j ∧ m = (s, j).
Proof.
  unfold member_of. destruct kv as [[] v]; simpl;
    try (split; [done | by intros (? & ? & ? & _)]).
  destruct (f v) as [j|]; simpl.
  - split; [intros [= <-]; eauto | intros (? & ? & [= <-] & [= <-] & ->); done].
  - split; [done | by intros (? & ? & _ & ? & _)].
Qed.

Lemma snapshot_ref d h l doc :
  snapshot (S d) h (VRef l) = Some doc ↔
  (∃ items docs, h !! l = Some (OList items) ∧
     Forall2 (λ x j, snapshot d h x = Some j) items docs ∧ doc = JArr docs) ∨
  (∃ entries ms, h !! l = Some (ODict entries) ∧
     Forall2 (λ kv m, member_of (snapshot d h) kv = Some m) entries ms ∧
     NoDup ms.*1 ∧ doc = JObj ms).
Proof.
  simpl. destruct (h !! l) as [[items|entries]|]; simpl.
  - destruct (mapM _ items) as [docs|] eqn:E; simpl.
    + apply mapM_Some in E. split.
      * intros [= <-]. left. eauto.
      * intros [(? & docs' & [= <-] & H & ->)|(? & ? & ? & _)]; [| done].
        apply mapM_Some in E, H. congruence.
    + split; [done |].
      intros [(? & docs' & [= <-] & H & ->)|(? & ? & ? & _)]; [| done].
      apply mapM_Some in H. congruence.
  - destruct (mapM _ entries) as [ms|] eqn:E; simpl.
    + apply mapM_Some in E. case_bool_decide as Hnd; split.
      * intros [= <-]. right. eauto 6.
      * intros [(? & ? & ? & _)|(? & ms' & [= <-] & H & _ & ->)]; [done |].
        apply mapM_Some in E, H. congruence.
      * done.
      * intros [(? & ? & ? & _)|(? & ms' & [= <-] & H & Hnd' & ->)]; [done |].
        apply mapM_Some in E, H. congruence.
    + split; [done |].
      intros [(? & ? & ? & _)|(? & ms' & [= <-] & H & _)]; [done |].
      apply mapM_Some in H. congruence.
  - split; [done |]. by intros [(? & ? & ? & _)|(? & ? & ? & _)].
Qed.

Lemma snapshot_zero h l : snapshot 0 h (VRef l) = None.
Proof. reflexivity. Qed.

(** A snapshot depends on the objects of the value only. *)
Lemma snapshot_transfer h h' d : ∀ v doc,
  (∀ l o, reachable h v l → h !! l = Some o → h' !! l = Some o) →
  snapshot d h v = Some doc → snapshot d h' v = Some doc.
Proof.
  induction d as [|d IH]; intros [a|l] doc Hfr; try done.
  rewrite !snapshot_ref.
  intros [(items & docs & Hl & Hall & ->)|(entries & ms & Hl & Hall & Hnd & ->)].
  - left. exists items, docs. split; [apply Hfr; [constructor | done] |].
    split; [| done].
    apply Forall2_same_length_lookup. split; [by eapply Forall2_length |].
    intros i x j Hx Hj. apply IH.
    + intros l' o' Hr. apply Hfr. eapply reach_step; eauto.
      simpl. eapply list_elem_of_lookup_2; eauto.
    + by eapply Forall2_lookup_lr in Hall.
  - right. exists entries, ms. split; [apply Hfr; [constructor | done] |].
    split; [| done].
    apply Forall2_same_length_lookup. split; [by eapply Forall2_length |].
    intros i kv m Hkv Hm.
    pose proof (Forall2_lookup_lr _ _ _ _ _ _ Hall Hkv Hm) as H.
    apply member_of_Some in H as (s & j & Hs & Hj & ->).
    apply member_of_Some. exists s, j. split; [done |]. split; [| done].
    apply IH; [| done].
    intros l' o' Hr. apply Hfr. eapply reach_step; eauto.
    simpl. apply list_elem_of_fmap. exists kv. split; [done |].
    eapply list_elem_of_lookup_2; eauto.
Qed.

Lemma snapshot_extends h h' d v doc :
  extends h h' → snapshot d h v = Some doc → snapshot d h' v = Some doc.
Proof.
  intros [_ Hfr]. apply snapshot_transfer. intros l o _ Hl.
  rewrite Hfr; [done |]. by eapply lookup_lt_Some.
Qed.

Lemma snapshot_mono h d : ∀ d' v doc,
  (d ≤ d')%nat → snapshot d h v = Some doc → snapshot d' h v = Some doc.
Proof.
  induction d as [|d IH]; intros d' [a|l] doc Hd; try done.
  - by destruct d'.
  - by destruct d'.
  - destruct d' as [|d']; [lia |]. rewrite !snapshot_ref.
    intros [(items & docs & Hl & Hall & ->)|(entries & ms & Hl & Hall & Hnd & ->)].
    + left. exists items, docs. split; [done |]. split; [| done].
      eapply Forall2_impl; [exact Hall |]. intros x j. apply IH. lia.
    + right. exists entries, ms. split; [done |]. split; [| done].
      eapply Forall2_impl; [exact Hall |]. intros kv m.
      rewrite !member_of_Some. intros (s & j & ? & ? & ->).
      exists s, j. split; [done |]. split; [| done]. apply IH; [lia | done].
Qed.

Lemma snapshot_json_ok h d : ∀ v doc, snapshot d h v = Some doc → json_ok doc.
Proof.
  induction d as [|d IH]; intros [a|l] doc.
  - destruct a; simpl; intros [= <-]; constructor.
  - done.
  - destruct a; simpl; intros [= <-]; constructor.
  - rewrite snapshot_ref.
    intros [(items & docs & Hl & Hall & ->)|(entries & ms & Hl & Hall & Hnd & ->)].
    + constructor. apply Forall_forall. intros j Hj.
      apply list_elem_of_lookup in Hj as [i Hi].
      destruct (Forall2_lookup_r _ _ _ _ _ Hall Hi) as (x & _ & Hx). eauto.
    + constructor; [done |]. apply Forall_forall. intros m Hm.
      apply list_elem_of_lookup in Hm as [i Hi].
      destruct (Forall2_lookup_r _ _ _ _ _ Hall Hi) as (kv & _ & Hkv).
      apply member_of_Some in Hkv as (s & j & _ & Hj & ->). simpl. eauto.
Qed.

Lemma atom_json_inj a b j : atom_json a = Some j → atom_json b = Some j → a = b.
Proof. destruct a, b; simpl; congruence. Qed.

Lemma Forall2_common_map {A B C D} (P : A → C → Prop) (Q : B → C → Prop)
    (f : A → D) (g : B → D) xs ys zs :
  Forall2 P xs zs → Forall2 Q ys zs →
  (∀ x y z, P x z → Q y z → f x = g y) → map f xs = map g ys.
Proof.
  intros HP. revert ys. induction HP as [|x z xs zs Hx _ IH]; intros ys HQ Hfg.
  - by inversion HQ.
  - inversion HQ as [|y ? ys' ? Hy Hys]; subst. simpl. f_equal; eauto.
Qed.

Lemma snapshot_atom d h a : snapshot d h (VAtom a) = atom_json a.
Proof. by destruct d. Qed.

Lemma snapshot_atom_ref d1 d2 h1 h2 a l doc :
  snapshot d1 h1 (VAtom a) = Some doc → snapshot d2 h2 (VRef l) = Some doc → False.
Proof.
  rewrite snapshot_atom. destruct d2; [done |]. rewrite snapshot_ref.
  intros Ha [(? & ? & _ & _ & ->)|(? & ? & _ & _ & _ & ->)]; by destruct a.
Qed.

(** Two values that denote the same document are deep-equal. *)
Theorem snapshot_deep_equal h1 h2 d1 d2 v1 v2 doc :
  snapshot d1 h1 v1 = Some doc → snapshot d2 h2 v2 = Some doc →
  deep_equal h1 v1 h2 v2.
Proof.
  intros H1 H2 d. revert d1 d2 v1 v2 doc H1 H2.
  induction d as [|d IH]; intros d1 d2 [a1|l1] [a2|l2] doc H1 H2;
    try (exfalso; by eapply snapshot_atom_ref);
    try (rewrite snapshot_atom in H1, H2; simpl; f_equal; by eapply atom_json_inj);
    [done |].
  destruct d1; [done |]. destruct d2; [done |].
  apply snapshot_ref in H1, H2. simpl.
  destruct H1 as [(xs & docs & Hl1 & Hall1 & ->)|(es1 & ms & Hl1 & Hall1 & _ & ->)];
    destruct H2 as [(ys & docs' & Hl2 & Hall2 & [= <-])
                   |(es2 & ms' & Hl2 & Hall2 & _ & [= <-])];
    rewrite Hl1, Hl2; f_equal.
  - eapply Forall2_common_map; [exact Hall1 | exact Hall2 |].
    intros x y j Hx Hy. exact (IH _ _ _ _ _ Hx Hy).
  - eapply Forall2_common_map; [exact Hall1 | exact Hall2 |].
    intros x y m. rewrite !member_of_Some.
    intros (s & j & Hs & Hj & ->) (s' & j' & Hs' & Hj' & [= <- <-]).
    rewrite Hs, Hs'. f_equal. exact (IH _ _ _ _ _ Hj Hj').
Qed.

(** ** [json.dumps] on JSON values *)

Lemma mapM_out_Ok {A B} (f : A → outcome B) l k :
  Forall2 (λ x y, f x = Ok y) l k → mapM_out f l = Ok k.
Proof. induction 1 as [|x y l k Hx _ IH]; simpl; [done |]. by rewrite Hx, IH. Qed.

Lemma snapshot_None_mono h d d' v :
  (d ≤ d')%nat → snapshot d' h v = None → snapshot d h v = None.
Proof.
  intros Hd Hnone. destruct (snapshot d h v) eqn:E; [| done].
  apply (snapshot_mono h d d') in E; [congruence | done].
Qed.

Lemma encode_atom fuel h markers a doc :
  atom_json a = Some doc → encode fuel h markers (VAtom a) = Ok doc.
Proof. destruct fuel, a; simpl; congruence. Qed.

(** The encoder writes the document a JSON value denotes: it meets no
    circular reference and does not run out of fuel. *)
Lemma snapshot_encode h d : ∀ v doc markers fuel,
  snapshot d h v = Some doc →
  (∀ l, l ∈ markers → snapshot d h (VRef l) = None) →
  (d ≤ fuel)%nat → encode fuel h markers v = Ok doc.
Proof.
  induction d as [|d IH]; intros [a|l] doc markers fuel Hs Hm Hf;
    try (rewrite snapshot_atom in Hs; by apply encode_atom); [done |].
  assert (∀ l', l' ∈ markers → snapshot d h (VRef l') = None) as Hm'.
  { intros l' Hl'. eapply snapshot_None_mono; [| by apply Hm]. lia. }
  destruct (snapshot d h (VRef l)) as [doc'|] eqn:Eprev.
  { pose proof (snapshot_mono h d (S d) _ _ (Nat.le_succ_diag_r d) Eprev) as E.
    assert (doc' = doc) as -> by congruence.
    apply IH; [done | done | lia]. }
  assert (l ∉ markers) as Hnot.
  { intros Hin. apply Hm in Hin. congruence. }
  assert (∀ l', l' ∈ l :: markers → snapshot d h (VRef l') = None) as Hm''.
  { intros l' [-> |Hl']%elem_of_cons; [done | by apply Hm']. }
  destruct fuel as [|n]; [lia |]. simpl.
  rewrite bool_decide_eq_false_2 by done.
  apply snapshot_ref in Hs
    as [(items & docs & Hl & Hall & ->)|(entries & ms & Hl & Hall & Hnd & ->)];
    rewrite Hl; unfold omap.
  - rewrite (mapM_out_Ok _ items docs); [done |].
    eapply Forall2_impl; [exact Hall |]. intros x j Hx. apply IH; [done | done | lia].
  - rewrite (mapM_out_Ok _ entries ms); [done |].
    eapply Forall2_impl; [exact Hall |]. intros kv m.
    rewrite member_of_Some. intros (s & j & Hk & Hj & ->).
    rewrite Hk. simpl. rewrite (IH _ _ _ n Hj Hm''); [done | lia].
Qed.

Lemma is_json_snapshot h v :
  is_json h v = true ↔ ∃ doc, snapshot (length h) h v = Some doc.
Proof. unfold is_json. by rewrite bool_decide_eq_true. Qed.

Lemma snapshot_dumps h d v doc :
  (d ≤ length h)%nat → snapshot d h v = Some doc → json_dumps h v = Ok doc.
Proof.
  intros Hd Hs. unfold json_dumps.
  apply (snapshot_encode h d); [done | | done]. intros l Hl. by inversion Hl.
Qed.

Lemma is_json_dumps h v :
  is_json h v = true →
  ∃ doc, snapshot (length h) h v = Some doc ∧ json_dumps h v = Ok doc.
Proof.
  intros [doc Hdoc]%is_json_snapshot. exists doc. split; [done |].
  by eapply snapshot_dumps.
Qed.

Lemma snapshot_val_ok h d v doc :
  snapshot d h v = Some doc → val_ok (length h) v = true.
Proof.
  destruct v as [a|l]; [done |]. destruct d; [done |].
  intros [(? & ? & Hl & _)|(? & ? & Hl & _)]%snapshot_ref;
    simpl; apply bool_decide_eq_true; by eapply lookup_lt_Some.
Qed.

(** ** [json.loads] *)

Lemma dict_set_Forall (R : atom * val → Prop) k v d :
  (∀ k' v', R (k', v') → key_eqb k' k = true → R (k', v)) →
  R (k, v) → Forall R d → Forall R (dict_set k v d).
Proof.
  intros Hrep Hkv. induction 1 as [|[k' v'] d Hx Hd IH]; simpl.
  - by repeat constructor.
  - destruct (key_eqb k' k) eqn:E; constructor; eauto.
Qed.

Lemma dict_of_acc_Forall (P : atom → Prop) (Q : val → Prop) pairs : ∀ acc,
  Forall (λ kv, P kv.1 ∧ Q kv.2) acc → Forall (λ kv, P kv.1 ∧ Q kv.2) pairs →
  Forall (λ kv, P kv.1 ∧ Q kv.2) (foldl (λ d kv, dict_set kv.1 kv.2 d) acc pairs).
Proof.
  induction pairs as [|[k v] pairs IH]; intros acc Hacc Hp; simpl; [done |].
  inversion Hp as [|? ? [Hk Hv] Hrest]; subst. apply IH; [| done].
  apply dict_set_Forall; [| done | done]. simpl. intros k' v' [? ?] _. done.
Qed.

Lemma dict_of_acc_ok pairs : ∀ acc,
  dict_ok acc = true →
  dict_ok (foldl (λ d kv, dict_set kv.1 kv.2 d) acc pairs) = true.
Proof.
  induction pairs as [|[k v] pairs IH]; intros acc Hacc; simpl; [done |].
  by apply IH, dict_ok_set.
Qed.

Lemma dict_of_acc_id pairs : ∀ acc,
  dict_ok (acc ++ pairs) = true →
  foldl (λ d kv, dict_set kv.1 kv.2 d) acc pairs = acc ++ pairs.
Proof.
  induction pairs as [|[k v] pairs IH]; intros acc Hok; simpl.
  - by rewrite app_nil_r.
  - rewrite (dict_set_fresh k v acc) by (by eapply dict_ok_middle).
    rewrite IH; rewrite <- app_assoc; done.
Qed.

Lemma dict_get_str_None s (es : list (atom * val)) ss :
  es.*1 = AStr <$> ss → (dict_get (AStr s) es = None ↔ s ∉ ss).
Proof.
  revert ss. induction es as [|[k v] es IH]; intros [|s' ss]; try done.
  - intros _. split; [intros _ H; inversion H | done].
  - rewrite !fmap_cons. simpl. intros [= -> Hk]. simpl.
    rewrite not_elem_of_cons. case_bool_decide as E.
    + split; [done | intros [? _]; congruence].
    + rewrite (IH _ Hk). split; [intros ?; split; congruence | tauto].
Qed.

Lemma dict_ok_str (es : list (atom * val)) ss :
  es.*1 = AStr <$> ss → (dict_ok es = true ↔ NoDup ss).
Proof.
  revert ss. induction es as [|[k v] es IH]; intros [|s ss]; try done.
  - intros _. split; [constructor | done].
  - rewrite !fmap_cons. simpl. intros [= -> Hk].
    rewrite andb_true_iff, bool_decide_eq_true, NoDup_cons.
    by rewrite (dict_get_str_None s es ss Hk), (IH ss Hk).
Qed.

Lemma reachable_back h h' : ∀ x l,
  reachable h' x l →
  ∀ d doc, snapshot d h x = Some doc → extends h h' → reachable h x l.
Proof.
  induction 1 as [l|l o x l' Ho Hx Hr IH]; intros d doc Hs Hext; [constructor |].
  destruct d; [done |].
  assert (h !! l = Some o) as Ho'.
  { destruct Hext as [_ Hfr].
    apply snapshot_ref in Hs as [(? & ? & Hl & _)|(? & ? & Hl & _)];
      rewrite <- (Hfr l) by (by eapply lookup_lt_Some); done. }
  apply snapshot_ref in Hs
    as [(items & docs & Hl & Hall & ->)|(entries & ms & Hl & Hall & Hnd & ->)];
    rewrite Hl in Ho'; injection Ho' as <-; simpl in Hx.
  - apply list_elem_of_lookup in Hx as [i Hi].
    destruct (Forall2_lookup_l _ _ _ _ _ Hall Hi) as (j & _ & Hj).
    eapply reach_step; [done | by eapply list_elem_of_lookup_2 | by eapply IH].
  - apply list_elem_of_fmap in Hx as (kv & -> & Hkv).
    apply list_elem_of_lookup in Hkv as [i Hi].
    destruct (Forall2_lookup_l _ _ _ _ _ Hall Hi) as (m & _ & Hm).
    apply member_of_Some in Hm as (s & j & _ & Hj & _).
    eapply reach_step; [done | | by eapply IH].
    simpl. apply list_elem_of_fmap. exists kv. split; [done |].
    by eapply list_elem_of_lookup_2.
Qed.

Lemma heap_ok_snoc h o :
  heap_ok h = true → obj_ok (S (length h)) o = true → heap_ok (h ++ [o]) = true.
Proof.
  intros Hh Ho. apply heap_ok_intro. intros l o' Hl.
  rewrite length_app. simpl. rewrite Nat.add_1_r.
  destruct (decide (l < length h)%nat) as [Hlt|Hge].
  - rewrite lookup_app_l in Hl by done.
    eapply obj_ok_mono; [| by eapply heap_ok_lookup]. lia.
  - assert (l = length h) as ->.
    { apply lookup_lt_Some in Hl. rewrite length_app in Hl. simpl in Hl. lia. }
    rewrite lookup_app_r, Nat.sub_diag in Hl by done. simpl in Hl. congruence.
Qed.

Lemma heap_ok_insert h l o :
  heap_ok h = true → obj_ok (length h) o = true → heap_ok (<[l := o]> h) = true.
Proof.
  intros Hh Ho. apply heap_ok_intro. intros l' o' Hl'. rewrite length_insert.
  destruct (decide (l = l')) as [<- |Hne].
  - destruct (decide (l < length h)%nat).
    + rewrite list_lookup_insert_eq in Hl' by done. congruence.
    + rewrite list_insert_ge in Hl' by lia. by eapply heap_ok_lookup.
  - rewrite list_lookup_insert_ne in Hl' by done. by eapply heap_ok_lookup.
Qed.

Lemma decoded_item_later h0 h h' x j :
  (length h0 ≤ length h)%nat → extends h h' →
  decoded_item h0 h x j → decoded_item h0 h' x j.
Proof.
  intros Hlen Hext (V & R & [doc HS] & J).
  pose proof (proj1 Hext).
  split; [eapply val_ok_mono; [| exact V]; lia |]. split; [| split].
  - intros l Hr. assert (reachable h x l) as Hr' by (by eapply reachable_back).
    apply R in Hr'. lia.
  - exists doc. eapply snapshot_extends; [done |].
    eapply snapshot_mono; [| exact HS]. lia.
  - intros Hj. eapply snapshot_extends; [done |].
    eapply snapshot_mono; [| by apply J]. lia.
Qed.

Lemma decode_list_spec items :
  Forall (λ j, ∀ h, decoded j h (decode j h)) items →
  ∀ h, decoded_list items h (decode_list decode items h).
Proof.
  induction 1 as [|j rest Hj _ IH]; intros h.
  - simpl. split; [apply extends_refl |]. split; [done |]. constructor.
  - simpl. specialize (Hj h). destruct (decode j h) as [v h1].
    specialize (IH h1). destruct (decode_list decode rest h1) as [vs h2].
    destruct Hj as (E1 & K1 & V1 & R1 & S1 & J1).
    destruct IH as (E2 & K2 & F2). simpl in *.
    pose proof (proj1 E1). pose proof (proj1 E2).
    split; [by eapply extends_trans |]. split; [by auto |]. simpl.
    constructor.
    + apply (decoded_item_later h h1 h2); [done | done |].
      split; [done |]. split; [done |]. by split.
    + eapply Forall2_impl; [exact F2 |]. intros x j' (V & R & [doc HS] & J).
      split; [done |]. split; [intros l Hl; apply R in Hl; lia |].
      split; [exists doc | intros Hj].
      * eapply snapshot_mono; [| exact HS]. lia.
      * eapply snapshot_mono; [| by apply J]. lia.
Qed.

(** The elements read off one by one. *)
Lemma decoded_list_facts items h vs h1 :
  decoded_list items h (vs, h1) →
  length vs = length items ∧
  Forall (λ v, val_ok (length h1) v = true) vs ∧
  (∀ x l, x ∈ vs → reachable h1 x l → (length h ≤ l < length h1)%nat) ∧
  Forall (λ x, is_Some (snapshot (length h1 - length h) h1 x)) vs ∧
  (Forall json_ok items →
   Forall2 (λ x j, snapshot (length h1 - length h) h1 x = Some j) vs items).
Proof.
  intros (_ & _ & F). simpl in F.
  split; [by eapply Forall2_length |]. split; [| split; [| split]].
  - eapply Forall2_Forall_l; [exact F |]. apply Forall_forall. by intros j _ x (? & _).
  - intros x l [i Hi]%list_elem_of_lookup.
    destruct (Forall2_lookup_l _ _ _ _ _ F Hi) as (j & _ & _ & R & _). apply R.
  - eapply Forall2_Forall_l; [exact F |].
    apply Forall_forall. by intros j _ x (_ & _ & ? & _).
  - intros Hok. apply Forall2_same_length_lookup.
    split; [by eapply Forall2_length |]. intros i x j Hx Hj.
    destruct (Forall2_lookup_lr _ _ _ _ _ _ F Hx Hj) as (_ & _ & _ & J).
    apply J. rewrite Forall_forall in Hok. apply Hok.
    by eapply list_elem_of_lookup_2.
Qed.

Lemma decode_members_list dec members h :
  decode_members dec members h =
    (zip (AStr <$> members.*1) (decode_list dec members.*2 h).1,
     (decode_list dec members.*2 h).2).
Proof.
  revert h. induction members as [|[k j] members IH]; intros h; [reflexivity |].
  rewrite !fmap_cons. change (((k, j).1)) with k. change (((k, j).2)) with j.
  change (decode_members dec ((k, j) :: members) h)
    with (let '(v, h1) := dec j h in
          let '(es, h2) := decode_members dec members h1 in
          ((AStr k, v) :: es, h2)).
  change (decode_list dec (j :: members.*2) h)
    with (let '(v, h1) := dec j h in
          let '(vs, h2) := decode_list dec members.*2 h1 in
          (v :: vs, h2)).
  destruct (dec j h) as [v h1]. rewrite IH.
  by destruct (decode_list dec members.*2 h1).
Qed.

Lemma fst_zip_str (ss : list string) (vs : list val) :
  length vs = length ss → (zip (AStr <$> ss) vs).*1 = AStr <$> ss.
Proof. intros Hl. apply fst_zip. rewrite length_fmap. lia. Qed.

Lemma Forall_is_Some_Forall2 {A B} (f : A → option B) l :
  Forall (λ x, is_Some (f x)) l → ∃ k, Forall2 (λ x y, f x = Some y) l k.
Proof.
  intros H. destruct (mapM_is_Some_2 f l H) as [k Hk].
  exists k. by apply mapM_Some.
Qed.

Lemma zip_members_Forall2 (f : val → option json) members : ∀ vs,
  Forall2 (λ x j, f x = Some j) vs members.*2 →
  Forall2 (λ kv m, member_of f kv = Some m) (zip (AStr <$> members.*1) vs) members.
Proof.
  induction members as [|[k j] members IH]; intros vs H.
  - inversion H; subst. constructor.
  - rewrite fmap_cons in H. inversion H as [|x ? vs' ? Hx Hrest]; subst.
    rewrite !fmap_cons. simpl. constructor; [| by apply IH].
    apply member_of_Some. exists k, j. by simpl in *.
Qed.

Lemma zip_keys_Forall (ss : list string) (vs : list val) :
  Forall (λ kv : atom * val, (∃ s, kv.1 = AStr s) ∧ kv.2 ∈ vs)
         (zip (AStr <$> ss) vs).
Proof.
  apply Forall_forall. intros [k v] Hin. simpl. split.
  - apply elem_of_zip_l in Hin. apply list_elem_of_fmap in Hin as (s & -> & _). eauto.
  - by apply elem_of_zip_r in Hin.
Qed.

(** The container [json.loads] makes last, over the elements [vs] decoded
    before it. *)
Lemma decoded_container items h vs h1 o :
  decoded_list items h (vs, h1) →
  (∀ x, x ∈ children o → x ∈ vs) →
  (∀ es, o = ODict es → dict_ok es = true) →
  extends h (h1 ++ [o]) ∧
  (heap_ok h = true → heap_ok (h1 ++ [o]) = true) ∧
  val_ok (length (h1 ++ [o])) (VRef (length h1)) = true ∧
  (∀ l, reachable (h1 ++ [o]) (VRef (length h1)) l →
        (length h ≤ l < length (h1 ++ [o]))%nat) ∧
  (h1 ++ [o]) !! length h1 = Some o ∧
  (length (h1 ++ [o]) - length h = S (length h1 - length h))%nat ∧
  (∀ x j, x ∈ vs → snapshot (length h1 - length h) h1 x = Some j →
          snapshot (length h1 - length h) (h1 ++ [o]) x = Some j).
Proof.
  intros Hlist Hch Hdict.
  destruct (decoded_list_facts _ _ _ _ Hlist) as (L & V & R & HS & J).
  destruct Hlist as (E & K & _). simpl in *.
  pose proof (proj1 E) as Hlen.
  assert ((h1 ++ [o]) !! length h1 = Some o) as Hlook.
  { by rewrite lookup_app_r, Nat.sub_diag by done. }
  assert (length (h1 ++ [o]) = S (length h1)) as Hl2.
  { rewrite length_app. simpl. lia. }
  split; [eapply extends_trans; [exact E | apply extends_app] |].
  split; [| split; [| split; [| split; [| split]]]].
  - intros Hh. apply heap_ok_snoc; [by apply K |].
    apply obj_ok_intro; [| done]. apply Forall_forall. intros x Hx.
    rewrite Forall_forall in V. eapply val_ok_mono; [| apply V, Hch, Hx]. lia.
  - simpl. apply bool_decide_eq_true. lia.
  - intros l Hr. rewrite Hl2.
    inversion Hr as [|? o' x ? Ho' Hx Hrx]; subst; [lia |].
    rewrite Hlook in Ho'. injection Ho' as <-.
    rewrite Forall_forall in HS. destruct (HS x (Hch x Hx)) as [doc Hdoc].
    assert (reachable h1 x l) as Hr1.
    { eapply reachable_back; [exact Hrx | exact Hdoc | apply extends_app]. }
    apply (R x l (Hch x Hx)) in Hr1. lia.
  - done.
  - lia.
  - intros x j _. apply snapshot_extends, extends_app.
Qed.

(** [json.loads] of any document. *)
Theorem decode_spec doc : ∀ h, decoded doc h (decode doc h).
Proof.
  induction doc as [| | | |items IH|members IH] using json_induction; intros h.
  1-4: (unfold decoded; simpl; split; [apply extends_refl |]; split; [done |];
        split; [done |]; split; [by intros l Hr; inversion Hr |];
        rewrite snapshot_atom; simpl; split; [eauto | done]).
  - pose proof (decode_list_spec items IH h) as Hlist.
    change (decode (JArr items) h)
      with (let '(vs, h1) := decode_list decode items h in
            (VRef (length h1), h1 ++ [OList vs])).
    destruct (decode_list decode items h) as [vs h1].
    destruct (decoded_container items h vs h1 (OList vs) Hlist)
      as (E & K & V & R & Hlook & Hfuel & Hlift); [done | done |].
    destruct (decoded_list_facts _ _ _ _ Hlist) as (_ & _ & _ & HS & J).
    unfold decoded. simpl. rewrite Hfuel.
    split; [done |]. split; [done |]. split; [done |]. split; [done |]. split.
    + destruct (Forall_is_Some_Forall2 _ _ HS) as [docs Hdocs].
      exists (JArr docs). apply snapshot_ref. left. exists vs, docs.
      split; [done |]. split; [| done].
      apply Forall2_same_length_lookup. split; [by eapply Forall2_length |].
      intros i x j Hx Hj. apply Hlift; [by eapply list_elem_of_lookup_2 |].
      by eapply Forall2_lookup_lr in Hdocs.
    + intros Hok. inversion Hok as [| | | |? Hitems|]; subst.
      apply snapshot_ref. left. exists vs, items.
      split; [done |]. split; [| done].
      specialize (J Hitems).
      apply Forall2_same_length_lookup. split; [by eapply Forall2_length |].
      intros i x j Hx Hj. apply Hlift; [by eapply list_elem_of_lookup_2 |].
      by eapply Forall2_lookup_lr in J.
  - assert (Forall (λ j, ∀ h, decoded j h (decode j h)) members.*2) as IH'.
    { apply Forall_fmap. exact IH. }
    pose proof (decode_list_spec members.*2 IH' h) as Hlist.
    change (decode (JObj members) h)
      with (let '(es, h1) := decode_members decode members h in
            (VRef (length h1), h1 ++ [ODict (dict_of es)])).
    rewrite decode_members_list.
    destruct (decode_list decode members.*2 h) as [vs h1]. simpl.
    set (es := zip (AStr <$> members.*1) vs).
    assert (Forall (λ kv : atom * val, (∃ s, kv.1 = AStr s) ∧ kv.2 ∈ vs)
                   (dict_of es)) as Hent.
    { apply (dict_of_acc_Forall (λ k, ∃ s, k = AStr s) (λ v, v ∈ vs) es []);
        [done | apply zip_keys_Forall]. }
    assert (dict_ok (dict_of es) = true) as Hdok.
    { by apply (dict_of_acc_ok es []). }
    destruct (decoded_container members.*2 h vs h1 (ODict (dict_of es)) Hlist)
      as (E & K & V & R & Hlook & Hfuel & Hlift).
    { intros x Hx. simpl in Hx. apply list_elem_of_fmap in Hx as (kv & -> & Hkv).
      rewrite Forall_forall in Hent. by apply Hent. }
    { by intros ? [= <-]. }
    destruct (decoded_list_facts _ _ _ _ Hlist) as (L & _ & _ & HS & J).
    rewrite length_fmap in L.
    unfold decoded. simpl. rewrite Hfuel.
    split; [done |]. split; [done |]. split; [done |]. split; [done |]. split.
    + assert (Forall (λ kv, is_Some (member_of
                 (snapshot (length h1 - length h) (h1 ++ [ODict (dict_of es)])) kv))
                (dict_of es)) as Hsome.
      { eapply Forall_impl; [exact Hent |]. intros [k v] [[s Hs] Hv]. simpl in *.
        rewrite Forall_forall in HS. destruct (HS v Hv) as [j Hj].
        exists (s, j). apply member_of_Some. exists s, j.
        split; [done |]. split; [| done]. by apply Hlift. }
      destruct (Forall_is_Some_Forall2 _ _ Hsome) as [ms Hms].
      exists (JObj ms). apply snapshot_ref. right. exists (dict_of es), ms.
      split; [done |]. split; [done |]. split; [| done].
      apply (dict_ok_str (dict_of es)); [| done].
      apply list_eq_Forall2. rewrite <- list_fmap_compose, Forall2_fmap.
      eapply Forall2_impl; [exact Hms |]. intros kv m.
      rewrite member_of_Some. by intros (s & j & -> & _ & ->).
    + intros Hok. inversion Hok as [| | | | |? Hnd Hmem]; subst.
      assert (Forall json_ok members.*2) as Hmem'.
      { apply Forall_fmap. exact Hmem. }
      specialize (J Hmem').
      assert (dict_of es = es) as Hid.
      { unfold dict_of. rewrite (dict_of_acc_id es []); [done |]. simpl.
        apply (dict_ok_str es members.*1); [| done].
        unfold es. apply fst_zip_str. by rewrite length_fmap. }
      rewrite Hid in *.
      apply snapshot_ref. right. exists es, members.
      split; [done |]. split; [| done].
      apply zip_members_Forall2.
      apply Forall2_same_length_lookup. split; [by eapply Forall2_length |].
      intros i x j Hx Hj. apply Hlift; [by eapply list_elem_of_lookup_2 |].
      by eapply Forall2_lookup_lr in J.
Qed.

(** ** Writing, then reading *)

Lemma world_ok_inv w :
  world_ok w = true ↔
  heap_ok (heap_of w) = true ∧ ∃ es, store_entries w = Some es.
Proof.
  unfold world_ok. rewrite andb_true_iff, bool_decide_eq_true. done.
Qed.

Lemma json_dumps_val_ok h v doc :
  json_dumps h v = Ok doc → val_ok (length h) v = true.
Proof.
  destruct v as [a|l]; [done |]. unfold json_dumps. simpl.
  destruct (length h) eqn:El; simpl; [done |].
  destruct (h !! l) eqn:E; [| done]. intros _.
  apply bool_decide_eq_true. rewrite <- El. by eapply lookup_lt_Some.
Qed.

Lemma obj_ok_dict_set n k v es :
  obj_ok n (ODict es) = true → val_ok n v = true →
  obj_ok n (ODict (dict_set k v es)) = true.
Proof.
  intros Hes Hv. apply obj_ok_intro.
  - simpl. apply Forall_fmap.
    apply (dict_set_Forall (λ kv, val_ok n kv.2 = true)); [done | done |].
    pose proof (obj_ok_children _ _ Hes) as H. simpl in H.
    apply Forall_fmap in H. exact H.
  - intros ? [= <-]. by apply dict_ok_set, (obj_ok_dict n).
Qed.

(** A successful [set] of the in-memory backend, and the read that follows
    it through any instance. *)
Lemma InMemoryKVS_set_getitem (self self' : InMemoryKVS) k v w doc :
  world_ok w = true → json_dumps (heap_of w) v = Ok doc →
  ∃ es h1 h2 r,
    store_entries w = Some es ∧
    h1 = <[OBJECT_STORE w := ODict (dict_set (AStr k) v es)]> (heap_of w) ∧
    InMemoryKVS_set self (py_str k) v w = (Ok tt, set_heap h1 w) ∧
    world_ok (set_heap h1 w) = true ∧
    store_lookup (set_heap h1 w) (AStr k) = Some v ∧
    InMemoryKVS_getitem self' (py_str k) (set_heap h1 w) = (Ok r, set_heap h2 w) ∧
    world_ok (set_heap h2 w) = true ∧
    extends h1 h2 ∧
    deep_equal h2 r h2 v ∧
    (∀ l, reachable h2 r l → (length h1 ≤ l)%nat).
Proof.
  intros [Hok [es Hes]]%world_ok_inv Hd.
  pose proof (json_dumps_val_ok _ _ _ Hd) as Hv.
  pose proof (proj1 (store_entries_Some w es) Hes) as Hlook.
  pose proof (lookup_lt_Some _ _ _ Hlook) as Hlt.
  set (h1 := <[OBJECT_STORE w := ODict (dict_set (AStr k) v es)]> (heap_of w)).
  assert (length h1 = length (heap_of w)) as Hlen1 by apply length_insert.
  assert (h1 !! OBJECT_STORE w = Some (ODict (dict_set (AStr k) v es))) as Hlook1.
  { unfold h1. by rewrite list_lookup_insert_eq. }
  assert (heap_ok h1 = true) as Hok1.
  { apply heap_ok_insert; [done |]. apply obj_ok_dict_set; [| done].
    by eapply heap_ok_lookup. }
  assert (store_entries (set_heap h1 w) = Some (dict_set (AStr k) v es)) as Hes1.
  { by apply store_entries_Some. }
  assert (val_ok (length h1) v = true) as Hv1 by (by rewrite Hlen1).
  destruct (copy_deepcopy_spec (set_heap h1 w) v Hok1 Hv1)
    as (r & h2 & Hcopy & Hext & Hok2 & Hr & Heq & Hfresh).
  change (heap_of (set_heap h1 w)) with h1 in *.
  exists es, h1, h2, r. split; [done |]. split; [done |].
  split; [by eapply InMemoryKVS_set_ok |].
  split; [apply world_ok_inv; eauto |].
  split; [unfold store_lookup; rewrite Hes1; simpl; apply dict_get_set |].
  split.
  { unfold py_str. rewrite (InMemoryKVS_getitem_eq self' _ _ _ Hes1).
    rewrite dict_get_set. simpl. rewrite Hcopy. by destruct w. }
  split.
  { apply world_ok_inv. split; [done |]. exists (dict_set (AStr k) v es).
    apply store_entries_Some. change (heap_of (set_heap h2 w)) with h2.
    change (OBJECT_STORE (set_heap h2 w)) with (OBJECT_STORE w).
    destruct Hext as [_ Hfr]. rewrite Hfr by lia. done. }
  split; [done |]. split; [| done].
  intros d. rewrite (Heq d). symmetry.
  apply unfold_extends; [done | apply Hext | done].
Qed.




(** ** The copy handed out by the in-memory backend *)

Lemma dict_get_Some_in k (es : list (atom * val)) v :
  dict_get k es = Some v → v ∈ es.*2.
Proof.
  induction es as [|[k' v'] es IH]; [done |].
  rewrite fmap_cons. simpl. destruct (key_eqb k' k).
  - intros [= ->]. by left.
  - intros H. right. by apply IH.
Qed.

Lemma store_value_ok w es k v :
  heap_ok (heap_of w) = true → store_entries w = Some es →
  dict_get k es = Some v → val_ok (length (heap_of w)) v = true.
Proof.
  intros Hok Hes%store_entries_Some Hk.
  pose proof (obj_ok_children _ _ (heap_ok_lookup _ _ _ Hok Hes)) as Hch.
  rewrite Forall_forall in Hch. apply Hch. simpl. by eapply dict_get_Some_in.
Qed.

Lemma world_ok_extends w h' :
  world_ok w = true → extends (heap_of w) h' → heap_ok h' = true →
  world_ok (set_heap h' w) = true ∧ store_entries (set_heap h' w) = store_entries w.
Proof.
  intros [Hok [es Hes]]%world_ok_inv [_ Hfr] Hok'.
  assert (store_entries (set_heap h' w) = store_entries w) as Heq.
  { rewrite Hes. apply store_entries_Some. simpl.
    apply store_entries_Some in Hes. rewrite Hfr; [done |].
    by eapply lookup_lt_Some. }
  split; [| done]. apply world_ok_inv. split; [done |]. exists es. congruence.
Qed.

(** A read of a stored value: a copy, in a world that keeps every object. *)
Lemma InMemoryKVS_getitem_stored (self : InMemoryKVS) k v w es :
  world_ok w = true → store_entries w = Some es →
  default py_None (dict_get k es) = v →
  ∃ r h',
    InMemoryKVS_getitem self (VAtom k) w = (Ok r, set_heap h' w) ∧
    extends (heap_of w) h' ∧ world_ok (set_heap h' w) = true ∧
    store_entries (set_heap h' w) = Some es ∧
    deep_equal h' r (heap_of w) v ∧
    (∀ l, reachable h' r l → (length (heap_of w) ≤ l)%nat).
Proof.
  intros Hw Hes Hv. pose proof Hw as [Hok _]%world_ok_inv.
  assert (val_ok (length (heap_of w)) v = true) as Hvok.
  { destruct (dict_get k es) as [v'|] eqn:E; simpl in Hv; subst; [| done].
    by eapply store_value_ok. }
  destruct (copy_deepcopy_spec w v Hok Hvok)
    as (r & h' & Hcopy & Hext & Hok' & _ & Heq & Hfresh).
  destruct (world_ok_extends w h' Hw Hext Hok') as [Hw' Hes'].
  exists r, h'. rewrite (InMemoryKVS_getitem_eq self k w es Hes), Hv.
  split; [done |]. split; [done |]. split; [done |].
  split; [congruence |]. by split.
Qed.

(** C7: [self[k]] returns a deep copy of the value stored under [k], made
    of new objects only, never the stored reference. Whatever the caller
    then does to the objects of the returned value, the stored objects and
    the table are as before, and the next [self[k]] returns a value
    deep-equal to the one that was stored. *)
Theorem getitem_returns_isolated_copy (self : InMemoryKVS) k v w :
  world_ok w = true → store_lookup w (AStr k) = Some v →
  ∃ r w1,
    InMemoryKVS_getitem self (py_str k) w = (Ok r, w1) ∧
    deep_equal (heap_of w1) r (heap_of w) v ∧
    (∀ l, reachable (heap_of w1) r l → (length (heap_of w) ≤ l)%nat) ∧
    ∀ w2, mutated r w1 w2 → world_ok w2 = true →
      store_lookup w2 (AStr k) = Some v ∧
      (∀ l, (l < length (heap_of w))%nat → heap_of w2 !! l = heap_of w !! l) ∧
      ∃ r2 w3,
        InMemoryKVS_getitem self (py_str k) w2 = (Ok r2, w3) ∧
        deep_equal (heap_of w3) r2 (heap_of w) v.
Proof.
  intros Hw Hk. pose proof Hw as [Hok [es Hes]]%world_ok_inv.
  unfold store_lookup in Hk. rewrite Hes in Hk. simpl in Hk.
  assert (default py_None (dict_get (AStr k) es) = v) as Hv by (by rewrite Hk).
  destruct (InMemoryKVS_getitem_stored self (AStr k) v w es Hw Hes Hv)
    as (r & h1 & Hget & Hext & Hw1 & Hes1 & Heq & Hfresh).
  exists r, (set_heap h1 w). split; [done |]. split; [done |]. split; [done |].
  intros w2 (Hstore & Hlen & Hfr) Hw2. simpl in Hstore, Hlen, Hfr.
  assert (∀ l, (l < length (heap_of w))%nat → heap_of w2 !! l = heap_of w !! l)
    as Hold.
  { intros l Hl. destruct Hext as [Hlen1 Hfr1].
    rewrite Hfr; [by apply Hfr1 | lia |].
    intros Hr. apply Hfresh in Hr. lia. }
  assert (store_entries w2 = Some es) as Hes2.
  { apply store_entries_Some. rewrite Hstore, Hold.
    - by apply store_entries_Some.
    - apply store_entries_Some in Hes. by eapply lookup_lt_Some. }
  split; [unfold store_lookup; by rewrite Hes2 |]. split; [done |].
  destruct (InMemoryKVS_getitem_stored self (AStr k) v w2 es Hw2 Hes2 Hv)
    as (r2 & h3 & Hget2 & _ & _ & _ & Heq2 & _).
  exists r2, (set_heap h3 w2). split; [done |].
  intros d. simpl. rewrite (Heq2 d).
  apply unfold_extends; [done | done |]. by eapply store_value_ok.
Qed.

Lemma getitem_returns_isolated_copy_witness :
  let w := set_heap [ODict [(AStr "k", VRef 1%nat)]; OList [py_int 1; VRef 2%nat];
                     ODict [(AStr "a", py_None)]] (initial_world []) in
  ∃ r w1,
    InMemoryKVS_getitem {| instance_id := 1 |} (py_str "k") w = (Ok r, w1) ∧
    deep_equal (heap_of w1) r (heap_of w) (VRef 1%nat) ∧
    (∀ l, reachable (heap_of w1) r l → (length (heap_of w) ≤ l)%nat) ∧
    ∀ w2, mutated r w1 w2 → world_ok w2 = true →
      store_lookup w2 (AStr "k") = Some (VRef 1%nat) ∧
      (∀ l, (l < length (heap_of w))%nat → heap_of w2 !! l = heap_of w !! l) ∧
      ∃ r2 w3,
        InMemoryKVS_getitem {| instance_id := 1 |} (py_str "k") w2 = (Ok r2, w3) ∧
        deep_equal (heap_of w3) r2 (heap_of w) (VRef 1%nat).
Proof.
  intros w. apply (getitem_returns_isolated_copy _ "k" (VRef 1%nat) w); reflexivity.
Defined.

(** What Python does to a list or a dict of the returned value is such a
    change: [x.append(c)], [x[i] = c], [d[key] = c]. *)
Lemma store_into_is_mutation r w l o :
  reachable (heap_of w) r l → mutated r w (set_heap (<[l := o]> (heap_of w)) w).
Proof.
  intros Hr. split; [done |]. split; [simpl; by rewrite length_insert |].
  intros l' _ Hnot. simpl. apply list_lookup_insert_ne. by intros ->.
Qed.

(** The copy and the stored list on an example: the caller appends to the
    list it got; the stored list and the next read do not show it. *)
Example getitem_then_append :
  let w := set_heap [ODict [(AStr "k", VRef 1%nat)]; OList [py_int 1]]
             (initial_world []) in
  let mk := {| instance_id := 1 |} in
  ∃ w1 w3,
    InMemoryKVS_getitem mk (py_str "k") w = (Ok (VRef 2%nat), w1) ∧
    heap_of w1 = [ODict [(AStr "k", VRef 1%nat)]; OList [py_int 1]; OList [py_int 1]] ∧
    let w2 := set_heap (list_append 2 (py_int 99) (heap_of w1)) w1 in
    heap_of w2 = [ODict [(AStr "k", VRef 1%nat)]; OList [py_int 1];
                  OList [py_int 1; py_int 99]] ∧
    InMemoryKVS_getitem mk (py_str "k") w2 = (Ok (VRef 3%nat), w3) ∧
    heap_of w3 !! 3%nat = Some (OList [py_int 1]).
Proof. intros w mk. eexists _, _. repeat split. Qed.

(** ** One table for every instance *)

Lemma InMemoryKVS_set_world_ok (self : InMemoryKVS) key value w :
  world_ok w = true → world_ok (InMemoryKVS_set self key value w).2 = true.
Proof.
  intros Hw. destruct (json_dumps (heap_of w) value) as [doc|e|] eqn:Hd.
  - destruct (is_str key) eqn:Hk.
    + destruct key as [[| | |k|]|]; try done.
      destruct (InMemoryKVS_set_getitem self self k value w doc Hw Hd)
        as (es & h1 & h2 & r & _ & _ & Hset & Hw1 & _).
      unfold py_str in Hset. by rewrite Hset.
    + by rewrite (InMemoryKVS_set_key self key value w doc Hd Hk).
  - by rewrite (InMemoryKVS_set_raise self key value w e Hd).
  - unfold InMemoryKVS_set, bind, dumps. by rewrite Hd.
Qed.

Lemma InMemoryKVS_getitem_world_ok (self : InMemoryKVS) key w :
  world_ok w = true → world_ok (InMemoryKVS_getitem self key w).2 = true.
Proof.
  intros Hw. destruct key as [k|l]; [| done].
  pose proof Hw as [_ [es Hes]]%world_ok_inv.
  destruct (InMemoryKVS_getitem_stored self k _ w es Hw Hes eq_refl)
    as (r & h' & Hget & _ & Hw' & _).
  by rewrite Hget.
Qed.

Lemma InMemoryKVS_keys_world (self : InMemoryKVS) w :
  world_ok w = true → (InMemoryKVS_keys self w).2 = w.
Proof.
  intros [_ [es Hes%store_entries_Some]]%world_ok_inv.
  unfold InMemoryKVS_keys, dict_keys. mrun. by rewrite Hes.
Qed.

Lemma InMemoryKVS_clear_eq (self : InMemoryKVS) w :
  InMemoryKVS_clear self w =
    (Ok tt, set_OBJECT_STORE (length (heap_of w))
              (set_heap (heap_of w ++ [ODict []]) w)).
Proof. reflexivity. Qed.

Lemma InMemoryKVS_clear_world_ok (self : InMemoryKVS) w :
  world_ok w = true →
  world_ok (InMemoryKVS_clear self w).2 = true ∧
  store_entries (InMemoryKVS_clear self w).2 = Some [].
Proof.
  intros [Hok _]%world_ok_inv. rewrite InMemoryKVS_clear_eq. simpl.
  assert (store_entries (set_OBJECT_STORE (length (heap_of w))
            (set_heap (heap_of w ++ [ODict []]) w)) = Some []) as Hes.
  { apply store_entries_Some. simpl.
    by rewrite lookup_app_r, Nat.sub_diag by done. }
  split; [| done]. apply world_ok_inv. split; [| eauto]. simpl.
  by apply heap_ok_snoc.
Qed.

Lemma run_calls_world_ok calls : ∀ w,
  world_ok w = true → world_ok (run_calls calls w) = true.
Proof.
  induction calls as [|[self c] calls IH]; intros w Hw; [done |].
  apply IH. destruct c.
  - exact (InMemoryKVS_set_world_ok self key value w Hw).
  - exact (InMemoryKVS_getitem_world_ok self key w Hw).
  - unfold run_call. simpl. by rewrite InMemoryKVS_keys_world.
  - exact (proj1 (InMemoryKVS_clear_world_ok self w Hw)).
Qed.

(** C5: every instance of the in-memory backend works on the one table
    [OBJECT_STORE] is bound to. After any calls through any instances,
    [clear()] included, two instances read the same under every key; what
    one writes the other reads; and [mk1.set("hi", 5); mk2.set("hi", 7)]
    makes [mk1["hi"]] return [7]. *)
Theorem instances_share_the_table (mk1 mk2 : InMemoryKVS) calls w :
  world_ok w = true →
  let w' := run_calls calls w in
  (∀ key, InMemoryKVS_getitem mk1 key w' = InMemoryKVS_getitem mk2 key w') ∧
  (∀ k v, is_json (heap_of w') v = true →
     ∃ w1 r w2,
       InMemoryKVS_set mk1 (py_str k) v w' = (Ok tt, w1) ∧
       InMemoryKVS_getitem mk2 (py_str k) w1 = (Ok r, w2) ∧
       deep_equal (heap_of w2) r (heap_of w2) v) ∧
  (∃ w1 w2 w3,
     InMemoryKVS_set mk1 (py_str "hi") (py_int 5) w' = (Ok tt, w1) ∧
     InMemoryKVS_set mk2 (py_str "hi") (py_int 7) w1 = (Ok tt, w2) ∧
     InMemoryKVS_getitem mk1 (py_str "hi") w2 = (Ok (py_int 7), w3)) ∧
  (∀ key, InMemoryKVS_getitem mk2 key (InMemoryKVS_clear mk1 w').2 =
          (match key with
           | VAtom _ => Ok py_None
           | VRef _ => Raise (TypeError "unhashable type")
           end, (InMemoryKVS_clear mk1 w').2)).
Proof.
  intros Hw w'. pose proof (run_calls_world_ok calls w Hw) as Hw'. fold w' in Hw'.
  split; [done |]. split; [| split].
  - intros k v (doc & _ & Hd)%is_json_dumps.
    destruct (InMemoryKVS_set_getitem mk1 mk2 k v w' doc Hw' Hd)
      as (es & h1 & h2 & r & _ & _ & Hset & _ & _ & Hget & _ & _ & Heq & _).
    eauto 10.
  - assert (∀ w0 z, json_dumps (heap_of w0) (py_int z) = Ok (JNum z)) as Hnum.
    { intros w0 z. unfold json_dumps. by destruct (length (heap_of w0)). }
    destruct (InMemoryKVS_set_getitem mk1 mk1 "hi" (py_int 5) w' _ Hw' (Hnum _ _))
      as (es & h1 & _ & _ & _ & _ & Hset1 & Hw1 & _).
    destruct (InMemoryKVS_set_getitem mk2 mk1 "hi" (py_int 7) (set_heap h1 w') _
                Hw1 (Hnum _ _))
      as (es2 & h2 & h3 & r & Hes2 & -> & Hset2 & Hw2 & Hlook & _).
    eexists _, _, _. split; [exact Hset1 |]. split; [exact Hset2 |].
    pose proof Hw2 as [_ [es3 Hes3]]%world_ok_inv.
    unfold store_lookup in Hlook. rewrite Hes3 in Hlook. simpl in Hlook.
    unfold py_str. rewrite (InMemoryKVS_getitem_eq mk1 _ _ es3 Hes3), Hlook.
    simpl. apply copy_deepcopy_atom.
  - intros key. destruct (InMemoryKVS_clear_world_ok mk1 w' Hw') as [Hwc Hes].
    destruct key as [k|l]; [| done].
    rewrite (InMemoryKVS_getitem_eq mk2 k _ [] Hes). simpl.
    apply copy_deepcopy_atom.
Qed.

Lemma instances_share_the_table_witness :
  let mk1 := {| instance_id := 1 |} in
  let mk2 := {| instance_id := 2 |} in
  let w' := run_calls [(mk1, CallSet (py_str "a") (py_int 1)); (mk2, CallClear)]
              (initial_world []) in
  ∃ w1 w2 w3,
    InMemoryKVS_set mk1 (py_str "hi") (py_int 5) w' = (Ok tt, w1) ∧
    InMemoryKVS_set mk2 (py_str "hi") (py_int 7) w1 = (Ok tt, w2) ∧
    InMemoryKVS_getitem mk1 (py_str "hi") w2 = (Ok (py_int 7), w3).
Proof.
  intros mk1 mk2 w'.
  apply (instances_share_the_table mk1 mk2
           [(mk1, CallSet (py_str "a") (py_int 1)); (mk2, CallClear)]
           (initial_world [])).
  reflexivity.
Defined.

(** ** Deep equality and documents *)

Lemma Forall2_mapM_eq {A B C} (f : A → option C) (g : B → option C) xs ys :
  Forall2 (λ x y, f x = g y) xs ys → mapM f xs = mapM g ys.
Proof. induction 1 as [|x y xs ys Hxy _ IH]; simpl; [done |]. by rewrite Hxy, IH. Qed.

Lemma map_eq_Forall2 {A B C} (f : A → C) (g : B → C) xs ys :
  map f xs = map g ys → Forall2 (λ x y, f x = g y) xs ys.
Proof.
  revert ys. induction xs as [|x xs IH]; intros [|y ys]; simpl; try done.
  intros [= Hxy Hrest]. constructor; [done | by apply IH].
Qed.

(** Values that unfold alike denote the same document, if any. *)
Lemma unfold_snapshot h1 h2 d : ∀ v1 v2,
  unfold d h1 v1 = unfold d h2 v2 → snapshot d h1 v1 = snapshot d h2 v2.
Proof.
  induction d as [|d IH]; intros [a1|l1] [a2|l2]; simpl; try done;
    try (by intros [= ->]).
  - destruct (h2 !! l2) as [[|]|]; done.
  - destruct (h1 !! l1) as [[|]|]; done.
  - destruct (h1 !! l1) as [[xs|es1]|], (h2 !! l2) as [[ys|es2]|]; try done.
    + intros [= H%map_eq_Forall2]. f_equal. apply Forall2_mapM_eq.
      eapply Forall2_impl; [exact H |]. intros x y. apply IH.
    + intros [= H%map_eq_Forall2].
      rewrite (Forall2_mapM_eq (member_of (snapshot d h1))
                 (member_of (snapshot d h2)) es1 es2); [done |].
      eapply Forall2_impl; [exact H |]. intros [k1 x] [k2 y]. simpl.
      intros [= -> Hxy]. unfold member_of. simpl. by rewrite (IH _ _ Hxy).
Qed.

Lemma deep_equal_snapshot h1 h2 v1 v2 d :
  deep_equal h1 v1 h2 v2 → snapshot d h1 v1 = snapshot d h2 v2.
Proof. intros H. apply unfold_snapshot, H. Qed.

Lemma reachable_transfer_back h h' : ∀ x l,
  reachable h' x l →
  ∀ d doc, snapshot d h x = Some doc →
  (∀ l o, reachable h x l → h !! l = Some o → h' !! l = Some o) →
  reachable h x l.
Proof.
  induction 1 as [l|l o x l' Ho Hx Hr IH]; intros d doc Hs Hfr; [constructor |].
  destruct d; [done |].
  assert (h !! l = Some o) as Ho'.
  { apply snapshot_ref in Hs as [(? & ? & Hl & _)|(? & ? & Hl & _)];
      pose proof (Hfr l _ (reach_here h l) Hl); congruence. }
  assert (∀ x', x' ∈ children o →
            ∀ l0 o0, reachable h x' l0 → h !! l0 = Some o0 → h' !! l0 = Some o0)
    as Hfr'.
  { intros x' Hx' l0 o0 Hr0. apply Hfr. by eapply reach_step. }
  apply snapshot_ref in Hs
    as [(items & docs & Hl & Hall & ->)|(entries & ms & Hl & Hall & Hnd & ->)];
    rewrite Hl in Ho'; injection Ho' as <-; pose proof Hx as Hx0; simpl in Hx.
  - apply list_elem_of_lookup in Hx as [i Hi].
    destruct (Forall2_lookup_l _ _ _ _ _ Hall Hi) as (j & _ & Hj).
    eapply reach_step; [done | done |]. eapply IH; [exact Hj | by apply Hfr'].
  - apply list_elem_of_fmap in Hx as (kv & -> & Hkv).
    apply list_elem_of_lookup in Hkv as [i Hi].
    destruct (Forall2_lookup_l _ _ _ _ _ Hall Hi) as (m & _ & Hm).
    apply member_of_Some in Hm as (s & j & _ & Hj & _).
    eapply reach_step; [done | done |]. eapply IH; [exact Hj | by apply Hfr'].
Qed.

(** [json.loads] of an object whose member names differ: the dict made has
    the members in their order. *)
Lemma decode_object members h :
  NoDup members.*1 →
  ∃ vs h1,
    decode (JObj members) h =
      (VRef (length h1), h1 ++ [ODict (zip (AStr <$> members.*1) vs)]) ∧
    extends h h1 ∧
    Forall2 (decoded_item h (h1 ++ [ODict (zip (AStr <$> members.*1) vs)]))
            vs members.*2.
Proof.
  intros Hnd.
  assert (Forall (λ j, ∀ h, decoded j h (decode j h)) members.*2) as Hall.
  { apply Forall_forall. intros j _. apply decode_spec. }
  pose proof (decode_list_spec members.*2 Hall h) as Hlist.
  change (decode (JObj members) h)
    with (let '(es, h1) := decode_members decode members h in
          (VRef (length h1), h1 ++ [ODict (dict_of es)])).
  rewrite decode_members_list.
  destruct (decode_list decode members.*2 h) as [vs h1]. simpl.
  destruct Hlist as (E & _ & F). simpl in E, F.
  exists vs, h1.
  assert (dict_of (zip (AStr <$> members.*1) vs) = zip (AStr <$> members.*1) vs)
    as ->.
  { unfold dict_of. rewrite (dict_of_acc_id _ []); [done |]. simpl.
    apply (dict_ok_str _ members.*1); [| done].
    apply fst_zip_str. apply Forall2_length in F. by rewrite F, !length_fmap. }
  split; [done |]. split; [done |].
  eapply Forall2_impl; [exact F |]. intros x j.
  apply decoded_item_later; [apply E | apply extends_app].
Qed.

(** ** [load], entry by entry *)

Lemma for_each_raise {A} (body : A → M unit) : ∀ n xs x e w w_n w_f,
  for_each (take n xs) body w = (Ok tt, w_n) → xs !! n = Some x →
  body x w_n = (Raise e, w_f) →
  for_each xs body w = (Raise e, w_f).
Proof.
  induction n as [|n IH]; intros [|y xs] x e w w_n w_f; simpl; try done.
  - intros [= <-] [= <-] Hx. unfold bind. by rewrite Hx.
  - unfold bind. destruct (body y w) as [[[]| |] w1]; try done.
    intros Hn Hx Hf. by eapply IH.
Qed.

(** What [load] reads from a file that holds an object whose member names
    differ: the dict [data], with one entry per member, in their order. *)
Lemma load_parse filename w members :
  files w !! filename = Some (JsonText (JObj members)) → NoDup members.*1 →
  ∃ vs h1,
    let es := zip (AStr <$> members.*1) vs in
    let h' := h1 ++ [ODict es] in
    (∀ T (B : Backend T) (self : T),
       load self filename w =
         for_each es (λ kv, set self (VAtom kv.1) kv.2) (set_heap h' w)) ∧
    json_load filename w = (Ok (VRef (length h1)), set_heap h' w) ∧
    dict_items (VRef (length h1)) (set_heap h' w) = (Ok es, set_heap h' w) ∧
    extends (heap_of w) h1 ∧
    Forall2 (decoded_item (heap_of w) h') vs members.*2.
Proof.
  intros Hfile Hnd.
  destruct (decode_object members (heap_of w) Hnd) as (vs & h1 & Hdec & Hext & Hall).
  exists vs, h1. intros es h'.
  assert (json_load filename w = (Ok (VRef (length h1)), set_heap h' w)) as Hload.
  { unfold json_load, bind, get_world. rewrite Hfile. unfold json_loads.
    by rewrite Hdec. }
  assert (dict_items (VRef (length h1)) (set_heap h' w) = (Ok es, set_heap h' w))
    as Hitems.
  { unfold dict_items, bind, read. simpl. unfold h'.
    by rewrite lookup_app_r, Nat.sub_diag by done. }
  split; [| done]. intros T B self. unfold load, bind. by rewrite Hload, Hitems.
Qed.

Lemma RedisKVS_set_connected (self : RedisKVS) k v w doc :
  redis_connected w = true → json_dumps (heap_of w) v = Ok doc →
  RedisKVS_set self (py_str k) v w =
    match net w with
    | false :: rest => (Raise ConnectionError, set_net rest w)
    | rest =>
        (Ok tt,
         set_redis_db (<[k := RedisEntry (JsonText doc) (expire self)]> (redis_db w))
           (set_net (tail rest) w))
    end.
Proof.
  intros Hc Hd.
  unfold RedisKVS_set, RedisKVS_connect, redis_connect, connection_set. mrun.
  rewrite Hc. mrun. rewrite Hd. mrun.
  destruct (net w) as [|[] rest] eqn:En; mrun; try done.
  destruct w; simpl in *; by subst.
Qed.

Lemma written_lookup_other self kds : ∀ db k,
  k ∉ kds.*1 → written self kds db !! k = db !! k.
Proof.
  induction kds as [|[k' d] kds IH]; intros db k Hk; [done |].
  rewrite fmap_cons, not_elem_of_cons in Hk. destruct Hk as [Hne Hk].
  simpl. rewrite (IH _ k Hk). by rewrite lookup_insert_ne.
Qed.

Lemma written_lookup self kds : ∀ db i k d,
  NoDup kds.*1 → kds !! i = Some (k, d) →
  written self kds db !! k = Some (RedisEntry (JsonText d) (expire self)).
Proof.
  induction kds as [|[k' d'] kds IH]; intros db i k d Hnd Hi; [done |].
  rewrite fmap_cons in Hnd. apply NoDup_cons in Hnd as [Hnot Hnd].
  destruct i as [|i]; simpl in *.
  - injection Hi as -> ->. rewrite written_lookup_other by done.
    by rewrite lookup_insert_eq.
  - by eapply IH.
Qed.

Lemma RedisKVS_load_loop (self : RedisKVS) h : ∀ es kds,
  Forall2 (to_write h) es kds →
  ∀ w, heap_of w = h → redis_connected w = true →
  (net w = [] →
   ∃ w', for_each es (λ kv, set self (VAtom kv.1) kv.2) w = (Ok tt, w') ∧
         heap_of w' = h ∧ redis_connected w' = true ∧ net w' = [] ∧
         files w' = files w ∧
         redis_db w' = written self kds (redis_db w)) ∧
  (∀ n rest, net w = replicate n true ++ false :: rest → (n < length es)%nat →
   ∃ w', for_each es (λ kv, set self (VAtom kv.1) kv.2) w =
           (Raise ConnectionError, w') ∧
         heap_of w' = h ∧ net w' = rest ∧
         redis_db w' = written self (take n kds) (redis_db w)).
Proof.
  induction 1 as [|[a v] [k d] es kds [Hk Hd] _ IH]; intros w Hh Hc.
  { split; [by eexists | simpl; intros; lia]. }
  simpl in Hk, Hd. subst a. simpl.
  rewrite <- Hh in Hd.
  pose proof (RedisKVS_set_connected self k v w d Hc Hd) as Hset.
  unfold py_str in Hset. unfold bind. split.
  - intros Hnet. rewrite Hnet in Hset. rewrite Hset. simpl in *.
    destruct (IH (set_redis_db (<[k := RedisEntry (JsonText d) (expire self)]>
                                  (redis_db w)) (set_net [] w)))
      as [(w' & Hloop & ? & ? & ? & ? & ?) _]; [done | done | done |].
    exists w'. by rewrite Hloop.
  - intros [|n] rest Hnet Hlen; simpl in Hnet; rewrite Hnet in Hset; rewrite Hset.
    + eexists. by repeat split.
    + simpl in *.
      destruct (IH (set_redis_db (<[k := RedisEntry (JsonText d) (expire self)]>
                                    (redis_db w))
                      (set_net (replicate n true ++ false :: rest) w)))
        as [_ Hfail]; [done | done |].
      destruct (Hfail n rest) as (w' & Hloop & ? & ? & ?); [done | lia |].
      exists w'. by rewrite Hloop.
Qed.

Lemma NoDup_take_1 {A} (l : list A) n : NoDup l → NoDup (take n l).
Proof.
  intros H. rewrite <- (take_drop n l) in H. by apply NoDup_app in H as [? _].
Qed.

(** The documents the parsed entries denote. *)
Lemma parsed_documents h0 h' members : ∀ vs,
  Forall2 (decoded_item h0 h') vs members.*2 →
  ∃ kds,
    Forall2 (λ kv kd, kv.1 = AStr kd.1 ∧
                      snapshot (length h' - length h0) h' kv.2 = Some kd.2)
            (zip (AStr <$> members.*1) vs) kds ∧
    kds.*1 = members.*1 ∧
    Forall2 (λ kd m, json_ok m.2 → kd.2 = m.2) kds members.
Proof.
  induction members as [|[k j] members IH]; intros vs H.
  - inversion H; subst. exists []. by repeat constructor.
  - rewrite fmap_cons in H. inversion H as [|x ? vs' ? Hx Hrest]; subst.
    destruct (IH vs' Hrest) as (kds & Hall & Hkeys & Hok).
    destruct Hx as (_ & _ & [doc Hdoc] & Hj). simpl in Hj.
    exists ((k, doc) :: kds). rewrite !fmap_cons. simpl.
    split; [by constructor |]. split; [by f_equal |].
    constructor; [| done]. simpl. intros Hjok. specialize (Hj Hjok). congruence.
Qed.

Lemma snapshot_to_write h d es kds :
  (d ≤ length h)%nat →
  Forall2 (λ kv kd, kv.1 = AStr kd.1 ∧ snapshot d h kv.2 = Some kd.2) es kds →
  Forall2 (to_write h) es kds.
Proof.
  intros Hd H. eapply Forall2_impl; [exact H |]. intros kv kd [Hk Hs].
  split; [done |]. by eapply snapshot_dumps.
Qed.

(** C9: [load] calls [set] once per entry of the parsed mapping, in order,
    and rolls nothing back. For every backend: when [set] raises at entry
    [n], [load] raises the same error in the world the first [n] calls and
    the failed one left. On the Redis backend, when the round trip of entry
    [n] fails: the entries before it are in the remote store and what was
    there under the names of entry [n] and the later ones is as before. *)
Theorem load_is_not_rolled_back :
  (∀ T (B : Backend T) (self : T) filename w data w0 items w0' n kv e w_n w_f,
     json_load filename w = (Ok data, w0) →
     dict_items data w0 = (Ok items, w0') →
     for_each (take n items) (λ kv, set self (VAtom kv.1) kv.2) w0' = (Ok tt, w_n) →
     items !! n = Some kv →
     set self (VAtom kv.1) kv.2 w_n = (Raise e, w_f) →
     load self filename w = (Raise e, w_f)) ∧
  (∀ (self : RedisKVS) filename w members n rest,
     files w !! filename = Some (JsonText (JObj members)) →
     NoDup members.*1 →
     redis_connected w = true →
     (n < length members)%nat →
     net w = replicate n true ++ false :: rest →
     ∃ w',
       load self filename w = (Raise ConnectionError, w') ∧
       ∀ i k j, members !! i = Some (k, j) →
         ((i < n)%nat →
          ∃ doc, redis_db w' !! k =
                   Some (RedisEntry (JsonText doc) (expire self)) ∧
                 (json_ok j → doc = j)) ∧
         ((n ≤ i)%nat → redis_db w' !! k = redis_db w !! k)).
Proof.
  split.
  - intros T B self filename w data w0 items w0' n kv e w_n w_f
      Hload Hitems Hbefore Hn Hfail.
    unfold load, bind. rewrite Hload, Hitems.
    by eapply for_each_raise.
  - intros self filename w members n rest Hfile Hnd Hc Hn Hnet.
    destruct (load_parse filename w members Hfile Hnd)
      as (vs & h1 & Hload & _ & _ & Hext & Hall).
    set (es := zip (AStr <$> members.*1) vs) in *.
    set (h' := h1 ++ [ODict es]) in *.
    destruct (parsed_documents _ _ _ _ Hall) as (kds & Hdocs & Hkeys & Hok).
    fold es in Hdocs.
    assert (Forall2 (to_write h') es kds) as Hwrite.
    { eapply snapshot_to_write; [| exact Hdocs]. lia. }
    assert (length es = length members) as Hlen.
    { rewrite (Forall2_length _ _ _ Hdocs).
      by rewrite <- (length_fmap fst kds), Hkeys, length_fmap. }
    destruct (RedisKVS_load_loop self h' es kds Hwrite (set_heap h' w) eq_refl Hc)
      as [_ Hfail].
    destruct (Hfail n rest Hnet) as (w' & Hloop & _ & _ & Hdb); [lia |].
    exists w'. rewrite (Hload _ _ self). split; [done |].
    intros i k j Hi. simpl in Hdb. rewrite Hdb.
    assert (∃ doc, kds !! i = Some (k, doc) ∧ (json_ok j → doc = j))
      as (doc & Hkd & Hdoc).
    { destruct (Forall2_lookup_r _ _ _ _ _ Hok Hi) as ([k' doc] & Hkd & Hj).
      assert (k' = k) as ->.
      { assert (kds.*1 !! i = Some k') as H1 by (by rewrite list_lookup_fmap, Hkd).
        rewrite Hkeys, list_lookup_fmap, Hi in H1. simpl in H1. congruence. }
      eauto. }
    assert (NoDup kds.*1) as Hnd' by (by rewrite Hkeys).
    split.
    + intros Hlt. exists doc. split; [| done].
      eapply (written_lookup self (take n kds) _ i).
      * rewrite fmap_take. by apply NoDup_take_1.
      * by rewrite lookup_take_lt.
    + intros Hge. apply written_lookup_other. rewrite fmap_take.
      intros [i' Hi']%list_elem_of_lookup.
      apply lookup_take_Some in Hi' as [Hi' Hlt].
      assert (kds.*1 !! i = Some k) as Hik by (by rewrite list_lookup_fmap, Hkd).
      pose proof (NoDup_lookup _ _ _ _ Hnd' Hi' Hik). lia.
Qed.

Lemma load_is_not_rolled_back_witness :
  let self := {| expire := JNum 60 |} in
  let members := [("a", JNum 1); ("b", JArr [JStr "x"]); ("c", JNull)] in
  let w := set_net [true; false]
             (set_redis_connected true
                (set_files {["dump.json" := JsonText (JObj members)]}
                   (initial_world []))) in
  ∃ w',
    load self "dump.json" w = (Raise ConnectionError, w') ∧
    ∀ i k j, members !! i = Some (k, j) →
      ((i < 1)%nat →
       ∃ doc, redis_db w' !! k = Some (RedisEntry (JsonText doc) (expire self)) ∧
              (json_ok j → doc = j)) ∧
      ((1 ≤ i)%nat → redis_db w' !! k = redis_db w !! k).
Proof.
  intros self members w.
  apply (proj2 load_is_not_rolled_back self "dump.json" w members 1%nat []).
  - reflexivity.
  - apply (bool_decide_eq_true_1 (NoDup _)). reflexivity.
  - reflexivity.
  - simpl. lia.
  - reflexivity.
Defined.

(** ** [dump], key by key *)

Lemma snapshot_reachable_valid h d : ∀ v doc l,
  snapshot d h v = Some doc → reachable h v l → is_Some (h !! l).
Proof.
  intros v doc l Hs Hr. revert d doc Hs.
  induction Hr as [l|l o x l' Ho Hx Hr IH]; intros d doc Hs.
  - destruct d; [done |].
    apply snapshot_ref in Hs as [(? & ? & Hl & _)|(? & ? & Hl & _)]; eauto.
  - destruct d; [done |].
    apply snapshot_ref in Hs
      as [(items & docs & Hl & Hall & _)|(entries & ms & Hl & Hall & _)];
      rewrite Hl in Ho; injection Ho as <-; simpl in Hx.
    + apply list_elem_of_lookup in Hx as [i Hi].
      destruct (Forall2_lookup_l _ _ _ _ _ Hall Hi) as (j & _ & Hj). eauto.
    + apply list_elem_of_fmap in Hx as (kv & -> & Hkv).
      apply list_elem_of_lookup in Hkv as [i Hi].
      destruct (Forall2_lookup_l _ _ _ _ _ Hall Hi) as (m & _ & Hm).
      apply member_of_Some in Hm as (s & j & _ & Hj & _). eauto.
Qed.

Lemma denotes_transfer ld h h' kv kd :
  (length h ≤ length h')%nat →
  (∀ l, (l < length h)%nat → l ≠ ld → h' !! l = h !! l) →
  denotes ld h kv kd → denotes ld h' kv kd.
Proof.
  intros Hlen Hfr (Hk & (d & Hs & Hd) & Hr).
  assert (∀ l o, reachable h kv.2 l → h !! l = Some o → h' !! l = Some o) as Hsame.
  { intros l o Hl Ho. rewrite Hfr; [done | by eapply lookup_lt_Some | by apply Hr]. }
  split; [done |]. split.
  - exists d. split; [by eapply snapshot_transfer | lia].
  - intros l Hl. apply Hr. by eapply reachable_transfer_back.
Qed.

Lemma denotes_members ld h es kds :
  Forall2 (denotes ld h) es kds →
  es.*1 = AStr <$> kds.*1 ∧
  Forall (λ v, val_ok (length h) v = true) es.*2 ∧
  ∃ d, (d ≤ length h)%nat ∧ ((0 < length h)%nat → (S d ≤ length h)%nat) ∧
       Forall2 (λ kv kd, member_of (snapshot d h) kv = Some kd) es kds.
Proof.
  induction 1 as [|[a v] [k j] es kds (Hk & (d & Hs & Hd) & _) _ IH].
  - split; [done |]. split; [constructor |]. exists 0%nat.
    split; [lia |]. split; [lia | constructor].
  - destruct IH as (Hkeys & Hvals & d' & Hd' & Hd'' & Hall).
    simpl in Hk, Hs. subst a.
    rewrite !fmap_cons. simpl. split; [by f_equal |].
    split; [constructor; [by eapply snapshot_val_ok | done] |].
    exists (d `max` d')%nat. split; [lia |]. split; [lia |]. constructor.
    + apply member_of_Some. exists k, j. simpl. split; [done |]. split; [| done].
      eapply snapshot_mono; [| exact Hs]. lia.
    + eapply Forall2_impl; [exact Hall |]. intros kv kd.
      rewrite !member_of_Some. intros (s & j' & ? & Hj' & ->).
      exists s, j'. split; [done |]. split; [| done].
      eapply snapshot_mono; [| exact Hj']. lia.
Qed.

(** The dict at [ld], once filled, is what [json.dump] writes. *)
Lemma denotes_dumps ld h es kds :
  h !! ld = Some (ODict es) → Forall2 (denotes ld h) es kds → NoDup kds.*1 →
  json_dumps h (VRef ld) = Ok (JObj kds) ∧ obj_ok (length h) (ODict es) = true.
Proof.
  intros Hld Hall Hnd.
  destruct (denotes_members _ _ _ _ Hall) as (Hkeys & Hvals & d & _ & Hd & Hms).
  split.
  - apply (snapshot_dumps h (S d)).
    + apply Hd. apply lookup_lt_Some in Hld. lia.
    + apply snapshot_ref. right. exists es, kds. by repeat split.
  - apply obj_ok_intro; [done |]. intros ? [= <-].
    by apply (dict_ok_str es kds.*1).
Qed.

Section dump_loop.
Context `{Backend T} (self : T) (I : world → Prop) (ld : loc).
Hypothesis Hframed : framed I ld.

Lemma dump_step_spec w es kds k doc :
  I w → heap_of w !! ld = Some (ODict es) →
  Forall2 (denotes ld (heap_of w)) es kds → NoDup (kds.*1 ++ [k]) →
  reads self I ld k doc →
  ∃ w' r,
    dump_step self ld (py_str k) w = (Ok tt, w') ∧ I w' ∧
    (length (heap_of w) ≤ length (heap_of w'))%nat ∧
    heap_of w' !! ld = Some (ODict (es ++ [(AStr k, r)])) ∧
    Forall2 (denotes ld (heap_of w')) (es ++ [(AStr k, r)]) (kds ++ [(k, doc)]).
Proof.
  intros HI Hld Hall Hnd Hread.
  pose proof (lookup_lt_Some _ _ _ Hld) as Hlt.
  destruct (Hread w HI Hlt) as (r & w1 & Hget & HI1 & [Hlen Hfr] & (d & Hs & Hd) & Hnew).
  assert (heap_of w1 !! ld = Some (ODict es)) as Hld1 by (by rewrite Hfr).
  destruct (denotes_members _ _ _ _ Hall) as (Hkeys & _).
  assert (dict_set (AStr k) r es = es ++ [(AStr k, r)]) as Hset.
  { apply dict_set_fresh. apply (dict_get_str_None k es kds.*1 Hkeys).
    apply NoDup_app in Hnd as (_ & Hnot & _). intros Hin.
    apply (Hnot k Hin). by left. }
  set (h2 := <[ld := ODict (es ++ [(AStr k, r)])]> (heap_of w1)).
  assert (Forall2 (denotes ld h2) (es ++ [(AStr k, r)]) (kds ++ [(k, doc)])) as Hall2.
  { assert (∀ l, (l < length (heap_of w1))%nat → l ≠ ld →
                 h2 !! l = heap_of w1 !! l) as Hfr2.
    { intros l _ Hne. unfold h2. by rewrite list_lookup_insert_ne. }
    assert (length (heap_of w1) ≤ length h2)%nat as Hlen2.
    { unfold h2. by rewrite length_insert. }
    apply Forall2_app.
    - eapply Forall2_impl; [exact Hall |]. intros kv kd Hkv.
      eapply (denotes_transfer ld (heap_of w1)); [done | done |].
      eapply (denotes_transfer ld (heap_of w)); [done | | done].
      intros l Hl _. by apply Hfr.
    - constructor; [| constructor].
      eapply (denotes_transfer ld (heap_of w1)); [done | done |].
      split; [done |]. split; [eauto |]. simpl.
      intros l Hl. apply Hnew in Hl. lia. }
  assert (h2 !! ld = Some (ODict (es ++ [(AStr k, r)]))) as Hld2.
  { unfold h2. apply list_lookup_insert_eq. by eapply lookup_lt_Some. }
  assert (NoDup (kds ++ [(k, doc)]).*1) as Hnd2 by (by rewrite fmap_app).
  destruct (denotes_dumps ld h2 _ _ Hld2 Hall2 Hnd2) as [_ Hobj].
  exists (set_heap h2 w1), r.
  split.
  { unfold dump_step, bind. rewrite Hget.
    unfold py_str, dict_store, bind, read. rewrite Hld1.
    unfold write. by rewrite Hset. }
  split.
  { apply Hframed; [done | lia |]. unfold h2 in Hobj.
    by rewrite length_insert in Hobj. }
  split; [simpl; unfold h2; rewrite length_insert; lia |].
  by split.
Qed.

Lemma dump_loop_spec : ∀ ks docs w es kds,
  Forall2 (λ k kd, kd.1 = k ∧ reads self I ld k kd.2) ks docs →
  I w → heap_of w !! ld = Some (ODict es) →
  Forall2 (denotes ld (heap_of w)) es kds → NoDup (kds.*1 ++ ks) →
  ∃ w' es',
    for_each (py_str <$> ks) (dump_step self ld) w = (Ok tt, w') ∧ I w' ∧
    (length (heap_of w) ≤ length (heap_of w'))%nat ∧
    heap_of w' !! ld = Some (ODict es') ∧
    Forall2 (denotes ld (heap_of w')) es' (kds ++ docs).
Proof.
  intros ks docs w es kds Hreads. revert w es kds.
  induction Hreads as [|k [k' doc] ks docs [Hk Hread] _ IH];
    intros w es kds HI Hld Hall Hnd.
  - exists w, es. rewrite app_nil_r. by repeat split.
  - simpl in Hk, Hread. subst k'.
    assert (NoDup (kds.*1 ++ [k])) as Hnd1.
    { rewrite (assoc_L (++) _ [k] ks : kds.*1 ++ k :: ks = (kds.*1 ++ [k]) ++ ks) in Hnd.
      by apply NoDup_app in Hnd as [? _]. }
    destruct (dump_step_spec w es kds k doc HI Hld Hall Hnd1 Hread)
      as (w1 & r & Hstep & HI1 & Hlen1 & Hld1 & Hall1).
    destruct (IH w1 _ _ HI1 Hld1 Hall1) as (w' & es' & Hloop & HI' & Hlen' & Hld' & Hall').
    { rewrite fmap_app. simpl. by rewrite <- app_assoc. }
    exists w', es'. rewrite fmap_cons. simpl. unfold bind at 1. rewrite Hstep.
    split; [done |]. split; [done |]. split; [lia |]. split; [done |].
    by rewrite <- app_assoc in Hall'.
Qed.
End dump_loop.

(** ** What the calls leave alone *)

Section keeps.
Context {X : Type} (f : world → X).
Hypothesis f_heap : ∀ h w, f (set_heap h w) = f w.

Lemma keeps_ret {A} (a : A) : keeps f (ret a).
Proof. done. Qed.

Lemma keeps_raise {A} e : keeps f (@raise A e).
Proof. done. Qed.

Lemma keeps_stuck {A} : keeps f (@stuck A).
Proof. done. Qed.

Lemma keeps_lift {A} (o : outcome A) : keeps f (lift o).
Proof. done. Qed.

Lemma keeps_get_world : keeps f get_world.
Proof. done. Qed.

Lemma keeps_bind {A B} (c : M A) (k : A → M B) :
  keeps f c → (∀ a, keeps f (k a)) → keeps f (bind c k).
Proof.
  intros Hc Hk w. unfold bind. specialize (Hc w).
  destruct (c w) as [[a|e|] w1]; simpl in *; [| done | done].
  by rewrite (Hk a w1).
Qed.

Lemma keeps_for_each {A} (xs : list A) (body : A → M unit) :
  (∀ x, keeps f (body x)) → keeps f (for_each xs body).
Proof.
  intros Hb. induction xs as [|x xs IH]; [done |].
  simpl. apply keeps_bind; [apply Hb | done].
Qed.

Lemma keeps_py_assert c msg : keeps f (py_assert c msg).
Proof. by destruct c. Qed.

Lemma keeps_alloc o : keeps f (alloc o).
Proof. intros w. apply f_heap. Qed.

Lemma keeps_read l : keeps f (read l).
Proof. intros w. unfold read. by destruct (heap_of w !! l). Qed.

Lemma keeps_write l o : keeps f (write l o).
Proof. intros w. apply f_heap. Qed.

Lemma keeps_dumps v : keeps f (dumps v).
Proof. done. Qed.

Lemma keeps_copy_deepcopy x : keeps f (copy_deepcopy x).
Proof.
  intros w. unfold copy_deepcopy.
  destruct (deepcopy _ _ _) as [[y st]|]; [apply f_heap | done].
Qed.

Lemma keeps_json_loads s : keeps f (json_loads s).
Proof.
  intros w. destruct s as [doc|raw]; [| done]. simpl.
  destruct (decode doc (heap_of w)). apply f_heap.
Qed.

Lemma keeps_dict_lookup l key : keeps f (dict_lookup l key).
Proof.
  destruct key; [| apply keeps_raise]. simpl.
  apply keeps_bind; [apply keeps_read |].
  intros [|]; [apply keeps_stuck | apply keeps_ret].
Qed.

Lemma keeps_dict_store l key v : keeps f (dict_store l key v).
Proof.
  destruct key; [| apply keeps_raise]. simpl.
  apply keeps_bind; [apply keeps_read |].
  intros [|]; [apply keeps_stuck | apply keeps_write].
Qed.

Lemma keeps_dict_keys l : keeps f (dict_keys l).
Proof.
  apply keeps_bind; [apply keeps_read |].
  intros [|]; [apply keeps_stuck | apply keeps_ret].
Qed.

Lemma keeps_InMemoryKVS_getitem (self : InMemoryKVS) key :
  keeps f (InMemoryKVS_getitem self key).
Proof.
  apply keeps_bind; [apply keeps_get_world |]. intros w.
  apply keeps_bind; [apply keeps_dict_lookup |]. intros x.
  apply keeps_copy_deepcopy.
Qed.

Lemma keeps_InMemoryKVS_keys (self : InMemoryKVS) :
  keeps f (InMemoryKVS_keys self).
Proof.
  apply keeps_bind; [apply keeps_get_world |]. intros w. apply keeps_dict_keys.
Qed.

(** The part of [dump] before the file is written. *)
Lemma keeps_dump_loop `{Backend T} (self : T) :
  keeps f (keys self) → (∀ key, keeps f (getitem self key)) →
  keeps f (data <- alloc (ODict []) ;;
           ks <- keys self ;;
           for_each ks (λ key, v <- getitem self key ;; dict_store data key v) ;;;
           ret data).
Proof.
  intros Hkeys Hget.
  apply keeps_bind; [apply keeps_alloc |]. intros data.
  apply keeps_bind; [done |]. intros ks.
  apply keeps_bind; [| intros; apply keeps_ret].
  apply keeps_for_each. intros key.
  apply keeps_bind; [done |]. intros v. apply keeps_dict_store.
Qed.

Lemma keeps_dump `{Backend T} (self : T) filename :
  keeps f (keys self) → (∀ key, keeps f (getitem self key)) →
  (∀ fn, filename = Some fn → fn ≠ "" →
     ∀ x w, f (set_files (<[fn := x]> (files w)) w) = f w) →
  keeps f (dump self filename).
Proof.
  intros Hkeys Hget Hfile.
  apply keeps_bind; [apply keeps_alloc |]. intros data.
  apply keeps_bind; [done |]. intros ks.
  apply keeps_bind.
  { apply keeps_for_each. intros key.
    apply keeps_bind; [done |]. intros v. apply keeps_dict_store. }
  intros _. apply keeps_bind; [| intros; apply keeps_ret].
  destruct filename as [fn|]; [| apply keeps_ret].
  case_bool_decide as Hfn; [apply keeps_ret |].
  apply keeps_bind; [apply keeps_get_world |]. intros w0.
  destruct (open_w w0 fn); [apply keeps_raise |].
  apply keeps_bind; [intros w; by apply Hfile |]. intros _.
  apply keeps_bind; [apply keeps_dumps |]. intros doc w. by apply Hfile.
Qed.

Hypothesis f_net : ∀ n w, f (set_net n w) = f w.
Hypothesis f_connected : ∀ b w, f (set_redis_connected b w) = f w.

Lemma keeps_round_trip : keeps f round_trip.
Proof.
  intros w. unfold round_trip. destruct (net w) as [|[] rest]; [done | | ];
    apply f_net.
Qed.

Lemma keeps_redis_connect : keeps f redis_connect.
Proof.
  apply keeps_bind; [apply keeps_get_world |]. intros w.
  destruct (redis_connected w); [apply keeps_ret |].
  apply keeps_bind; [apply keeps_round_trip |]. intros _ w'. apply f_connected.
Qed.

Lemma keeps_RedisKVS_getitem (self : RedisKVS) key :
  keeps f (RedisKVS_getitem self key).
Proof.
  apply keeps_bind; [apply keeps_redis_connect |]. intros _.
  apply keeps_bind; [apply keeps_ret |]. intros _.
  apply keeps_bind.
  - unfold connection_get. destruct key as [[| | |k|]|]; try apply keeps_raise.
    apply keeps_bind; [apply keeps_round_trip |]. intros _.
    apply keeps_bind; [apply keeps_get_world |]. intros. apply keeps_ret.
  - intros [s|]; [apply keeps_json_loads | apply keeps_ret].
Qed.

Lemma keeps_RedisKVS_keys (self : RedisKVS) : keeps f (RedisKVS_keys self).
Proof.
  apply keeps_bind; [apply keeps_redis_connect |]. intros _.
  apply keeps_bind; [apply keeps_ret |]. intros _.
  apply keeps_bind; [| intros; apply keeps_ret].
  apply keeps_bind; [apply keeps_round_trip |]. intros _.
  apply keeps_bind; [apply keeps_get_world |]. intros. apply keeps_ret.
Qed.
End keeps.

(** ** [dump] and [load] on the in-memory backend *)

Lemma reachable_closed h : heap_ok h = true → ∀ v l,
  reachable h v l → val_ok (length h) v = true → (l < length h)%nat.
Proof.
  intros Hok v l. induction 1 as [l|l o x l' Ho Hx _ IH]; simpl.
  - by rewrite bool_decide_eq_true.
  - intros _. apply IH.
    pose proof (obj_ok_children _ _ (heap_ok_lookup _ _ _ Hok Ho)) as Hch.
    rewrite Forall_forall in Hch. by apply Hch.
Qed.

Lemma snapshot_closed h h' d v doc :
  heap_ok h = true → extends h h' →
  snapshot d h v = Some doc → snapshot d h' v = Some doc.
Proof. intros _. apply snapshot_extends. Qed.

Lemma dict_get_lookup (es : list (atom * val)) : ∀ i k v,
  dict_ok es = true → es !! i = Some (k, v) → dict_get k es = Some v.
Proof.
  induction es as [|[k' v'] es IH]; intros i k v Hok Hi; [done |].
  simpl in Hok. apply andb_true_iff in Hok as [Hk'%bool_decide_eq_true Hok].
  destruct i as [|i]; simpl in *.
  - injection Hi as -> ->. destruct k; simpl; by rewrite ?bool_decide_eq_true_2.
  - destruct (key_eqb k' k) eqn:E; [| by eapply IH].
    apply list_elem_of_lookup_2 in Hi.
    rewrite dict_get_None, Forall_forall in Hk'.
    specialize (Hk' _ Hi). simpl in Hk'. rewrite key_eqb_sym in Hk'. congruence.
Qed.

Lemma mem_dumping_framed h0 s0 ld :
  (s0 < length h0)%nat → (length h0 ≤ ld)%nat → framed (mem_dumping h0 s0) ld.
Proof.
  intros Hs Hld w es (Hw & Hstore & Hext) Hlt Hobj.
  pose proof Hw as [Hok [es0 Hes0%store_entries_Some]]%world_ok_inv.
  split; [| split; [done |]].
  - apply world_ok_inv. split; [simpl; by apply heap_ok_insert |].
    exists es0. apply store_entries_Some. simpl.
    rewrite list_lookup_insert_ne; [done |]. lia.
  - destruct Hext as [Hlen Hfr]. split; simpl.
    + by rewrite length_insert.
    + intros l Hl. rewrite list_lookup_insert_ne by lia. by apply Hfr.
Qed.

Lemma mem_dumping_reads (self : InMemoryKVS) h0 s0 ld es0 k v doc :
  heap_ok h0 = true → h0 !! s0 = Some (ODict es0) → (length h0 ≤ ld)%nat →
  dict_get (AStr k) es0 = Some v → snapshot (length h0) h0 v = Some doc →
  reads self (mem_dumping h0 s0) ld k doc.
Proof.
  intros Hok0 Hs0 Hld Hget Hsnap w (Hw & Hstore & Hext) Hlt.
  assert (store_entries w = Some es0) as Hes.
  { apply store_entries_Some. rewrite Hstore. destruct Hext as [_ Hfr].
    rewrite Hfr; [done |]. by eapply lookup_lt_Some. }
  destruct (InMemoryKVS_getitem_stored self (AStr k) v w es0 Hw Hes)
    as (r & h' & Hgetitem & Hext' & Hw' & _ & Heq & Hnew).
  { by rewrite Hget. }
  exists r, (set_heap h' w). split; [done |]. split.
  { split; [done |]. split; [done |]. by eapply extends_trans. }
  split; [done |]. split; [| done].
  exists (length h0). simpl. split.
  - rewrite (deep_equal_snapshot _ _ _ _ _ Heq). by eapply snapshot_extends.
  - destruct Hext' as [Hlen' _]. lia.
Qed.

(** The documents of a store of JSON values. *)
Lemma store_documents h (es : list (atom * val)) :
  Forall (λ kv, atom_is_str kv.1 = true ∧ is_json h kv.2 = true) es →
  ∃ kds, Forall2 (λ kv kd, kv.1 = AStr kd.1 ∧
                           snapshot (length h) h kv.2 = Some kd.2) es kds.
Proof.
  induction 1 as [|[a v] es [Ha Hv] _ [kds IH]]; [by exists [] |].
  destruct a as [| | |k|]; try done. simpl in Hv.
  apply is_json_snapshot in Hv as [doc Hdoc].
  exists ((k, doc) :: kds). by constructor.
Qed.

Lemma Forall2_keys (es : list (atom * val)) (kds : list (string * json))
    (R : atom * val → string * json → Prop) :
  (∀ kv kd, R kv kd → kv.1 = AStr kd.1) →
  Forall2 R es kds → es.*1 = AStr <$> kds.*1.
Proof.
  intros HR. induction 1 as [|kv kd es kds Hkv _ IH]; [done |].
  rewrite !fmap_cons. f_equal; [by apply HR | done].
Qed.

Lemma json_dump_eq ld fn w doc :
  open_w w fn = None → json_dumps (heap_of w) (VRef ld) = Ok doc →
  json_dump (VRef ld) fn w =
    (Ok tt, set_files (<[fn := JsonText doc]> (<[fn := NotJson ""]> (files w))) w).
Proof.
  intros Hopen Hd. unfold json_dump. mrun. rewrite Hopen. mrun.
  rewrite Hd. mrun. by destruct w.
Qed.

(** [dump(filename)] on a store of JSON values: when the file opens, it
    gets the object with one member per key, in the order of the table;
    when it does not, the error of [open] leaves [dump], after every key has
    been read, and no file is touched. *)
Lemma InMemoryKVS_dump_spec (self : InMemoryKVS) fn w es0 kds :
  world_ok w = true → fn ≠ "" → store_entries w = Some es0 →
  Forall2 (λ kv kd, kv.1 = AStr kd.1 ∧
                    snapshot (length (heap_of w)) (heap_of w) kv.2 = Some kd.2)
          es0 kds →
  ∃ w1,
    dump self (Some fn) w =
      (match open_w w fn with
       | None => Ok (VRef (length (heap_of w)))
       | Some e => Raise e
       end, w1) ∧
    world_ok w1 = true ∧
    files w1 = match open_w w fn with
               | None => <[fn := JsonText (JObj kds)]> (files w)
               | Some _ => files w
               end ∧
    NoDup kds.*1.
Proof.
  intros Hw Hfn Hes0 Hdocs.
  pose proof Hw as [Hok _]%world_ok_inv.
  pose proof (proj1 (store_entries_Some _ _) Hes0) as Hs0.
  pose proof (lookup_lt_Some _ _ _ Hs0) as Hslt.
  set (h0 := heap_of w) in *. set (s0 := OBJECT_STORE w) in *.
  set (ld := length h0).
  set (wa := set_heap (h0 ++ [ODict []]) w).
  assert (es0.*1 = AStr <$> kds.*1) as Hkeys.
  { eapply Forall2_keys; [| exact Hdocs]. by intros ? ? [? _]. }
  assert (dict_ok es0 = true) as Hdok.
  { by eapply obj_ok_dict, heap_ok_lookup. }
  assert (NoDup kds.*1) as Hnd by (by apply (dict_ok_str es0)).
  assert (mem_dumping h0 s0 wa) as HI.
  { split; [| split; [done | apply extends_app]].
    apply (world_ok_extends w); [done | apply extends_app |].
    by apply heap_ok_snoc. }
  assert (keys self wa = (Ok (py_str <$> kds.*1), wa)) as Hkeysa.
  { simpl. unfold InMemoryKVS_keys, dict_keys. mrun.
    unfold h0, s0 in *. rewrite lookup_app_l by done. rewrite Hs0.
    rewrite Hkeys, <- list_fmap_compose. done. }
  assert (Forall2 (λ k kd, kd.1 = k ∧ reads self (mem_dumping h0 s0) ld k kd.2)
                  kds.*1 kds) as Hreads.
  { apply Forall2_fmap_l. apply Forall2_same_length_lookup. split; [done |].
    intros i kd kd' Hi Hi'. assert (kd' = kd) as -> by congruence.
    split; [done |].
    destruct (Forall2_lookup_r _ _ _ _ _ Hdocs Hi) as ([a v] & Hkv & Ha & Hv).
    simpl in Ha, Hv. subst a.
    eapply mem_dumping_reads; [done | exact Hs0 | done | | done].
    by eapply dict_get_lookup. }
  destruct (dump_loop_spec self (mem_dumping h0 s0) ld
              (mem_dumping_framed h0 s0 ld Hslt (Nat.le_refl _))
              kds.*1 kds wa [] [] Hreads HI)
    as (w' & es' & Hloop & (Hw' & _ & _) & Hlen' & Hld' & Hall').
  { simpl. unfold ld. by rewrite lookup_app_r, Nat.sub_diag. }
  { constructor. }
  { done. }
  simpl in Hall'.
  destruct (denotes_dumps ld (heap_of w') es' kds Hld' Hall' Hnd) as [Hdump _].
  assert (open_w w' = open_w w ∧ files w' = files w) as [Hopen' Hfiles'].
  { assert (∀ X (f : world → X), (∀ h w, f (set_heap h w) = f w) →
              f w' = f wa) as Hkeep.
    { intros X f Hf.
      assert (keeps f (for_each (py_str <$> kds.*1) (dump_step self ld))) as Hk.
      { apply keeps_for_each. intros key.
        apply keeps_bind; [by apply keeps_InMemoryKVS_getitem |].
        intros x. by apply keeps_dict_store. }
      specialize (Hk wa). by rewrite Hloop in Hk. }
    split; [by apply (Hkeep _ open_w) | by apply (Hkeep _ files)]. }
  destruct (open_w w fn) as [e|] eqn:Hopen.
  - exists w'. split; [| done].
    unfold dump, bind at 1. unfold alloc. fold h0 ld wa.
    unfold bind at 1. rewrite Hkeysa.
    unfold bind at 1. unfold dump_step in Hloop. rewrite Hloop.
    rewrite bool_decide_eq_false_2 by done.
    unfold bind at 1, json_dump, bind at 1, get_world.
    by rewrite Hopen', Hopen.
  - eexists. split; [| split; [| split; [| done]]].
    + unfold dump, bind at 1. unfold alloc. fold h0 ld wa.
      unfold bind at 1. rewrite Hkeysa.
      unfold bind at 1. unfold dump_step in Hloop. rewrite Hloop.
      rewrite bool_decide_eq_false_2 by done.
      unfold bind at 1. rewrite (json_dump_eq ld fn w' (JObj kds));
        [| congruence | done].
      reflexivity.
    + done.
    + simpl. rewrite Hfiles'. apply insert_insert_eq.
Qed.

(** The entries [json.load] made are JSON values apart from any older
    object. *)
Lemma decoded_denotes s h0 h' kds : ∀ vs,
  (s < length h0)%nat → (length h0 ≤ length h')%nat →
  Forall (λ kd, json_ok kd.2) kds →
  Forall2 (decoded_item h0 h') vs kds.*2 →
  Forall2 (denotes s h') (zip (AStr <$> kds.*1) vs) kds.
Proof.
  intros vs Hs Hlen Hok. revert vs.
  induction Hok as [|[k j] kds Hj _ IH]; intros vs H.
  - inversion H; subst. constructor.
  - rewrite fmap_cons in H. inversion H as [|x ? vs' ? Hx Hrest]; subst.
    rewrite !fmap_cons. simpl. constructor; [| by apply IH].
    destruct Hx as (_ & R & _ & J). simpl in *.
    split; [done |]. split.
    + exists (length h' - length h0)%nat. split; [by apply J | lia].
    + intros l Hl. apply R in Hl. lia.
Qed.

Lemma InMemoryKVS_load_loop (self : InMemoryKVS) s : ∀ es kds,
  Forall2 (λ kv kd, True) es kds →
  ∀ w acc (names : list string),
    Forall2 (denotes s (heap_of w)) es kds →
    OBJECT_STORE w = s → heap_of w !! s = Some (ODict acc) →
    acc.*1 = AStr <$> names → NoDup (names ++ kds.*1) →
    ∃ w',
      for_each es (λ kv, set self (VAtom kv.1) kv.2) w = (Ok tt, w') ∧
      OBJECT_STORE w' = s ∧ heap_of w' !! s = Some (ODict (acc ++ es)) ∧
      length (heap_of w') = length (heap_of w) ∧
      (∀ l, l ≠ s → heap_of w' !! l = heap_of w !! l) ∧
      files w' = files w.
Proof.
  induction 1 as [|[a v] [k d] es kds _ _ IH];
    intros w acc names Hall Hs Hacc Hnames Hnd.
  - exists w. rewrite app_nil_r. by repeat split.
  - inversion Hall as [|? ? ? ? (Hk & (n & Hsnap & Hn) & Hr) Hrest]; subst.
    simpl in Hk, Hsnap, Hr. subst a.
    assert (json_dumps (heap_of w) v = Ok d) as Hd.
    { eapply snapshot_dumps; [| exact Hsnap]. lia. }
    assert (store_entries w = Some acc) as Hes by (by apply store_entries_Some).
    pose proof (InMemoryKVS_set_ok self k v w d acc Hd Hes) as Hset.
    rewrite fmap_cons in Hnd. simpl in Hnd.
    assert (dict_set (AStr k) v acc = acc ++ [(AStr k, v)]) as Heq.
    { apply dict_set_fresh, (dict_get_str_None k acc names Hnames).
      apply NoDup_app in Hnd as (_ & Hnot & _). intros Hin.
      apply (Hnot k Hin). by left. }
    rewrite Heq in Hset.
    set (h1 := <[OBJECT_STORE w := ODict (acc ++ [(AStr k, v)])]> (heap_of w)) in *.
    assert (length h1 = length (heap_of w)) as Hlen1 by apply length_insert.
    assert (∀ l, l ≠ OBJECT_STORE w → h1 !! l = heap_of w !! l) as Hfr1.
    { intros l Hl. unfold h1. by rewrite list_lookup_insert_ne. }
    destruct (IH (set_heap h1 w) (acc ++ [(AStr k, v)]) (names ++ [k]))
      as (w' & Hloop & Hs' & Hst' & Hlen' & Hfr' & Hf').
    + eapply Forall2_impl; [exact Hrest |]. intros kv kd.
      apply denotes_transfer; [simpl; lia |]. intros l _ Hl. by apply Hfr1.
    + done.
    + simpl. unfold h1. apply list_lookup_insert_eq. by eapply lookup_lt_Some.
    + rewrite !fmap_app. simpl. by rewrite Hnames.
    + by rewrite <- app_assoc.
    + exists w'. simpl. unfold bind. unfold py_str in Hset. rewrite Hset.
      split; [done |]. split; [done |].
      split; [by rewrite <- app_assoc in Hst' |].
      split; [simpl in Hlen'; lia |]. split; [| done].
      intros l Hl. rewrite Hfr' by done. by apply Hfr1.
Qed.

Lemma dict_get_related {A} (P : val → A → Prop) (Q : val → A → Prop)
    (es es' : list (atom * val)) (kds : list (string * A)) k :
  Forall2 (λ kv kd, kv.1 = AStr kd.1 ∧ P kv.2 kd.2) es kds →
  Forall2 (λ kv kd, kv.1 = AStr kd.1 ∧ Q kv.2 kd.2) es' kds →
  match dict_get (AStr k) es, dict_get (AStr k) es' with
  | Some v, Some v' => ∃ d, P v d ∧ Q v' d
  | None, None => True
  | _, _ => False
  end.
Proof.
  intros H. revert es'.
  induction H as [|[a v] [k0 d] es kds [Ha Hv] _ IH]; intros es' H'.
  - by inversion H'.
  - inversion H' as [|[a' v'] ? es'' ? [Ha' Hv'] Hrest]; subst.
    simpl in *. subst a a'. simpl. case_bool_decide; [eauto |]. by apply IH.
Qed.

Lemma InMemoryKVS_dump_then_load (self : InMemoryKVS) fn w :
  world_ok w = true → fn ≠ "" → open_w w fn = None → store_is_json w →
  ∃ data w1 w3,
    dump self (Some fn) w = (Ok data, w1) ∧
    load self fn (InMemoryKVS_clear self w1).2 = (Ok tt, w3) ∧
    ∀ k, match store_lookup w (AStr k), store_lookup w3 (AStr k) with
         | Some v, Some v3 => deep_equal (heap_of w3) v3 (heap_of w) v
         | None, None => True
         | _, _ => False
         end.
Proof.
  intros Hw Hfn Hopen (es0 & Hes0 & Hjson).
  destruct (store_documents _ _ Hjson) as [kds Hdocs].
  destruct (InMemoryKVS_dump_spec self fn w es0 kds Hw Hfn Hes0 Hdocs)
    as (w1 & Hdump & Hw1 & Hfile & Hnd).
  rewrite Hopen in Hdump, Hfile.
  set (wc := (InMemoryKVS_clear self w1).2).
  set (sc := length (heap_of w1)).
  assert (heap_of wc = heap_of w1 ++ [ODict []]) as Hhc by done.
  assert (OBJECT_STORE wc = sc) as Hsc by done.
  assert (files wc !! fn = Some (JsonText (JObj kds))) as Hfilec.
  { change (files wc) with (files w1). rewrite Hfile. apply lookup_insert_eq. }
  destruct (load_parse fn wc kds Hfilec Hnd)
    as (vs & hd & Hload & _ & _ & Hext & Hall).
  set (es := zip (AStr <$> kds.*1) vs) in *.
  set (h' := hd ++ [ODict es]) in *.
  assert (length (heap_of wc) = S sc) as Hlenc.
  { rewrite Hhc, length_app. simpl. unfold sc. lia. }
  assert (length h' = S (length hd)) as Hlen'.
  { unfold h'. rewrite length_app. simpl. lia. }
  pose proof (proj1 Hext) as Hlend.
  assert (Forall (λ kd : string * json, json_ok kd.2) kds) as Hok.
  { apply Forall_forall. intros kd [i Hi]%list_elem_of_lookup.
    destruct (Forall2_lookup_r _ _ _ _ _ Hdocs Hi) as (kv & _ & _ & Hs).
    by eapply snapshot_json_ok. }
  assert (Forall2 (denotes sc h') es kds) as Hden.
  { apply (decoded_denotes sc (heap_of wc)); [lia | lia | done | done]. }
  destruct (InMemoryKVS_load_loop self sc es kds) with
    (w := set_heap h' wc) (acc := @nil (atom * val)) (names := @nil string)
    as (w3 & Hloop & Hs3 & Hst3 & Hlen3 & Hfr3 & _); try done.
  { eapply Forall2_impl; [exact Hden | done]. }
  { simpl. unfold h'. rewrite lookup_app_l by lia.
    destruct Hext as [_ Hfr]. rewrite Hfr by lia.
    rewrite Hhc. unfold sc. by rewrite lookup_app_r, Nat.sub_diag. }
  exists (VRef (length (heap_of w))), w1, w3.
  split; [done |]. split; [by rewrite (Hload _ _ self) |].
  intros k. simpl in Hst3, Hlen3, Hfr3.
  assert (store_entries w3 = Some es) as Hes3.
  { apply store_entries_Some. by rewrite Hs3. }
  unfold store_lookup. rewrite Hes0, Hes3. simpl.
  assert (Forall2 (λ kv kd, kv.1 = AStr kd.1 ∧
                            ∃ n, snapshot n (heap_of w3) kv.2 = Some kd.2) es kds)
    as Hfinal.
  { eapply Forall2_impl; [exact Hden |]. intros kv kd Hkv.
    destruct (denotes_transfer sc h' (heap_of w3) kv kd) as (? & (n & ? & _) & _);
      [lia | by intros l _ Hl; apply Hfr3 | done | eauto]. }
  pose proof (dict_get_related
                (λ v d, snapshot (length (heap_of w)) (heap_of w) v = Some d)
                (λ v d, ∃ n, snapshot n (heap_of w3) v = Some d)
                es0 es kds k Hdocs Hfinal) as Hrel.
  destruct (dict_get (AStr k) es0), (dict_get (AStr k) es); try done.
  destruct Hrel as (d & Hv & n & Hv3). by eapply snapshot_deep_equal.
Qed.

(** ** [dump] and [load] on the Redis backend *)

Lemma redis_dumping_framed db fs ld : framed (redis_dumping db fs) ld.
Proof. by intros w es (? & ? & ? & ?) _ _. Qed.

Lemma RedisKVS_getitem_json (self : RedisKVS) k w e doc :
  net w = [] → redis_db w !! k = Some e → payload e = JsonText doc →
  json_ok doc →
  ∃ r h',
    RedisKVS_getitem self (py_str k) w =
      (Ok r, set_heap h' (set_redis_connected true w)) ∧
    extends (heap_of w) h' ∧
    snapshot (length h' - length (heap_of w)) h' r = Some doc ∧
    (∀ l, reachable h' r l → (length (heap_of w) ≤ l)%nat).
Proof.
  intros Hnet Hk Hp Hok.
  pose proof (decode_spec doc (heap_of w)) as Hdec.
  destruct (decode doc (heap_of w)) as [r h'] eqn:Edec.
  destruct Hdec as (Hext & _ & _ & Hr & _ & Hsame). simpl in *.
  exists r, h'. rewrite RedisKVS_getitem_eq by done. rewrite Hk, Hp. simpl.
  rewrite Edec. split; [done |]. split; [done |]. split; [by apply Hsame |].
  intros l Hl. apply Hr in Hl. lia.
Qed.

Lemma redis_dumping_reads (self : RedisKVS) db fs ld k e doc :
  db !! k = Some e → payload e = JsonText doc → json_ok doc →
  reads self (redis_dumping db fs) ld k doc.
Proof.
  intros Hk Hp Hok w (Hnet & Hc & Hdb & Hfs) Hlt.
  rewrite <- Hdb in Hk.
  destruct (RedisKVS_getitem_json self k w e doc Hnet Hk Hp Hok)
    as (r & h' & Hget & Hext & Hs & Hr).
  exists r, (set_heap h' (set_redis_connected true w)).
  split; [done |]. split; [done |]. split; [done |]. split; [| done].
  eexists. split; [exact Hs |]. simpl. pose proof (proj1 Hext). lia.
Qed.

(** The documents held by a remote store of JSON texts, key by key. *)
Lemma db_documents (db : gmap string redis_entry) :
  db_is_json db →
  ∃ kds : list (string * json),
    kds.*1 = (map_to_list db).*1 ∧
    Forall2 (λ ke kd, kd.1 = ke.1 ∧ payload ke.2 = JsonText kd.2 ∧ json_ok kd.2)
            (map_to_list db) kds.
Proof.
  intros Hdb.
  assert (Forall (λ ke : string * redis_entry,
            ∃ doc, payload ke.2 = JsonText doc ∧ json_ok doc) (map_to_list db)) as H.
  { apply Forall_forall. intros [k e] Hin. apply elem_of_map_to_list in Hin.
    by apply (Hdb k). }
  induction H as [|[k e] l (doc & Hp & Hok) _ (kds & Hkeys & IH)].
  - by exists [].
  - exists ((k, doc) :: kds). rewrite !fmap_cons. simpl.
    split; [by f_equal |]. by constructor.
Qed.

Lemma RedisKVS_keys_eq (self : RedisKVS) w :
  net w = [] →
  RedisKVS_keys self w =
    (Ok (py_str <$> (map_to_list (redis_db w)).*1), set_redis_connected true w).
Proof.
  intros Hnet. unfold RedisKVS_keys, RedisKVS_connect, bind.
  rewrite (redis_connect_eq w Hnet). unfold connection_keys. mrun.
  by rewrite Hnet.
Qed.

(** [dump(filename)] on a remote store of JSON texts. *)
Lemma RedisKVS_dump_spec (self : RedisKVS) fn w kds :
  net w = [] → fn ≠ "" →
  kds.*1 = (map_to_list (redis_db w)).*1 →
  Forall2 (λ ke kd, kd.1 = ke.1 ∧ payload ke.2 = JsonText kd.2 ∧ json_ok kd.2)
          (map_to_list (redis_db w)) kds →
  ∃ w1,
    dump self (Some fn) w =
      (match open_w w fn with
       | None => Ok (VRef (length (heap_of w)))
       | Some e => Raise e
       end, w1) ∧
    net w1 = [] ∧ redis_connected w1 = true ∧ redis_db w1 = redis_db w ∧
    files w1 = match open_w w fn with
               | None => <[fn := JsonText (JObj kds)]> (files w)
               | Some _ => files w
               end ∧
    NoDup kds.*1.
Proof.
  intros Hnet Hfn Hkeys Hdocs.
  set (db := redis_db w). set (h0 := heap_of w). set (ld := length h0).
  set (wa := set_heap (h0 ++ [ODict []]) w).
  set (wb := set_redis_connected true wa).
  assert (NoDup kds.*1) as Hnd.
  { rewrite Hkeys. apply NoDup_fst_map_to_list. }
  assert (keys self wa = (Ok (py_str <$> kds.*1), wb)) as Hkeysa.
  { simpl. rewrite RedisKVS_keys_eq by done. by rewrite Hkeys. }
  assert (redis_dumping db (files w) wb) as HI by done.
  assert (Forall2 (λ k kd, kd.1 = k ∧
                           reads self (redis_dumping db (files w)) ld k kd.2)
                  kds.*1 kds) as Hreads.
  { apply Forall2_fmap_l. apply Forall2_same_length_lookup. split; [done |].
    intros i kd kd' Hi Hi'. assert (kd' = kd) as -> by congruence.
    split; [done |].
    destruct (Forall2_lookup_r _ _ _ _ _ Hdocs Hi) as ([k e] & Hke & Hk & Hp & Hok).
    simpl in Hk, Hp. rewrite Hk.
    eapply redis_dumping_reads; [| done | done].
    apply elem_of_map_to_list. by eapply list_elem_of_lookup_2. }
  destruct (dump_loop_spec self (redis_dumping db (files w)) ld
              (redis_dumping_framed db (files w) ld)
              kds.*1 kds wb [] [] Hreads HI)
    as (w' & es' & Hloop & (Hnet' & Hc' & Hdb' & Hfs') & Hlen' & Hld' & Hall').
  { simpl. unfold ld. by rewrite lookup_app_r, Nat.sub_diag. }
  { constructor. }
  { done. }
  simpl in Hall'.
  destruct (denotes_dumps ld (heap_of w') es' kds Hld' Hall' Hnd) as [Hdump _].
  assert (open_w w' = open_w w) as Hopen'.
  { assert (keeps open_w (for_each (py_str <$> kds.*1) (dump_step self ld))) as Hk.
    { apply keeps_for_each. intros key.
      apply keeps_bind; [by apply keeps_RedisKVS_getitem |].
      intros x. by apply keeps_dict_store. }
    specialize (Hk wb). by rewrite Hloop in Hk. }
  destruct (open_w w fn) as [e|] eqn:Hopen.
  - exists w'. split; [| done].
    unfold dump, bind at 1. unfold alloc. fold h0 ld wa.
    unfold bind at 1. rewrite Hkeysa.
    unfold bind at 1. unfold dump_step in Hloop. rewrite Hloop.
    rewrite bool_decide_eq_false_2 by done.
    unfold bind at 1, json_dump, bind at 1, get_world.
    by rewrite Hopen', Hopen.
  - eexists. split; [| split; [| split; [| split; [| split; [| done]]]]].
    + unfold dump, bind at 1. unfold alloc. fold h0 ld wa.
      unfold bind at 1. rewrite Hkeysa.
      unfold bind at 1. unfold dump_step in Hloop. rewrite Hloop.
      rewrite bool_decide_eq_false_2 by done.
      unfold bind at 1. rewrite (json_dump_eq ld fn w' (JObj kds));
        [| congruence | done].
      reflexivity.
    + done.
    + done.
    + done.
    + simpl. rewrite Hfs'. apply insert_insert_eq.
Qed.

Lemma written_empty_lookup (self : RedisKVS) (db : gmap string redis_entry) kds k :
  NoDup kds.*1 → kds.*1 = (map_to_list db).*1 →
  Forall2 (λ ke kd, kd.1 = ke.1 ∧ payload ke.2 = JsonText kd.2 ∧ json_ok kd.2)
          (map_to_list db) kds →
  payload <$> written self kds ∅ !! k = payload <$> db !! k.
Proof.
  intros Hnd Hkeys Hdocs.
  destruct (db !! k) as [e|] eqn:Hk.
  - apply elem_of_map_to_list, list_elem_of_lookup in Hk as [i Hi].
    destruct (Forall2_lookup_l _ _ _ _ _ Hdocs Hi) as ([k' d] & Hkd & Hk' & Hp & _).
    simpl in Hk', Hp. subst k'.
    rewrite (written_lookup self kds ∅ i k d Hnd Hkd). simpl. by rewrite Hp.
  - rewrite written_lookup_other; [by rewrite lookup_empty |].
    rewrite Hkeys. intros Hin. apply list_elem_of_fmap in Hin as ([k' e] & -> & Hin).
    apply elem_of_map_to_list in Hin. simpl in Hk. congruence.
Qed.

Lemma RedisKVS_getitem_same (self : RedisKVS) k w w' :
  net w = [] → net w' = [] → db_is_json (redis_db w) →
  payload <$> redis_db w' !! k = payload <$> redis_db w !! k →
  ∃ r wa r' wb,
    RedisKVS_getitem self (py_str k) w = (Ok r, wa) ∧
    RedisKVS_getitem self (py_str k) w' = (Ok r', wb) ∧
    deep_equal (heap_of wb) r' (heap_of wa) r.
Proof.
  intros Hnet Hnet' Hdb Hsame.
  destruct (redis_db w !! k) as [e|] eqn:Hk.
  - destruct (Hdb k e Hk) as (doc & Hp & Hok).
    destruct (redis_db w' !! k) as [e'|] eqn:Hk'; [| done].
    simpl in Hsame. injection Hsame as Hp'. rewrite Hp in Hp'.
    destruct (RedisKVS_getitem_json self k w e doc Hnet Hk Hp Hok)
      as (r & h1 & Hget & _ & Hs & _).
    destruct (RedisKVS_getitem_json self k w' e' doc Hnet' Hk' Hp' Hok)
      as (r' & h1' & Hget' & _ & Hs' & _).
    eexists _, _, _, _. split; [exact Hget |]. split; [exact Hget' |].
    simpl. by eapply snapshot_deep_equal.
  - destruct (redis_db w' !! k) as [e'|] eqn:Hk'; [done |].
    eexists _, _, _, _.
    split; [by rewrite RedisKVS_getitem_eq, Hk |].
    split; [by rewrite RedisKVS_getitem_eq, Hk' |]. intros d. by destruct d.
Qed.

Lemma RedisKVS_dump_then_load (self : RedisKVS) fn w :
  net w = [] → fn ≠ "" → open_w w fn = None → db_is_json (redis_db w) →
  ∃ data w1 w3,
    dump self (Some fn) w = (Ok data, w1) ∧
    load self fn (set_redis_db ∅ w1) = (Ok tt, w3) ∧
    (∀ k, payload <$> redis_db w3 !! k = payload <$> redis_db w !! k) ∧
    ∀ k, ∃ r wa r3 wb,
      RedisKVS_getitem self (py_str k) w = (Ok r, wa) ∧
      RedisKVS_getitem self (py_str k) w3 = (Ok r3, wb) ∧
      deep_equal (heap_of wb) r3 (heap_of wa) r.
Proof.
  intros Hnet Hfn Hopen Hdb.
  destruct (db_documents _ Hdb) as (kds & Hkeys & Hdocs).
  destruct (RedisKVS_dump_spec self fn w kds Hnet Hfn Hkeys Hdocs)
    as (w1 & Hdump & Hnet1 & Hc1 & Hdb1 & Hfile & Hnd).
  rewrite Hopen in Hdump, Hfile.
  set (w2 := set_redis_db ∅ w1).
  assert (files w2 !! fn = Some (JsonText (JObj kds))) as Hfile2.
  { change (files w2) with (files w1). rewrite Hfile. apply lookup_insert_eq. }
  destruct (load_parse fn w2 kds Hfile2 Hnd)
    as (vs & hd & Hload & _ & _ & Hext & Hall).
  set (es := zip (AStr <$> kds.*1) vs) in *.
  set (h' := hd ++ [ODict es]) in *.
  destruct (parsed_documents _ _ _ _ Hall) as (kds' & Hsnap & Hkeys' & Hok').
  fold es in Hsnap.
  assert (kds' = kds) as ->.
  { apply list_eq. intros i.
    destruct (kds !! i) as [[k d]|] eqn:Hi.
    - destruct (Forall2_lookup_r _ _ _ _ _ Hok' Hi) as ([k' d'] & Hi' & Hd').
      rewrite Hi'. f_equal.
      assert (k' = k) as ->.
      { assert (kds'.*1 !! i = Some k') as H1 by (by rewrite list_lookup_fmap, Hi').
        rewrite Hkeys', list_lookup_fmap, Hi in H1. simpl in H1. congruence. }
      f_equal. apply Hd'.
      by destruct (Forall2_lookup_r _ _ _ _ _ Hdocs Hi) as (? & _ & _ & _ & Hjok).
    - apply lookup_ge_None_2. apply lookup_ge_None_1 in Hi.
      by rewrite (Forall2_length _ _ _ Hok'). }
  assert (Forall2 (to_write h') es kds) as Hwrite.
  { eapply snapshot_to_write; [| exact Hsnap]. lia. }
  destruct (RedisKVS_load_loop self h' es kds Hwrite (set_heap h' w2) eq_refl Hc1)
    as [Hall_ok _].
  destruct (Hall_ok Hnet1) as (w3 & Hloop & _ & _ & Hnet3 & _ & Hdb3).
  assert (∀ k, payload <$> redis_db w3 !! k = payload <$> redis_db w !! k) as Hsame.
  { intros k. rewrite Hdb3. simpl. by apply written_empty_lookup. }
  exists (VRef (length (heap_of w))), w1, w3.
  split; [done |]. split; [by rewrite (Hload _ _ self) |]. split; [done |].
  intros k. by apply RedisKVS_getitem_same.
Qed.

(** C8 as stated does not hold: "for every store contents" takes in the
    values [set] accepts that are not JSON values. After
    [set("k", {1: "a"})] the in-memory table dumps and loads without error,
    and the fresh table has [{"1": "a"}] under ["k"], which is not
    deep-equal to [{1: "a"}]. *)
Lemma dump_then_load_any_contents_fails :
  let mk := {| instance_id := 1 |} in
  let w0 := set_heap [ODict []; ODict [(AInt 1, py_str "a")]] (initial_world []) in
  (∃ w data w1 w3 v3,
     InMemoryKVS_set mk (py_str "k") (VRef 1%nat) w0 = (Ok tt, w) ∧
     world_ok w = true ∧ open_w w "kvs.json" = None ∧
     store_lookup w (AStr "k") = Some (VRef 1%nat) ∧
     dump mk (Some "kvs.json") w = (Ok data, w1) ∧
     load mk "kvs.json" (InMemoryKVS_clear mk w1).2 = (Ok tt, w3) ∧
     store_lookup w3 (AStr "k") = Some v3 ∧
     ¬ deep_equal (heap_of w3) v3 (heap_of w) (VRef 1%nat)) ∧
  ¬ (∀ (self : InMemoryKVS) fn w,
       world_ok w = true → fn ≠ "" → open_w w fn = None →
       ∃ data w1 w3,
         dump self (Some fn) w = (Ok data, w1) ∧
         load self fn (InMemoryKVS_clear self w1).2 = (Ok tt, w3) ∧
         ∀ k, match store_lookup w (AStr k), store_lookup w3 (AStr k) with
              | Some v, Some v3 => deep_equal (heap_of w3) v3 (heap_of w) v
              | None, None => True
              | _, _ => False
              end).
Proof.
  intros mk w0.
  pose (w := (InMemoryKVS_set mk (py_str "k") (VRef 1%nat) w0).2).
  pose (w1 := (dump mk (Some "kvs.json") w).2).
  pose (w3 := (load mk "kvs.json" (InMemoryKVS_clear mk w1).2).2).
  assert (InMemoryKVS_set mk (py_str "k") (VRef 1%nat) w0 = (Ok tt, w)) as Hset.
  { vm_compute. reflexivity. }
  assert (dump mk (Some "kvs.json") w = (Ok (VRef 2%nat), w1)) as Hdump.
  { vm_compute. reflexivity. }
  assert (load mk "kvs.json" (InMemoryKVS_clear mk w1).2 = (Ok tt, w3)) as Hload.
  { vm_compute. reflexivity. }
  assert (store_lookup w (AStr "k") = Some (VRef 1%nat)) as Hv.
  { vm_compute. reflexivity. }
  assert (store_lookup w3 (AStr "k") = Some (VRef 5%nat)) as Hv3.
  { vm_compute. reflexivity. }
  assert (¬ deep_equal (heap_of w3) (VRef 5%nat) (heap_of w) (VRef 1%nat)) as Hne.
  { intros H. specialize (H 1%nat). vm_compute in H. discriminate H. }
  split.
  - exists w, (VRef 2%nat), w1, w3, (VRef 5%nat).
    split; [exact Hset |]. split; [vm_compute; reflexivity |].
    split; [vm_compute; reflexivity |]. split; [exact Hv |].
    split; [exact Hdump |]. split; [exact Hload |]. split; [exact Hv3 | exact Hne].
  - intros H.
    destruct (H mk "kvs.json" w) as (data & w1' & w3' & Hd & Hl & Hall);
      [vm_compute; reflexivity | discriminate | vm_compute; reflexivity |].
    assert (w1' = w1) as -> by congruence.
    assert (w3' = w3) as -> by congruence.
    specialize (Hall "k"). rewrite Hv, Hv3 in Hall. exact (Hne Hall).
Qed.

(** C8, amended: on a store of JSON values, and when the file can be opened
    for writing, [dump(filename)] followed by [load(filename)] into a fresh
    store of the same kind — the in-memory table after [clear()], an empty
    remote store — gives a store with the same keys, each with a deep-equal
    value. *)
Theorem dump_then_load fn :
  fn ≠ "" →
  (∀ (self : InMemoryKVS) w,
     world_ok w = true → store_is_json w → open_w w fn = None →
     ∃ data w1 w3,
       dump self (Some fn) w = (Ok data, w1) ∧
       load self fn (InMemoryKVS_clear self w1).2 = (Ok tt, w3) ∧
       ∀ k, match store_lookup w (AStr k), store_lookup w3 (AStr k) with
            | Some v, Some v3 => deep_equal (heap_of w3) v3 (heap_of w) v
            | None, None => True
            | _, _ => False
            end) ∧
  (∀ (self : RedisKVS) w,
     net w = [] → db_is_json (redis_db w) → open_w w fn = None →
     ∃ data w1 w3,
       dump self (Some fn) w = (Ok data, w1) ∧
       load self fn (set_redis_db ∅ w1) = (Ok tt, w3) ∧
       (∀ k, payload <$> redis_db w3 !! k = payload <$> redis_db w !! k) ∧
       ∀ k, ∃ r wa r3 wb,
         RedisKVS_getitem self (py_str k) w = (Ok r, wa) ∧
         RedisKVS_getitem self (py_str k) w3 = (Ok r3, wb) ∧
         deep_equal (heap_of wb) r3 (heap_of wa) r).
Proof.
  intros Hfn. split.
  - intros self w Hw Hjson Hopen. by apply InMemoryKVS_dump_then_load.
  - intros self w Hnet Hdb Hopen. by apply RedisKVS_dump_then_load.
Qed.

Lemma dump_then_load_witness :
  let mk := {| instance_id := 1 |} in
  let w := set_heap [ODict [(AStr "a", VRef 1%nat); (AStr "b", py_int 2)];
                     OList [py_str "x"; py_None]] (initial_world []) in
  let rk := {| expire := JNull |} in
  let w' := set_redis_db
              {["a" := RedisEntry (JsonText (JArr [JStr "x"; JNull])) JNull]}
              (initial_world []) in
  (∃ data w1 w3,
     dump mk (Some "kvs.json") w = (Ok data, w1) ∧
     load mk "kvs.json" (InMemoryKVS_clear mk w1).2 = (Ok tt, w3) ∧
     ∀ k, match store_lookup w (AStr k), store_lookup w3 (AStr k) with
          | Some v, Some v3 => deep_equal (heap_of w3) v3 (heap_of w) v
          | None, None => True
          | _, _ => False
          end) ∧
  (∃ data w1 w3,
     dump rk (Some "kvs.json") w' = (Ok data, w1) ∧
     load rk "kvs.json" (set_redis_db ∅ w1) = (Ok tt, w3) ∧
     ∀ k, payload <$> redis_db w3 !! k = payload <$> redis_db w' !! k).
Proof.
  intros mk w rk w'.
  destruct (dump_then_load "kvs.json") as [Hmem Hredis]; [discriminate |].
  split.
  - apply Hmem; [reflexivity | | reflexivity].
    eexists. split; [reflexivity |]. repeat constructor.
  - destruct (Hredis rk w') as (data & w1 & w3 & Hd & Hl & Hs & _).
    + reflexivity.
    + intros k e He. unfold w', set_redis_db in He. simpl in He.
      apply lookup_singleton_Some in He as [<- <-].
      eexists. split; [reflexivity |]. repeat constructor.
    + reflexivity.
    + exists data, w1, w3. split; [exact Hd | split; [exact Hl | exact Hs]].
Defined.

(** * Further properties *)

(** ** The in-memory table, write by write *)

Lemma InMemoryKVS_set_Ok_inv (self : InMemoryKVS) key v w w1 :
  InMemoryKVS_set self key v w = (Ok tt, w1) →
  ∃ k doc es,
    key = py_str k ∧ json_dumps (heap_of w) v = Ok doc ∧
    store_entries w = Some es ∧
    w1 = set_heap (<[OBJECT_STORE w := ODict (dict_set (AStr k) v es)]> (heap_of w)) w.
Proof.
  unfold InMemoryKVS_set, dict_store. mrun.
  destruct (json_dumps (heap_of w) v) as [doc| |] eqn:Hd; mrun; try done.
  destruct key as [[| | |k|]|]; mrun; try done.
  destruct (heap_of w !! OBJECT_STORE w) as [[|es]|] eqn:Hs; mrun; try done.
  intros [= <-]. exists k, doc, es. split; [done |]. split; [done |].
  split; [by apply store_entries_Some | done].
Qed.

Lemma dict_get_in_keys k (es : list (atom * val)) :
  py_str k ∈ VAtom <$> es.*1 ↔ dict_get (AStr k) es ≠ None.
Proof.
  induction es as [|[k' v'] es IH].
  - simpl. split; [by intros ?%elem_of_nil | done].
  - rewrite !fmap_cons, elem_of_cons. simpl.
    destruct (key_eqb k' (AStr k)) eqn:E.
    + apply key_eqb_str in E as ->. split; [done | by left].
    + rewrite <- IH. split; [| by right].
      intros [[= <-]|?]; [| done].
      simpl in E. by rewrite bool_decide_eq_true_2 in E.
Qed.

Lemma InMemoryKVS_keys_eq (self : InMemoryKVS) w es :
  store_entries w = Some es →
  InMemoryKVS_keys self w = (Ok (VAtom <$> es.*1), w).
Proof.
  intros Hes%store_entries_Some. unfold InMemoryKVS_keys, dict_keys. mrun.
  by rewrite Hes.
Qed.

Lemma store_entries_insert w es :
  is_Some (store_entries w) →
  store_entries (set_heap (<[OBJECT_STORE w := ODict es]> (heap_of w)) w) = Some es.
Proof.
  intros [es0 Hes0%store_entries_Some]. apply store_entries_Some. simpl.
  apply list_lookup_insert_eq. by eapply lookup_lt_Some.
Qed.

(** X1: [keys()] of the in-memory backend returns the keys of the table in
    the order they were first written and leaves the world as it is. After a
    successful [set(k, v)] it returns the same list when [k] was in it, and
    the list with [k] added at the end otherwise. *)
Theorem keys_after_set (self self' : InMemoryKVS) k v w w1 :
  InMemoryKVS_set self' (py_str k) v w = (Ok tt, w1) →
  ∃ ks,
    InMemoryKVS_keys self w = (Ok ks, w) ∧
    InMemoryKVS_keys self w1 =
      (Ok (if bool_decide (py_str k ∈ ks) then ks else ks ++ [py_str k]), w1).
Proof.
  intros (k0 & doc & es & [= <-] & _ & Hes & ->)%InMemoryKVS_set_Ok_inv.
  exists (VAtom <$> es.*1). split; [by apply InMemoryKVS_keys_eq |].
  rewrite (InMemoryKVS_keys_eq self _ (dict_set (AStr k) v es))
    by (by apply store_entries_insert).
  do 2 f_equal. case_bool_decide as Hin.
  - apply dict_get_in_keys in Hin. by rewrite dict_set_keys_fst.
  - assert (dict_get (AStr k) es = None) as Hnone.
    { destruct (dict_get (AStr k) es) eqn:E; [| done].
      exfalso. apply Hin, dict_get_in_keys. by rewrite E. }
    rewrite dict_set_fresh by done. by rewrite fmap_app, fmap_app.
Qed.

Lemma keys_after_set_witness :
  let mk := {| instance_id := 1 |} in
  let w := set_heap [ODict [(AStr "a", py_int 1)]] (initial_world []) in
  ∃ w1,
    InMemoryKVS_set mk (py_str "b") (py_int 2) w = (Ok tt, w1) ∧
    ∃ ks,
      InMemoryKVS_keys mk w = (Ok ks, w) ∧
      InMemoryKVS_keys mk w1 =
        (Ok (if bool_decide (py_str "b" ∈ ks) then ks else ks ++ [py_str "b"]), w1).
Proof.
  intros mk w. eexists. split; [reflexivity |].
  apply (keys_after_set mk mk "b" (py_int 2) w). reflexivity.
Defined.

(** X2: a successful [set(k, v)] of the in-memory backend changes the entry
    of [k] in the table and nothing else: [k] is bound to [v] itself, every
    other key is bound to what it was bound to, every object other than the
    table is as it was, and so is the rest of the world. *)
Theorem set_changes_one_entry (self : InMemoryKVS) k v w w1 :
  InMemoryKVS_set self (py_str k) v w = (Ok tt, w1) →
  store_lookup w1 (AStr k) = Some v ∧
  (∀ k', k' ≠ AStr k → store_lookup w1 k' = store_lookup w k') ∧
  OBJECT_STORE w1 = OBJECT_STORE w ∧
  length (heap_of w1) = length (heap_of w) ∧
  (∀ l, l ≠ OBJECT_STORE w → heap_of w1 !! l = heap_of w !! l) ∧
  KVS w1 = KVS w ∧ settings w1 = settings w ∧ files w1 = files w ∧
  redis_connected w1 = redis_connected w ∧ redis_db w1 = redis_db w ∧
  net w1 = net w.
Proof.
  intros (k0 & doc & es & [= <-] & _ & Hes & ->)%InMemoryKVS_set_Ok_inv.
  assert (store_entries
            (set_heap (<[OBJECT_STORE w := ODict (dict_set (AStr k) v es)]>
                         (heap_of w)) w) = Some (dict_set (AStr k) v es)) as Hes1.
  { by apply store_entries_insert. }
  unfold store_lookup. rewrite Hes1, Hes. simpl.
  split; [apply dict_get_set |]. split.
  { intros k' Hne. apply dict_get_set_other.
    destruct (key_eqb (AStr k) k') eqn:E; [| done].
    rewrite key_eqb_sym in E. apply key_eqb_str in E. congruence. }
  split; [done |]. split; [apply length_insert |].
  split; [| done]. intros l Hl. by apply list_lookup_insert_ne.
Qed.

Lemma set_changes_one_entry_witness :
  let mk := {| instance_id := 1 |} in
  let w := set_heap [ODict [(AStr "a", py_int 1)]; OList []] (initial_world []) in
  ∃ w1,
    InMemoryKVS_set mk (py_str "b") (VRef 1%nat) w = (Ok tt, w1) ∧
    store_lookup w1 (AStr "b") = Some (VRef 1%nat) ∧
    store_lookup w1 (AStr "a") = Some (py_int 1).
Proof.
  intros mk w. eexists. split; [reflexivity |].
  destruct (set_changes_one_entry mk "b" (VRef 1%nat) w _ eq_refl)
    as (Hb & Ha & _).
  split; [exact Hb |]. rewrite Ha; [reflexivity | discriminate].
Defined.

(** X3: the in-memory [set] stores the caller's object, not a copy of it.
    Whatever the caller makes of that object afterwards is what the next
    [self[k]] copies and returns; the value is not checked again. *)
Theorem set_stores_the_reference (self : InMemoryKVS) k l w w1 :
  world_ok w = true → l ≠ OBJECT_STORE w →
  InMemoryKVS_set self (py_str k) (VRef l) w = (Ok tt, w1) →
  store_lookup w1 (AStr k) = Some (VRef l) ∧
  ∀ o, obj_ok (length (heap_of w1)) o = true →
    let w2 := set_heap (<[l := o]> (heap_of w1)) w1 in
    ∃ r w3,
      InMemoryKVS_getitem self (py_str k) w2 = (Ok r, w3) ∧
      heap_of w2 !! l = Some o ∧
      deep_equal (heap_of w3) r (heap_of w2) (VRef l).
Proof.
  intros Hw Hl Hset.
  pose proof (InMemoryKVS_set_world_ok self (py_str k) (VRef l) w Hw) as Hw1.
  rewrite Hset in Hw1. simpl in Hw1.
  destruct (InMemoryKVS_set_Ok_inv _ _ _ _ _ Hset)
    as (k0 & doc & es & [= <-] & Hd & Hes & ->).
  set (es1 := dict_set (AStr k) (VRef l) es) in *.
  set (h1 := <[OBJECT_STORE w := ODict es1]> (heap_of w)) in *.
  assert (store_entries (set_heap h1 w) = Some es1) as Hes1.
  { by apply store_entries_insert. }
  assert (length h1 = length (heap_of w)) as Hlen1 by apply length_insert.
  split; [unfold store_lookup; rewrite Hes1; simpl; apply dict_get_set |].
  intros o Ho w2. simpl in Ho.
  pose proof Hw1 as [Hok1 _]%world_ok_inv. simpl in Hok1.
  assert (l < length h1)%nat as Hlt.
  { apply json_dumps_val_ok in Hd. simpl in Hd.
    apply bool_decide_eq_true in Hd. lia. }
  assert (store_entries w2 = Some es1) as Hes2.
  { apply store_entries_Some. simpl. rewrite list_lookup_insert_ne by done.
    by apply store_entries_Some in Hes1. }
  assert (world_ok w2 = true) as Hw2.
  { apply world_ok_inv. split; [by apply heap_ok_insert | eauto]. }
  destruct (InMemoryKVS_getitem_stored self (AStr k) (VRef l) w2 es1 Hw2 Hes2)
    as (r & h3 & Hget & _ & _ & _ & Heq & _).
  { unfold es1. by rewrite dict_get_set. }
  exists r, (set_heap h3 w2). split; [done |].
  split; [simpl; by apply list_lookup_insert_eq | done].
Qed.

Lemma set_stores_the_reference_witness :
  let mk := {| instance_id := 1 |} in
  let w := set_heap [ODict []; OList [py_int 1]] (initial_world []) in
  ∃ w1,
    InMemoryKVS_set mk (py_str "k") (VRef 1%nat) w = (Ok tt, w1) ∧
    let w2 := set_heap (<[1%nat := OList [py_int 1; VAtom (ABytes "x")]]>
                          (heap_of w1)) w1 in
    ∃ r w3,
      InMemoryKVS_getitem mk (py_str "k") w2 = (Ok r, w3) ∧
      heap_of w2 !! 1%nat = Some (OList [py_int 1; VAtom (ABytes "x")]) ∧
      deep_equal (heap_of w3) r (heap_of w2) (VRef 1%nat).
Proof.
  intros mk w. eexists. split; [reflexivity |].
  edestruct (set_stores_the_reference mk "k" 1%nat w) as [_ H];
    [reflexivity | simpl; lia | reflexivity |].
  apply (H (OList [py_int 1; VAtom (ABytes "x")])). reflexivity.
Defined.

(** X4: [clear()] binds [OBJECT_STORE] to a new, empty dict. It empties
    nothing: the dict that was the table, and every other object, is as it
    was, also after later writes, which go to the new dict. [keys()] after
    [clear()] is empty. *)
Theorem clear_rebinds_the_table (self : InMemoryKVS) w :
  ∃ wc,
    InMemoryKVS_clear self w = (Ok tt, wc) ∧
    OBJECT_STORE wc = length (heap_of w) ∧
    InMemoryKVS_keys self wc = (Ok [], wc) ∧
    (∀ l, (l < length (heap_of w))%nat → heap_of wc !! l = heap_of w !! l) ∧
    ∀ (self' : InMemoryKVS) k v w2,
      InMemoryKVS_set self' (py_str k) v wc = (Ok tt, w2) →
      InMemoryKVS_keys self w2 = (Ok [py_str k], w2) ∧
      ∀ l, (l < length (heap_of w))%nat → heap_of w2 !! l = heap_of w !! l.
Proof.
  eexists. split; [apply InMemoryKVS_clear_eq |].
  set (wc := set_OBJECT_STORE _ _).
  assert (store_entries wc = Some []) as Hes.
  { apply store_entries_Some. simpl.
    by rewrite lookup_app_r, Nat.sub_diag by done. }
  assert (∀ l, (l < length (heap_of w))%nat →
               heap_of wc !! l = heap_of w !! l) as Hold.
  { intros l Hl. simpl. by apply lookup_app_l. }
  split; [done |]. split; [by rewrite (InMemoryKVS_keys_eq self wc []) |].
  split; [done |].
  intros self' k v w2 (k0 & doc & es & [= <-] & _ & Hes' & ->)%InMemoryKVS_set_Ok_inv.
  assert (es = []) as -> by congruence.
  split.
  - rewrite (InMemoryKVS_keys_eq self _ [(AStr k, v)]); [done |].
    apply (store_entries_insert wc). eauto.
  - intros l Hl. simpl. rewrite list_lookup_insert_ne by lia.
    by apply lookup_app_l.
Qed.

(** A [set] of the in-memory backend that does not return leaves the world
    as it was. *)
Lemma InMemoryKVS_set_failed (self : InMemoryKVS) key v w o w1 :
  is_Some (store_entries w) →
  InMemoryKVS_set self key v w = (o, w1) → o = Ok tt ∨ w1 = w.
Proof.
  intros [es Hes%store_entries_Some].
  unfold InMemoryKVS_set, dict_store. mrun.
  destruct (json_dumps (heap_of w) v); mrun;
    [| intros [= <- <-]; by right | intros [= <- <-]; by right].
  destruct (is_str key) eqn:Hk; mrun; [| intros [= <- <-]; by right].
  destruct key as [[]|]; try done. mrun. rewrite Hes. mrun.
  intros [= <- <-]. by left.
Qed.

Lemma InMemoryKVS_step_keys (c : InMemoryKVS * call) w :
  world_ok w = true → keys_are_strings w → keys_are_strings (run_call w c).
Proof.
  intros Hw (es & Hes & Hall). destruct c as [self [key value|key| |]];
    unfold run_call; simpl.
  - destruct (InMemoryKVS_set self key value w) as [o w1] eqn:Hset.
    destruct (InMemoryKVS_set_failed _ _ _ _ _ _ (mk_is_Some _ _ Hes) Hset)
      as [-> | ->]; [| by exists es].
    destruct (InMemoryKVS_set_Ok_inv _ _ _ _ _ Hset)
      as (k & doc & es' & -> & _ & Hes' & ->).
    assert (es' = es) as -> by congruence.
    exists (dict_set (AStr k) value es). split.
    + apply store_entries_insert. eauto.
    + by apply (dict_set_Forall (λ kv, atom_is_str kv.1 = true)).
  - destruct key as [k|l].
    + destruct (InMemoryKVS_getitem_stored self k _ w es Hw Hes eq_refl)
        as (r & h' & Hget & _ & _ & Hes' & _).
      rewrite Hget. by exists es.
    + by exists es.
  - rewrite InMemoryKVS_keys_world by done. by exists es.
  - exists []. split; [| constructor].
    by destruct (InMemoryKVS_clear_world_ok self w Hw).
Qed.

(** X5: the keys of the in-memory table are strings, and stay so: whatever
    calls are made on whatever instances, returning or raising, every key of
    the table is a [str] afterwards, and [keys()] returns strings only. *)
Theorem keys_stay_strings calls w :
  world_ok w = true → keys_are_strings w →
  keys_are_strings (run_calls calls w) ∧
  ∀ self : InMemoryKVS, ∃ ks,
    InMemoryKVS_keys self (run_calls calls w) = (Ok ks, run_calls calls w) ∧
    Forall (λ key, is_str key = true) ks.
Proof.
  intros Hw Hkeys.
  assert (keys_are_strings (run_calls calls w)) as Hfinal.
  { revert w Hw Hkeys. induction calls as [|c calls IH]; intros w Hw Hkeys; [done |].
    apply IH.
    - exact (run_calls_world_ok [c] w Hw).
    - by apply InMemoryKVS_step_keys. }
  split; [done |]. intros self. destruct Hfinal as (es & Hes & Hall).
  exists (VAtom <$> es.*1). split; [by apply InMemoryKVS_keys_eq |].
  apply Forall_fmap, Forall_fmap. eapply Forall_impl; [exact Hall |].
  intros [[] v]; done.
Qed.

Lemma keys_stay_strings_witness :
  let mk1 := {| instance_id := 1 |} in
  let mk2 := {| instance_id := 2 |} in
  let calls := [(mk1, CallSet (py_str "a") (py_int 1));
                (mk2, CallSet (py_int 5) (py_int 1));
                (mk2, CallGetitem (py_str "a"));
                (mk1, CallSet (py_str "b") (VAtom (ABytes "x")))] in
  keys_are_strings (run_calls calls (initial_world [])) ∧
  ∃ ks, InMemoryKVS_keys mk1 (run_calls calls (initial_world [])) =
          (Ok ks, run_calls calls (initial_world [])) ∧
        Forall (λ key, is_str key = true) ks.
Proof.
  intros mk1 mk2 calls.
  destruct (keys_stay_strings calls (initial_world [])) as [H1 H2].
  - reflexivity.
  - exists []. split; [reflexivity | constructor].
  - split; [exact H1 | apply H2].
Defined.

(** ** What [json.dumps] accepts *)

Lemma mapM_out_Ok_inv {A B} (f : A → outcome B) l k :
  mapM_out f l = Ok k → Forall2 (λ x y, f x = Ok y) l k.
Proof.
  revert k. induction l as [|x l IH]; intros k; simpl.
  - intros [= <-]. constructor.
  - destruct (f x) as [y| |] eqn:Hx; simpl; try done.
    destruct (mapM_out f l) as [ys| |]; simpl; try done.
    intros [= <-]. constructor; [done | by apply IH].
Qed.

Lemma mapM_out_Raise_inv {A B} (f : A → outcome B) l e :
  mapM_out f l = Raise e → ∃ x, x ∈ l ∧ f x = Raise e.
Proof.
  induction l as [|x l IH]; simpl; [done |].
  destruct (f x) as [y| |] eqn:Hx; simpl; try done.
  - destruct (mapM_out f l) as [ys| |]; simpl; try done.
    intros [= <-]. destruct IH as (x' & Hin & Hx'); [done |].
    exists x'. split; [by right | done].
  - intros [= <-]. exists x. split; [by left | done].
Qed.

Lemma mapM_out_not_Stuck {A B} (f : A → outcome B) l :
  (∀ x, x ∈ l → f x ≠ Stuck) → mapM_out f l ≠ Stuck.
Proof.
  induction l as [|x l IH]; intros H; simpl; [done |].
  destruct (f x) as [y| |] eqn:Hx; simpl; try done.
  - destruct (mapM_out f l) as [ys| |] eqn:Hl; simpl; try done.
    exfalso. apply IH; [| done]. intros x' Hx'. apply H. by right.
  - exfalso. apply (H x); [by left | done].
Qed.

(** What the encoder has done when it returns for a container. *)
Lemma encode_ref_Ok fuel h ms l doc :
  encode fuel h ms (VRef l) = Ok doc →
  (l ∉ ms) ∧ ∃ n o, fuel = S n ∧ h !! l = Some o ∧
    ∀ x, x ∈ children o → ∃ d, encode n h (l :: ms) x = Ok d.
Proof.
  destruct fuel as [|n]; simpl; case_bool_decide as Hin; try done.
  destruct (h !! l) as [[items|entries]|] eqn:Hl; try done; unfold omap, obind.
  - destruct (mapM_out _ items) as [docs| |] eqn:Hm; try done. intros _.
    split; [done |]. exists n, (OList items). split; [done |]. split; [done |].
    intros x [i Hi]%list_elem_of_lookup. simpl in Hi.
    apply mapM_out_Ok_inv in Hm.
    destruct (Forall2_lookup_l _ _ _ _ _ Hm Hi) as (d & _ & Hd). eauto.
  - destruct (mapM_out _ entries) as [docs| |] eqn:Hm; try done. intros _.
    split; [done |]. exists n, (ODict entries). split; [done |]. split; [done |].
    intros x Hx. simpl in Hx. apply list_elem_of_fmap in Hx as (kv & -> & Hkv).
    apply list_elem_of_lookup in Hkv as [i Hi].
    apply mapM_out_Ok_inv in Hm.
    destruct (Forall2_lookup_l _ _ _ _ _ Hm Hi) as (d & _ & Hd).
    simpl in Hd. unfold obind in Hd.
    destruct (encode_key kv.1); try done.
    destruct (encode n h (l :: ms) kv.2); try done. eauto.
Qed.

(** The encoder returns only when it has met none of its markers. *)
Lemma encode_Ok_markers h : ∀ fuel v ms doc l,
  encode fuel h ms v = Ok doc → reachable h v l → l ∉ ms.
Proof.
  induction fuel as [|n IH]; intros v ms doc l Henc Hr.
  - destruct Hr; by apply encode_ref_Ok in Henc as (_ & ? & ? & ? & _).
  - destruct Hr as [l|l o x l' Ho Hx Hr];
      apply encode_ref_Ok in Henc as (Hnot & n' & o' & [= <-] & Ho' & Hch);
      [done |].
    assert (o' = o) as -> by congruence.
    destruct (Hch x Hx) as [d Hd].
    pose proof (IH _ _ _ _ Hd Hr) as Hl'. by apply not_elem_of_cons in Hl' as [_ ?].
Qed.

(** Every container of a value the encoder returns for has been encoded. *)
Lemma encode_Ok_inner h : ∀ fuel v ms doc l,
  encode fuel h ms v = Ok doc → reachable h v l →
  ∃ fuel' ms' doc', encode fuel' h ms' (VRef l) = Ok doc'.
Proof.
  induction fuel as [|n IH]; intros v ms doc l Henc Hr.
  - destruct Hr; by apply encode_ref_Ok in Henc as (_ & ? & ? & ? & _).
  - destruct Hr as [l|l o x l' Ho Hx Hr]; [eauto |].
    apply encode_ref_Ok in Henc as (Hnot & n' & o' & [= <-] & Ho' & Hch).
    assert (o' = o) as -> by congruence.
    destruct (Hch x Hx) as [d Hd]. by eapply IH.
Qed.

Lemma encode_Ok_acyclic h fuel ms v doc :
  encode fuel h ms v = Ok doc → acyclic h v.
Proof.
  intros Henc l o x Hr Ho Hx Hback.
  destruct (encode_Ok_inner h _ _ _ _ l Henc Hr) as (fuel' & ms' & doc' & Hl).
  apply encode_ref_Ok in Hl as (_ & n & o' & _ & Ho' & Hch).
  assert (o' = o) as -> by congruence.
  destruct (Hch x Hx) as [d Hd].
  apply (encode_Ok_markers h _ _ _ _ l Hd Hback). by left.
Qed.

Lemma encode_key_not_Stuck k : encode_key k ≠ Stuck.
Proof. by destruct k as [|[]| | |]. Qed.

Lemma bounded_NoDup_length (ms : list nat) n :
  NoDup ms → (∀ l, l ∈ ms → (l < n)%nat) → (length ms ≤ n)%nat.
Proof.
  intros Hnd Hlt. trans (length (seq 0 n)); [| by rewrite length_seq].
  apply submseteq_length, NoDup_submseteq; [done |].
  intros l Hl. apply elem_of_seq. specialize (Hlt l Hl). lia.
Qed.

(** On a well-formed heap the encoder returns or raises: before the fuel
    is used up, a container is met a second time. *)
Lemma encode_not_Stuck h :
  heap_ok h = true → ∀ fuel v ms,
  NoDup ms → (∀ l, l ∈ ms → (l < length h)%nat) →
  (length h ≤ fuel + length ms)%nat → val_ok (length h) v = true →
  encode fuel h ms v ≠ Stuck.
Proof.
  intros Hok. induction fuel as [|n IH]; intros [a|l] ms Hnd Hlt Hlen Hv.
  - by destruct a.
  - simpl. case_bool_decide as Hin; [done |]. exfalso.
    apply bool_decide_eq_true in Hv.
    assert (length (l :: ms) ≤ length h)%nat as Hle.
    { apply bounded_NoDup_length; [by constructor |].
      intros l' [-> |Hl']%elem_of_cons; [done | by apply Hlt]. }
    simpl in Hle. lia.
  - by destruct a.
  - simpl. case_bool_decide as Hin; [done |].
    apply bool_decide_eq_true in Hv.
    destruct (lookup_lt_is_Some_2 h l Hv) as [o Ho]. rewrite Ho.
    pose proof (obj_ok_children _ _ (heap_ok_lookup _ _ _ Hok Ho)) as Hch.
    rewrite Forall_forall in Hch.
    assert (∀ x, x ∈ children o → encode n h (l :: ms) x ≠ Stuck) as Hsub.
    { intros x Hx. apply IH; [by constructor | | simpl; lia | by apply Hch].
      intros l' [-> |Hl']%elem_of_cons; [done | by apply Hlt]. }
    destruct o as [items|entries]; unfold omap, obind; simpl in Hsub.
    + destruct (mapM_out _ items) eqn:Hm; try done.
      by apply mapM_out_not_Stuck in Hm.
    + destruct (mapM_out _ entries) eqn:Hm; try done.
      apply mapM_out_not_Stuck in Hm; [done |].
      intros kv Hkv. unfold obind.
      destruct (encode_key kv.1) eqn:Hk; try done.
      * destruct (encode n h (l :: ms) kv.2) eqn:He; try done.
        exfalso. apply (Hsub kv.2); [| done]. apply list_elem_of_fmap. eauto.
      * by apply encode_key_not_Stuck in Hk.
Qed.

(** The errors of the encoder. *)
Lemma encode_Raise h : ∀ fuel v ms e,
  encode fuel h ms v = Raise e →
  (∃ msg, e = TypeError msg) ∨ (∃ msg, e = ValueError msg).
Proof.
  induction fuel as [|n IH]; intros [a|l] ms e.
  - destruct a; simpl; try done. intros [= <-]. eauto.
  - simpl. case_bool_decide; [| done]. intros [= <-]. eauto.
  - destruct a; simpl; try done. intros [= <-]. eauto.
  - simpl. case_bool_decide; [intros [= <-]; eauto |].
    destruct (h !! l) as [[items|entries]|]; try done; unfold omap, obind.
    + destruct (mapM_out _ items) eqn:Hm; try done. intros [= <-].
      apply mapM_out_Raise_inv in Hm as (x & _ & Hx). by eapply IH.
    + destruct (mapM_out _ entries) eqn:Hm; try done. intros [= <-].
      apply mapM_out_Raise_inv in Hm as (kv & _ & Hkv). unfold obind in Hkv.
      destruct (encode_key kv.1) eqn:Hk; try done.
      * destruct (encode n h (l :: ms) kv.2) eqn:He; try done.
        injection Hkv as <-. by eapply IH.
      * injection Hkv as <-. destruct kv.1 as [|[]| | |]; try done.
        injection Hk as <-. eauto.
Qed.

Lemma json_dumps_answers h v :
  heap_ok h = true → val_ok (length h) v = true →
  (∃ doc, json_dumps h v = Ok doc ∧ acyclic h v) ∨
  (∃ msg, json_dumps h v = Raise (TypeError msg)) ∨
  (∃ msg, json_dumps h v = Raise (ValueError msg)).
Proof.
  intros Hok Hv. unfold json_dumps.
  destruct (encode (length h) h [] v) as [doc|e|] eqn:Henc.
  - left. exists doc. split; [done |]. by eapply encode_Ok_acyclic.
  - right. destruct (encode_Raise _ _ _ _ _ Henc) as [[msg ->]|[msg ->]]; eauto.
  - exfalso. eapply (encode_not_Stuck h Hok); [constructor | | | done | done].
    + by intros l ?%elem_of_nil.
    + simpl. lia.
Qed.

(** X6: [set] always answers, on both backends: it returns, having taken a
    string key and a value in which no list or dict contains itself, or it
    raises the [TypeError] or [ValueError] of [json.dumps], or, for a value
    that serializes and a key that is not a string, the [AssertionError].
    A value that contains itself is never stored. When [set] raises, the
    in-memory world is as before. *)
Theorem set_answers key v w :
  world_ok w = true → val_ok (length (heap_of w)) v = true →
  (∀ self : InMemoryKVS,
     (∃ w1, InMemoryKVS_set self key v w = (Ok tt, w1) ∧
            is_str key = true ∧ acyclic (heap_of w) v) ∨
     (∃ msg, InMemoryKVS_set self key v w = (Raise (TypeError msg), w)) ∨
     (∃ msg, InMemoryKVS_set self key v w = (Raise (ValueError msg), w)) ∨
     (InMemoryKVS_set self key v w =
        (Raise (AssertionError "KVS keys must be strings"), w) ∧
      is_str key = false)) ∧
  (∀ self : RedisKVS, net w = [] →
     (∃ w1, RedisKVS_set self key v w = (Ok tt, w1) ∧
            is_str key = true ∧ acyclic (heap_of w) v) ∨
     (∃ msg w1, RedisKVS_set self key v w = (Raise (TypeError msg), w1)) ∨
     (∃ msg w1, RedisKVS_set self key v w = (Raise (ValueError msg), w1)) ∨
     (∃ w1, RedisKVS_set self key v w =
              (Raise (AssertionError "KVS keys must be strings"), w1) ∧
            is_str key = false)).
Proof.
  intros [Hok [es Hes]]%world_ok_inv Hv.
  destruct (json_dumps_answers _ _ Hok Hv)
    as [(doc & Hd & Hac)|[[msg Hd]|[msg Hd]]].
  - destruct (is_str key) eqn:Hk.
    + destruct key as [[| | |k|]|]; try done. split.
      * intros self. left. eexists. split; [| done].
        by eapply (InMemoryKVS_set_ok self k v w doc es).
      * intros self Hnet. left. eexists. split; [| done].
        by eapply (RedisKVS_set_ok self k v w doc).
    + split.
      * intros self. do 3 right. split; [| done].
        by eapply InMemoryKVS_set_key.
      * intros self Hnet. do 3 right. eexists. split; [| done].
        by eapply RedisKVS_set_key.
  - split.
    + intros self. right. left. exists msg. by apply InMemoryKVS_set_raise.
    + intros self Hnet. right. left. exists msg. eexists.
      by apply RedisKVS_set_raise.
  - split.
    + intros self. right. right. left. exists msg. by apply InMemoryKVS_set_raise.
    + intros self Hnet. right. right. left. exists msg. eexists.
      by apply RedisKVS_set_raise.
Qed.

Lemma set_answers_witness :
  let mk := {| instance_id := 1 |} in
  let w := set_heap [ODict []; OList [py_int 1; VRef 1%nat]] (initial_world []) in
  ∃ msg, InMemoryKVS_set mk (py_str "k") (VRef 1%nat) w = (Raise (ValueError msg), w).
Proof.
  intros mk w.
  destruct (set_answers (py_str "k") (VRef 1%nat) w) as [H _];
    [reflexivity | reflexivity |].
  destruct (H mk) as [(w1 & Hs & _)|[[msg Hs]|[[msg Hs]|[Hs _]]]].
  - vm_compute in Hs. discriminate Hs.
  - vm_compute in Hs. discriminate Hs.
  - exists msg. exact Hs.
  - vm_compute in Hs. discriminate Hs.
Defined.

(** ** Values that are accepted but are not JSON values *)

(** X7: for every value [v] that [set] accepts, a JSON value or not (a dict
    with integer keys is accepted): the in-memory backend gives back a value
    deep-equal to [v]; the Redis backend gives back a JSON value, the one
    denoting the document [json.dumps(v)] wrote when that has no repeated
    member name, so that keys that were not strings come back as strings. *)
Theorem get_after_set_of_accepted_value k v w doc :
  json_dumps (heap_of w) v = Ok doc →
  (∀ self self' : InMemoryKVS, world_ok w = true →
     ∃ w1 r w2,
       InMemoryKVS_set self (py_str k) v w = (Ok tt, w1) ∧
       InMemoryKVS_getitem self' (py_str k) w1 = (Ok r, w2) ∧
       deep_equal (heap_of w2) r (heap_of w2) v) ∧
  (∀ self self' : RedisKVS, net w = [] →
     ∃ w1 r w2,
       RedisKVS_set self (py_str k) v w = (Ok tt, w1) ∧
       RedisKVS_getitem self' (py_str k) w1 = (Ok r, w2) ∧
       is_json (heap_of w2) r = true ∧
       (json_ok doc →
        snapshot (length (heap_of w2)) (heap_of w2) r = Some doc)).
Proof.
  intros Hd. split.
  - intros self self' Hw.
    destruct (InMemoryKVS_set_getitem self self' k v w doc Hw Hd)
      as (es & h1 & h2 & r & _ & _ & Hset & _ & _ & Hget & _ & _ & Heq & _).
    eauto 10.
  - intros self self' Hnet.
    pose proof (decode_spec doc (heap_of w)) as Hdec.
    destruct (decode doc (heap_of w)) as [r h2] eqn:Edec.
    destruct Hdec as (Hext & _ & _ & _ & [doc' Hsome] & Hsame). simpl in *.
    eexists _, r, _. split; [by apply RedisKVS_set_ok |]. split.
    + rewrite RedisKVS_getitem_eq by done. simpl.
      rewrite lookup_insert_eq. simpl. rewrite Edec. reflexivity.
    + simpl. split.
      * apply is_json_snapshot. exists doc'.
        eapply snapshot_mono; [| exact Hsome]. lia.
      * intros Hjok. eapply snapshot_mono; [| by apply Hsame]. lia.
Qed.

Lemma get_after_set_of_accepted_value_witness :
  let v := VRef 1%nat in
  let w := set_heap [ODict []; ODict [(AInt 1, py_str "a")]] (initial_world []) in
  is_json (heap_of w) v = false ∧
  (∃ w1 r w2,
     InMemoryKVS_set {| instance_id := 1 |} (py_str "k") v w = (Ok tt, w1) ∧
     InMemoryKVS_getitem {| instance_id := 2 |} (py_str "k") w1 = (Ok r, w2) ∧
     deep_equal (heap_of w2) r (heap_of w2) v) ∧
  (∃ w1 r w2,
     RedisKVS_set {| expire := JNull |} (py_str "k") v w = (Ok tt, w1) ∧
     RedisKVS_getitem {| expire := JNull |} (py_str "k") w1 = (Ok r, w2) ∧
     snapshot (length (heap_of w2)) (heap_of w2) r = Some (JObj [("1", JStr "a")])).
Proof.
  intros v w. split; [reflexivity |].
  destruct (get_after_set_of_accepted_value "k" v w (JObj [("1", JStr "a")]))
    as [Hmem Hredis]; [reflexivity |].
  split.
  - apply Hmem. reflexivity.
  - destruct (Hredis {| expire := JNull |} {| expire := JNull |})
      as (w1 & r & w2 & Hset & Hget & _ & Hdoc); [reflexivity |].
    exists w1, r, w2. split; [exact Hset |]. split; [exact Hget |].
    apply Hdoc. constructor.
    + apply (bool_decide_eq_true_1 (NoDup _)). reflexivity.
    + repeat constructor.
Defined.

(** X8: reading from the Redis backend writes nothing, however the call
    ends and whatever the network does: [self[key]], [keys()] and [dump]
    leave the remote store as it was, and the first two leave every file as
    it was. *)
Theorem redis_reads_write_nothing (self : RedisKVS) w :
  (∀ key, redis_db (RedisKVS_getitem self key w).2 = redis_db w ∧
          files (RedisKVS_getitem self key w).2 = files w) ∧
  (redis_db (RedisKVS_keys self w).2 = redis_db w ∧
   files (RedisKVS_keys self w).2 = files w) ∧
  (∀ filename, redis_db (dump self filename w).2 = redis_db w).
Proof.
  split; [| split].
  - intros key. split; by apply keeps_RedisKVS_getitem.
  - split; by apply keeps_RedisKVS_keys.
  - intros filename. apply (keeps_dump redis_db); try done.
    + by apply keeps_RedisKVS_keys.
    + intros key. by apply keeps_RedisKVS_getitem.
Qed.

(** X9: [dump] writes to no file but the one it is given, and to none when
    it is given [None] or the empty string, on both backends and however the
    call ends (also when [json.dump] fails half way). *)
Theorem dump_writes_one_file filename w :
  (∀ self : InMemoryKVS,
     (∀ fn, filename ≠ Some fn →
            files (dump self filename w).2 !! fn = files w !! fn) ∧
     (filename = None ∨ filename = Some "" →
      files (dump self filename w).2 = files w)) ∧
  (∀ self : RedisKVS,
     (∀ fn, filename ≠ Some fn →
            files (dump self filename w).2 !! fn = files w !! fn) ∧
     (filename = None ∨ filename = Some "" →
      files (dump self filename w).2 = files w)).
Proof.
  split; intros self; split.
  - intros fn Hfn. apply (keeps_dump (λ w, files w !! fn)); try done.
    + by apply keeps_InMemoryKVS_keys.
    + intros key. by apply keeps_InMemoryKVS_getitem.
    + intros fn0 -> _ x w0. simpl. apply lookup_insert_ne. congruence.
  - intros Hnone. apply (keeps_dump files); try done.
    + by apply keeps_InMemoryKVS_keys.
    + intros key. by apply keeps_InMemoryKVS_getitem.
    + intros fn0 -> Hne. by destruct Hnone as [|[= ->]].
  - intros fn Hfn. apply (keeps_dump (λ w, files w !! fn)); try done.
    + by apply keeps_RedisKVS_keys.
    + intros key. by apply keeps_RedisKVS_getitem.
    + intros fn0 -> _ x w0. simpl. apply lookup_insert_ne. congruence.
  - intros Hnone. apply (keeps_dump files); try done.
    + by apply keeps_RedisKVS_keys.
    + intros key. by apply keeps_RedisKVS_getitem.
    + intros fn0 -> Hne. by destruct Hnone as [|[= ->]].
Qed.

(** ** [dump] of the in-memory backend, whatever the table holds *)

Lemma unfold_transfer h h' : ∀ d v,
  (∀ l, reachable h v l → h' !! l = h !! l) → unfold d h' v = unfold d h v.
Proof.
  induction d as [|d IH]; intros [a|l] Hfr; simpl; try done.
  rewrite (Hfr l) by constructor.
  destruct (h !! l) as [[items|entries]|] eqn:Ho; [| | done]; f_equal.
  - apply map_ext_in. intros x Hx%list_elem_of_In. apply IH.
    intros l' Hl'. apply Hfr. by eapply reach_step.
  - apply map_ext_in. intros [k x] Hx%list_elem_of_In. simpl. f_equal. apply IH.
    intros l' Hl'. apply Hfr. eapply reach_step; [done | | done].
    simpl. apply list_elem_of_fmap. by exists (k, x).
Qed.

Lemma reachable_transfer h h' : ∀ v l,
  reachable h' v l → (∀ l0, reachable h v l0 → h' !! l0 = h !! l0) →
  reachable h v l.
Proof.
  induction 1 as [l|l o x l' Ho Hx Hr IH]; intros Hfr; [constructor |].
  rewrite (Hfr l) in Ho by constructor.
  eapply reach_step; [done | done |]. apply IH.
  intros l0 Hl0. apply Hfr. by eapply reach_step.
Qed.

(** A read through the in-memory backend, with all that is known of the
    copy. *)
Lemma InMemoryKVS_getitem_copy (self : InMemoryKVS) k v w es :
  world_ok w = true → store_entries w = Some es →
  default py_None (dict_get k es) = v →
  ∃ r h',
    InMemoryKVS_getitem self (VAtom k) w = (Ok r, set_heap h' w) ∧
    extends (heap_of w) h' ∧ world_ok (set_heap h' w) = true ∧
    val_ok (length h') r = true ∧
    deep_equal h' r (heap_of w) v ∧
    (∀ l, reachable h' r l → (length (heap_of w) ≤ l)%nat).
Proof.
  intros Hw Hes Hv. pose proof Hw as [Hok _]%world_ok_inv.
  assert (val_ok (length (heap_of w)) v = true) as Hvok.
  { destruct (dict_get k es) as [v'|] eqn:E; simpl in Hv; subst; [| done].
    by eapply store_value_ok. }
  destruct (copy_deepcopy_spec w v Hok Hvok)
    as (r & h' & Hcopy & Hext & Hok' & Hr & Heq & Hfresh).
  destruct (world_ok_extends w h' Hw Hext Hok') as [Hw' Hes'].
  exists r, h'. rewrite (InMemoryKVS_getitem_eq self k w es Hes), Hv.
  split; [done |]. split; [done |]. split; [done |]. split; [done |]. by split.
Qed.

Lemma dumped_step (self : InMemoryKVS) h0 s0 es0 pre k v rest acc w :
  heap_ok h0 = true → h0 !! s0 = Some (ODict es0) →
  es0 = pre ++ (k, v) :: rest → dumped h0 s0 pre acc w →
  ∃ r w',
    (x <- InMemoryKVS_getitem self (VAtom k) ;;
     dict_store (length h0) (VAtom k) x) w = (Ok tt, w') ∧
    dumped h0 s0 (pre ++ [(k, v)]) (acc ++ [(k, r)]) w'.
Proof.
  intros Hok0 Hs0 Hes0 [Hw Hstore Hold Hlen Hdata Hkeys Hvals].
  pose proof (lookup_lt_Some _ _ _ Hs0) as Hslt.
  pose proof Hw as [Hokw _]%world_ok_inv.
  assert (store_entries w = Some es0) as Hes.
  { apply store_entries_Some. by rewrite Hstore, Hold. }
  assert (dict_ok es0 = true) as Hdok.
  { apply (obj_ok_dict (length h0)). by apply (heap_ok_lookup h0 s0). }
  assert (dict_get k es0 = Some v) as Hget.
  { apply (dict_get_lookup es0 (length pre)); [done |].
    by rewrite Hes0, lookup_app_r, Nat.sub_diag. }
  assert (val_ok (length h0) v = true) as Hv.
  { pose proof (obj_ok_children _ _ (heap_ok_lookup _ _ _ Hok0 Hs0)) as Hch.
    rewrite Forall_forall in Hch. apply Hch. simpl. by eapply dict_get_Some_in. }
  destruct (InMemoryKVS_getitem_copy self k v w es0 Hw Hes)
    as (r & h1 & Hgetitem & [Hlen1 Hfr1] & Hw1 & Hr & Heq & Hfresh).
  { by rewrite Hget. }
  pose proof Hw1 as [Hok1 _]%world_ok_inv. simpl in Hok1.
  assert (h1 !! length h0 = Some (ODict acc)) as Hdata1 by (by rewrite Hfr1).
  assert (dict_set k r acc = acc ++ [(k, r)]) as Hset.
  { apply dict_set_fresh. apply (dict_get_keys k pre acc); [done |].
    rewrite Hes0 in Hdok. by eapply dict_ok_middle. }
  set (h2 := <[length h0 := ODict (acc ++ [(k, r)])]> h1).
  assert (length h2 = length h1) as Hlen2 by apply length_insert.
  assert (∀ l, l ≠ length h0 → h2 !! l = h1 !! l) as Hfr2.
  { intros l Hl. unfold h2. by rewrite list_lookup_insert_ne. }
  assert (heap_ok h2 = true) as Hok2.
  { apply heap_ok_insert; [done |]. rewrite <- Hset.
    apply obj_ok_dict_set; [by eapply heap_ok_lookup | done]. }
  exists r, (set_heap h2 w). split.
  { unfold bind. rewrite Hgetitem. unfold dict_store, bind, read. simpl.
    rewrite Hdata1. unfold write. simpl. by rewrite Hset. }
  split; simpl.
  - apply world_ok_inv. split; [done |]. exists es0. apply store_entries_Some.
    simpl. rewrite Hfr2 by lia. rewrite Hfr1 by lia.
    by rewrite Hstore, Hold.
  - done.
  - intros l Hl. rewrite Hfr2 by lia. rewrite Hfr1 by lia. by apply Hold.
  - lia.
  - unfold h2. apply list_lookup_insert_eq. lia.
  - by rewrite !fmap_app, Hkeys.
  - apply Forall2_app.
    + pose proof (obj_ok_children _ _ (heap_ok_lookup _ _ _ Hokw Hdata)) as Hch.
      simpl in Hch. rewrite Forall_forall in Hch.
      apply Forall2_same_length_lookup. split; [by eapply Forall2_length |].
      intros i e e' Hi Hi'.
      destruct (Forall2_lookup_lr _ _ _ _ _ _ Hvals Hi Hi') as [Heq' Hfresh'].
      assert (val_ok (length (heap_of w)) e'.2 = true) as Hv'.
      { apply Hch. apply list_elem_of_fmap. exists e'. split; [done |].
        by eapply list_elem_of_lookup_2. }
      assert (∀ l, reachable (heap_of w) e'.2 l → h2 !! l = heap_of w !! l) as Hsame.
      { intros l Hl. pose proof (Hfresh' l Hl).
        pose proof (reachable_closed _ Hokw _ _ Hl Hv').
        rewrite Hfr2 by lia. by apply Hfr1. }
      split.
      * intros d. rewrite <- (Heq' d). by apply unfold_transfer.
      * intros l Hl. apply Hfresh'. by eapply reachable_transfer.
    + constructor; [| constructor]. simpl.
      assert (∀ l, reachable h1 r l → h2 !! l = h1 !! l) as Hsame.
      { intros l Hl. apply Hfresh in Hl. apply Hfr2. lia. }
      split.
      * intros d. rewrite (unfold_transfer h1 h2 d r Hsame), (Heq d).
        by apply unfold_extends.
      * intros l Hl. apply (reachable_transfer h1 h2) in Hl; [| done].
        apply Hfresh in Hl. lia.
Qed.

Lemma dumped_loop (self : InMemoryKVS) h0 s0 es0 :
  heap_ok h0 = true → h0 !! s0 = Some (ODict es0) →
  ∀ rest pre acc w,
    es0 = pre ++ rest → dumped h0 s0 pre acc w →
    ∃ w' acc',
      for_each (VAtom <$> rest.*1)
        (λ key, x <- InMemoryKVS_getitem self key ;;
                dict_store (length h0) key x) w = (Ok tt, w') ∧
      dumped h0 s0 es0 acc' w'.
Proof.
  intros Hok0 Hs0. induction rest as [|[k v] rest IH]; intros pre acc w Hes0 HJ.
  - rewrite app_nil_r in Hes0. subst pre. by exists w, acc.
  - destruct (dumped_step self h0 s0 es0 pre k v rest acc w Hok0 Hs0 Hes0 HJ)
      as (r & w1 & Hstep & HJ1).
    destruct (IH (pre ++ [(k, v)]) (acc ++ [(k, r)]) w1) as (w' & acc' & Hloop & HJ').
    { by rewrite <- app_assoc. }
    { done. }
    exists w', acc'. split; [| done].
    rewrite !fmap_cons. cbn [fst for_each]. unfold bind at 1. by rewrite Hstep.
Qed.

(** X10: [dump()] of the in-memory backend with no file name always
    returns, whatever the table holds. It returns a new dict with the keys
    of the table in their order, each bound to a value deep-equal to the
    one stored; the dict shares no object with the table. The table, every
    object that existed, and the files are as before. *)
Theorem InMemoryKVS_dump_returns (self : InMemoryKVS) filename w :
  world_ok w = true → filename = None ∨ filename = Some "" →
  ∃ w1 es es',
    store_entries w = Some es ∧
    dump self filename w = (Ok (VRef (length (heap_of w))), w1) ∧
    heap_of w1 !! length (heap_of w) = Some (ODict es') ∧
    es'.*1 = es.*1 ∧
    Forall2 (λ e e', deep_equal (heap_of w1) e'.2 (heap_of w) e.2) es es' ∧
    (∀ l, reachable (heap_of w1) (VRef (length (heap_of w))) l →
          (length (heap_of w) ≤ l)%nat) ∧
    (∀ l, (l < length (heap_of w))%nat → heap_of w1 !! l = heap_of w !! l) ∧
    OBJECT_STORE w1 = OBJECT_STORE w ∧ files w1 = files w.
Proof.
  intros Hw Hnone. pose proof Hw as [Hok [es Hes]]%world_ok_inv.
  pose proof (proj1 (store_entries_Some _ _) Hes) as Hs0.
  pose proof (lookup_lt_Some _ _ _ Hs0) as Hslt.
  set (h0 := heap_of w) in *. set (s0 := OBJECT_STORE w) in *.
  set (wa := set_heap (h0 ++ [ODict []]) w).
  assert (dumped h0 s0 [] [] wa) as HJ.
  { split; simpl; try done.
    - apply (world_ok_extends w); [done | apply extends_app |].
      by apply heap_ok_snoc.
    - intros l Hl. by apply lookup_app_l.
    - rewrite length_app. simpl. lia.
    - by rewrite lookup_app_r, Nat.sub_diag. }
  destruct (dumped_loop self h0 s0 es Hok Hs0 es [] [] wa eq_refl HJ)
    as (w1 & es' & Hloop & [Hw1 Hstore1 Hold1 Hlen1 Hdata1 Hkeys1 Hvals1]).
  assert (keys self wa = (Ok (VAtom <$> es.*1), wa)) as Hkeysa.
  { simpl. apply InMemoryKVS_keys_eq. apply store_entries_Some. simpl.
    by rewrite lookup_app_l. }
  exists w1, es, es'. split; [done |]. split.
  { unfold dump, bind at 1. unfold alloc. fold h0 wa.
    unfold bind at 1. rewrite Hkeysa.
    unfold bind at 1. simpl. rewrite Hloop.
    by destruct Hnone as [-> | ->]. }
  split; [done |]. split; [done |]. split.
  { eapply Forall2_impl; [exact Hvals1 |]. by intros e e' [? _]. }
  split.
  { intros l Hl. inversion Hl as [|? o x ? Ho Hx Hr]; subst; [done |].
    rewrite Hdata1 in Ho. injection Ho as <-. simpl in Hx.
    apply list_elem_of_fmap in Hx as (e' & -> & [i Hi]%list_elem_of_lookup).
    destruct (Forall2_lookup_r _ _ _ _ _ Hvals1 Hi) as (e & _ & _ & Hfresh).
    apply Hfresh in Hr. lia. }
  split; [done |]. split; [done |].
  assert (keeps files
            (for_each (VAtom <$> es.*1)
               (λ key, x <- InMemoryKVS_getitem self key ;;
                       dict_store (length h0) key x))) as Hk.
  { apply keeps_for_each. intros key.
    apply keeps_bind; [by apply keeps_InMemoryKVS_getitem |].
    intros x. by apply keeps_dict_store. }
  specialize (Hk wa). by rewrite Hloop in Hk.
Qed.

Lemma InMemoryKVS_dump_returns_witness :
  let w := set_heap [ODict [(AStr "a", VRef 1%nat); (AStr "b", VAtom (ABytes "x"))];
                     OList [py_int 1]] (initial_world []) in
  ∃ w1 es',
    dump {| instance_id := 1 |} None w = (Ok (VRef 2%nat), w1) ∧
    heap_of w1 !! 2%nat = Some (ODict es') ∧
    es'.*1 = [AStr "a"; AStr "b"] ∧
    files w1 = files w.
Proof.
  intros w.
  destruct (InMemoryKVS_dump_returns {| instance_id := 1 |} None w)
    as (w1 & es & es' & Hes & Hdump & Hdata & Hkeys & _ & _ & _ & _ & Hfiles);
    [reflexivity | by left |].
  injection Hes as <-.
  exists w1, es'. split; [exact Hdump |]. split; [exact Hdata |].
  split; [exact Hkeys | exact Hfiles].
Defined.

(** ** The file [dump] writes *)

(** X11: on a store of JSON values, [dump(filename)] with a file name that
    is not empty, on both backends. When the file can be opened for
    writing, [dump] returns and the file holds one JSON object, with one
    member per key of the store, in the order of [keys()], each member
    holding the document of the value stored under its name; the other
    files are as before. When the file cannot be opened, [dump] raises the
    error of [open], and every file is as before. *)
Theorem dump_file_format fn w :
  fn ≠ "" →
  (∀ self : InMemoryKVS, world_ok w = true → store_is_json w →
     (open_w w fn = None →
      ∃ data w1 members,
        dump self (Some fn) w = (Ok data, w1) ∧
        files w1 = <[fn := JsonText (JObj members)]> (files w) ∧
        InMemoryKVS_keys self w = (Ok (py_str <$> members.*1), w) ∧
        NoDup members.*1 ∧
        ∀ i k d, members !! i = Some (k, d) →
          ∃ v, store_lookup w (AStr k) = Some v ∧
               snapshot (length (heap_of w)) (heap_of w) v = Some d) ∧
     (∀ e, open_w w fn = Some e →
      ∃ w1, dump self (Some fn) w = (Raise e, w1) ∧ files w1 = files w)) ∧
  (∀ self : RedisKVS, net w = [] → db_is_json (redis_db w) →
     (open_w w fn = None →
      ∃ data w1 members,
        dump self (Some fn) w = (Ok data, w1) ∧
        files w1 = <[fn := JsonText (JObj members)]> (files w) ∧
        RedisKVS_keys self w =
          (Ok (py_str <$> members.*1), set_redis_connected true w) ∧
        NoDup members.*1 ∧
        ∀ i k d, members !! i = Some (k, d) →
          ∃ e, redis_db w !! k = Some e ∧ payload e = JsonText d) ∧
     (∀ e, open_w w fn = Some e →
      ∃ w1, dump self (Some fn) w = (Raise e, w1) ∧ files w1 = files w)).
Proof.
  intros Hfn. split.
  - intros self Hw (es0 & Hes0 & Hjson).
    destruct (store_documents _ _ Hjson) as [kds Hdocs].
    destruct (InMemoryKVS_dump_spec self fn w es0 kds Hw Hfn Hes0 Hdocs)
      as (w1 & Hdump & _ & Hfile & Hnd).
    split; [| intros e Hopen; rewrite Hopen in Hdump, Hfile; eauto].
    intros Hopen. rewrite Hopen in Hdump, Hfile.
    assert (es0.*1 = AStr <$> kds.*1) as Hkeys.
    { eapply Forall2_keys; [| exact Hdocs]. by intros ? ? [? _]. }
    pose proof Hw as [Hok _]%world_ok_inv.
    assert (dict_ok es0 = true) as Hdok.
    { apply (obj_ok_dict (length (heap_of w))).
      apply (heap_ok_lookup _ (OBJECT_STORE w)); [done |].
      by apply store_entries_Some. }
    eexists _, w1, kds. split; [exact Hdump |]. split; [done |]. split.
    { rewrite (InMemoryKVS_keys_eq self w es0 Hes0), Hkeys.
      by rewrite <- list_fmap_compose. }
    split; [done |]. intros i k d Hi.
    destruct (Forall2_lookup_r _ _ _ _ _ Hdocs Hi) as ([a v] & Hkv & Ha & Hv).
    simpl in Ha, Hv. subst a. exists v. split; [| done].
    unfold store_lookup. rewrite Hes0. simpl. by eapply dict_get_lookup.
  - intros self Hnet Hdb.
    destruct (db_documents _ Hdb) as (kds & Hkeys & Hdocs).
    destruct (RedisKVS_dump_spec self fn w kds Hnet Hfn Hkeys Hdocs)
      as (w1 & Hdump & _ & _ & _ & Hfile & Hnd).
    split; [| intros e Hopen; rewrite Hopen in Hdump, Hfile; eauto].
    intros Hopen. rewrite Hopen in Hdump, Hfile.
    eexists _, w1, kds. split; [exact Hdump |]. split; [done |]. split.
    { rewrite RedisKVS_keys_eq by done. by rewrite Hkeys. }
    split; [done |]. intros i k d Hi.
    destruct (Forall2_lookup_r _ _ _ _ _ Hdocs Hi) as ([k' e] & Hke & Hk & Hp & _).
    simpl in Hk, Hp. subst k'. exists e. split; [| done].
    apply elem_of_map_to_list. by eapply list_elem_of_lookup_2.
Qed.

Lemma dump_file_format_witness :
  let mk := {| instance_id := 1 |} in
  let w := set_heap [ODict [(AStr "a", VRef 1%nat); (AStr "b", py_int 2)];
                     OList [py_str "x"; py_None]] (initial_world []) in
  let w' := set_open_w
              (λ fn, if bool_decide (fn = "missing_dir/kvs.json")
                     then Some (FileNotFoundError fn) else None) w in
  (∃ data w1 members,
     dump mk (Some "kvs.json") w' = (Ok data, w1) ∧
     files w1 = <["kvs.json" := JsonText (JObj members)]> (files w') ∧
     InMemoryKVS_keys mk w' = (Ok (py_str <$> members.*1), w')) ∧
  ∃ w1, dump mk (Some "missing_dir/kvs.json") w' =
          (Raise (FileNotFoundError "missing_dir/kvs.json"), w1) ∧
        files w1 = files w'.
Proof.
  intros mk w w'.
  assert (store_is_json w') as Hjson.
  { eexists. split; [reflexivity |]. repeat constructor. }
  split.
  - destruct (dump_file_format "kvs.json" w') as [Hmem _]; [discriminate |].
    destruct (Hmem mk eq_refl Hjson) as [Hok _].
    destruct (Hok eq_refl) as (data & w1 & members & H1 & H2 & H3 & _).
    exists data, w1, members. split; [exact H1 |]. split; [exact H2 | exact H3].
  - destruct (dump_file_format "missing_dir/kvs.json" w') as [Hmem _];
      [discriminate |].
    destruct (Hmem mk eq_refl Hjson) as [_ Hfail].
    apply Hfail. reflexivity.
Defined.

(** ** Files [load] cannot use *)

(** X12: [load] reads and parses the whole file before the first [set], on
    every backend. On a file that does not exist it raises
    [FileNotFoundError], on a file that is not JSON the decoder's error, and
    in both cases the world is as before; on a JSON document that is not an
    object ([data.items()] fails) it raises [AttributeError], having made
    the parsed value and called no [set]. *)
Theorem load_rejects_bad_files `{Backend T} (self : T) filename w :
  (files w !! filename = None →
   load self filename w = (Raise (FileNotFoundError filename), w)) ∧
  (∀ raw, files w !! filename = Some (NotJson raw) →
   load self filename w = (Raise JSONDecodeError, w)) ∧
  (∀ doc, files w !! filename = Some (JsonText doc) →
   (∀ members, doc ≠ JObj members) →
   ∃ msg h', load self filename w = (Raise (AttributeError msg), set_heap h' w) ∧
             extends (heap_of w) h').
Proof.
  split; [| split].
  - intros Hf. unfold load, json_load, bind, get_world. by rewrite Hf.
  - intros raw Hf. unfold load, json_load, bind, get_world. by rewrite Hf.
  - intros doc Hf Hdoc.
    pose proof (decode_spec doc (heap_of w)) as (Hext & _).
    unfold load, json_load, bind, get_world. rewrite Hf. simpl.
    destruct doc as [| b | z | s | items | members]; simpl in *;
      try (eexists _, _; split; [reflexivity | done]).
    + destruct (decode_list decode items (heap_of w)) as [vs h1] eqn:E.
      simpl in *.
      assert ((h1 ++ [OList vs]) !! length h1 = Some (OList vs)) as Hl.
      { by rewrite lookup_app_r, Nat.sub_diag. }
      unfold bind, read. cbv beta. cbn [heap_of set_heap]. rewrite Hl.
      eexists _, _. split; [reflexivity | done].
    + by destruct (Hdoc members).
Qed.

Lemma load_rejects_bad_files_witness :
  let mk := {| instance_id := 1 |} in
  let w := set_files (<["notes.txt" := NotJson "hello"]>
                        {["list.json" := JsonText (JArr [JNum 1; JNum 2])]})
             (initial_world []) in
  load mk "nothing.json" w = (Raise (FileNotFoundError "nothing.json"), w) ∧
  load mk "notes.txt" w = (Raise JSONDecodeError, w) ∧
  ∃ msg h', load mk "list.json" w = (Raise (AttributeError msg), set_heap h' w) ∧
            extends (heap_of w) h'.
Proof.
  intros mk w.
  destruct (load_rejects_bad_files mk "nothing.json" w) as (H1 & _ & _).
  destruct (load_rejects_bad_files mk "notes.txt" w) as (_ & H2 & _).
  destruct (load_rejects_bad_files mk "list.json" w) as (_ & _ & H3).
  split; [apply H1; reflexivity |].
  split; [apply (H2 "hello"); reflexivity |].
  apply (H3 (JArr [JNum 1; JNum 2])); [reflexivity | discriminate].
Defined.

(** ** [load] into a store that is not empty *)

Lemma foldl_dict_get_other k (es : list (atom * val)) : ∀ acc,
  Forall (λ kv, key_eqb kv.1 k = false) es →
  dict_get k (foldl (λ d kv, dict_set kv.1 kv.2 d) acc es) = dict_get k acc.
Proof.
  induction es as [|[k' v'] es IH]; intros acc Hall; [done |].
  apply Forall_cons in Hall as [Hk Hall]. simpl in *.
  rewrite IH by done. by apply dict_get_set_other.
Qed.

Lemma foldl_dict_get_in (es : list (atom * val)) : ∀ acc i k v,
  es !! i = Some (k, v) →
  (∀ j kv, j ≠ i → es !! j = Some kv → key_eqb kv.1 k = false) →
  dict_get k (foldl (λ d kv, dict_set kv.1 kv.2 d) acc es) = Some v.
Proof.
  induction es as [|[k' v'] es IH]; intros acc i k v Hi Hne; [done |].
  destruct i as [|i]; simpl in *.
  - injection Hi as -> ->. rewrite foldl_dict_get_other.
    + apply dict_get_set.
    + apply Forall_forall. intros kv [j Hj]%list_elem_of_lookup.
      by apply (Hne (S j)).
  - apply (IH _ i); [done |]. intros j kv Hj Hkv. by apply (Hne (S j)); [lia |].
Qed.

Lemma InMemoryKVS_load_loop_any (self : InMemoryKVS) s : ∀ es kds,
  Forall2 (λ kv kd, True) es kds →
  ∀ w acc,
    Forall2 (denotes s (heap_of w)) es kds →
    OBJECT_STORE w = s → heap_of w !! s = Some (ODict acc) →
    ∃ w',
      for_each es (λ kv, set self (VAtom kv.1) kv.2) w = (Ok tt, w') ∧
      OBJECT_STORE w' = s ∧
      heap_of w' !! s =
        Some (ODict (foldl (λ d kv, dict_set kv.1 kv.2 d) acc es)) ∧
      length (heap_of w') = length (heap_of w) ∧
      (∀ l, l ≠ s → heap_of w' !! l = heap_of w !! l).
Proof.
  induction 1 as [|[a v] [k d] es kds _ _ IH]; intros w acc Hall Hs Hacc.
  - by exists w.
  - inversion Hall as [|? ? ? ? (Hk & (n & Hsnap & Hn) & Hr) Hrest]; subst.
    simpl in Hk, Hsnap, Hr. subst a.
    assert (json_dumps (heap_of w) v = Ok d) as Hd.
    { eapply snapshot_dumps; [| exact Hsnap]. lia. }
    assert (store_entries w = Some acc) as Hes by (by apply store_entries_Some).
    pose proof (InMemoryKVS_set_ok self k v w d acc Hd Hes) as Hset.
    set (h1 := <[OBJECT_STORE w := ODict (dict_set (AStr k) v acc)]> (heap_of w)) in *.
    assert (length h1 = length (heap_of w)) as Hlen1 by apply length_insert.
    assert (∀ l, l ≠ OBJECT_STORE w → h1 !! l = heap_of w !! l) as Hfr1.
    { intros l Hl. unfold h1. by rewrite list_lookup_insert_ne. }
    destruct (IH (set_heap h1 w) (dict_set (AStr k) v acc))
      as (w' & Hloop & Hs' & Hst' & Hlen' & Hfr').
    + eapply Forall2_impl; [exact Hrest |]. intros kv kd.
      apply denotes_transfer; [simpl; lia |]. intros l _ Hl. by apply Hfr1.
    + done.
    + simpl. unfold h1. apply list_lookup_insert_eq. by eapply lookup_lt_Some.
    + exists w'. simpl. unfold bind. unfold py_str in Hset. rewrite Hset.
      split; [done |]. split; [done |]. split; [done |].
      split; [simpl in Hlen'; lia |].
      intros l Hl. rewrite Hfr' by done. by apply Hfr1.
Qed.

Lemma RedisKVS_load_loop_healthy (self : RedisKVS) h : ∀ es kds,
  Forall2 (to_write h) es kds →
  ∀ w, heap_of w = h → net w = [] →
  ∃ w', for_each es (λ kv, set self (VAtom kv.1) kv.2) w = (Ok tt, w') ∧
        heap_of w' = h ∧ net w' = [] ∧
        redis_db w' = written self kds (redis_db w).
Proof.
  induction 1 as [|[a v] [k d] es kds [Hk Hd] _ IH]; intros w Hh Hnet.
  - by exists w.
  - simpl in Hk, Hd. subst a. rewrite <- Hh in Hd.
    pose proof (RedisKVS_set_ok self k v w d Hnet Hd) as Hset.
    destruct (IH (set_redis_db (<[k := RedisEntry (JsonText d) (expire self)]>
                                  (redis_db w)) (set_redis_connected true w)))
      as (w' & Hloop & ? & ? & ?); [done | done |].
    exists w'. simpl. unfold bind. unfold py_str in Hset. by rewrite Hset.
Qed.

(** X13: [load] adds to the store and replaces in it; it does not clear
    it first. From a file holding a JSON object without repeated names:
    every key of the file is bound afterwards to the value of the file, and
    every other key to what it was bound to before. On the Redis backend the
    entries written carry the [expire] of the instance that loads, the
    others keep theirs. *)
Theorem load_merges filename w members :
  files w !! filename = Some (JsonText (JObj members)) →
  json_ok (JObj members) →
  (∀ self : InMemoryKVS, world_ok w = true →
     ∃ w',
       load self filename w = (Ok tt, w') ∧
       (∀ a, (∀ k, k ∈ members.*1 → a ≠ AStr k) →
             store_lookup w' a = store_lookup w a) ∧
       (∀ i k d, members !! i = Some (k, d) →
          ∃ v n, store_lookup w' (AStr k) = Some v ∧
                 snapshot n (heap_of w') v = Some d) ∧
       (∀ l, (l < length (heap_of w))%nat → l ≠ OBJECT_STORE w →
             heap_of w' !! l = heap_of w !! l)) ∧
  (∀ self : RedisKVS, net w = [] →
     ∃ w',
       load self filename w = (Ok tt, w') ∧
       (∀ k, k ∉ members.*1 → redis_db w' !! k = redis_db w !! k) ∧
       (∀ i k d, members !! i = Some (k, d) →
          redis_db w' !! k = Some (RedisEntry (JsonText d) (expire self)))).
Proof.
  intros Hfile Hjok. inversion Hjok as [| | | | |? Hnd Hok]; subst.
  destruct (load_parse filename w members Hfile Hnd)
    as (vs & hd & Hload & _ & _ & Hext & Hall).
  set (es := zip (AStr <$> members.*1) vs) in *.
  set (h' := hd ++ [ODict es]) in *.
  assert (length h' = S (length hd)) as Hlen'.
  { unfold h'. rewrite length_app. simpl. lia. }
  pose proof (proj1 Hext) as Hlend.
  split.
  - intros self Hw. pose proof Hw as [Hokw [acc Hacc]]%world_ok_inv.
    pose proof (proj1 (store_entries_Some _ _) Hacc) as Hs0.
    pose proof (lookup_lt_Some _ _ _ Hs0) as Hslt.
    set (s := OBJECT_STORE w) in *.
    assert (Forall2 (denotes s h') es members) as Hden.
    { apply (decoded_denotes s (heap_of w)); [done | lia | done | done]. }
    destruct (InMemoryKVS_load_loop_any self s es members) with
      (w := set_heap h' w) (acc := acc) as (w' & Hloop & Hs' & Hst' & Hlenw & Hfr');
      try done.
    { eapply Forall2_impl; [exact Hden | done]. }
    { simpl. unfold h'. rewrite lookup_app_l by lia.
      destruct Hext as [_ Hfr]. by rewrite Hfr. }
    simpl in Hlenw, Hfr'.
    assert (store_entries w' = Some (foldl (λ d kv, dict_set kv.1 kv.2 d) acc es))
      as Hes'.
    { apply store_entries_Some. by rewrite Hs'. }
    assert (es.*1 = AStr <$> members.*1) as Hkeys.
    { eapply Forall2_keys; [| exact Hden]. by intros ? ? [? _]. }
    exists w'. split; [by rewrite (Hload _ _ self) |]. split; [| split].
    + intros a Ha. unfold store_lookup. rewrite Hes', Hacc. simpl.
      apply foldl_dict_get_other. apply Forall_forall.
      intros kv [i Hi]%list_elem_of_lookup.
      destruct (Forall2_lookup_l _ _ _ _ _ Hden Hi) as ([k d] & Hm & Hk & _).
      simpl in Hk. rewrite Hk.
      destruct (key_eqb (AStr k) a) eqn:E; [| done].
      rewrite key_eqb_sym in E. apply key_eqb_str in E.
      destruct (Ha k); [| done]. apply list_elem_of_fmap. exists (k, d).
      split; [done |]. by eapply list_elem_of_lookup_2.
    + intros i k d Hi.
      destruct (Forall2_lookup_r _ _ _ _ _ Hden Hi) as ([a v] & Hkv & Hden_i).
      pose proof Hden_i as (Ha & _). simpl in Ha. subst a.
      destruct (denotes_transfer s h' (heap_of w') (AStr k, v) (k, d))
        as (_ & (n & Hsnap & _) & _); [lia | by intros l _ Hl; apply Hfr' | done |].
      exists v, n. split; [| done].
      unfold store_lookup. rewrite Hes'. simpl.
      apply (foldl_dict_get_in es acc i); [done |].
      intros j kv Hj Hkv'.
      destruct (Forall2_lookup_l _ _ _ _ _ Hden Hkv') as ([k' d'] & Hm' & Hk' & _).
      simpl in Hk'. rewrite Hk'. simpl. apply bool_decide_eq_false. intros ->.
      apply Hj. eapply (NoDup_lookup members.*1); [done | |].
      * by rewrite list_lookup_fmap, Hm'.
      * by rewrite list_lookup_fmap, Hi.
    + intros l Hl Hne. rewrite Hfr' by done. unfold h'.
      rewrite lookup_app_l by lia. destruct Hext as [_ Hfr]. by apply Hfr.
  - intros self Hnet.
    destruct (parsed_documents _ _ _ _ Hall) as (kds & Hsnap & Hkeys & Hsame).
    fold es in Hsnap.
    assert (kds = members) as ->.
    { apply list_eq. intros i.
      destruct (members !! i) as [[k d]|] eqn:Hi.
      - destruct (Forall2_lookup_r _ _ _ _ _ Hsame Hi) as ([k' d'] & Hi' & Hd').
        rewrite Hi'. f_equal.
        assert (k' = k) as ->.
        { assert (kds.*1 !! i = Some k') as H1 by (by rewrite list_lookup_fmap, Hi').
          rewrite Hkeys, list_lookup_fmap, Hi in H1. simpl in H1. congruence. }
        f_equal. apply Hd'. rewrite Forall_forall in Hok.
        apply (Hok (k, d)). by eapply list_elem_of_lookup_2.
      - apply lookup_ge_None_2. apply lookup_ge_None_1 in Hi.
        by rewrite (Forall2_length _ _ _ Hsame). }
    assert (Forall2 (to_write h') es members) as Hwrite.
    { eapply snapshot_to_write; [| exact Hsnap]. lia. }
    destruct (RedisKVS_load_loop_healthy self h' es members Hwrite
                (set_heap h' w) eq_refl Hnet) as (w' & Hloop & _ & _ & Hdb).
    exists w'. split; [by rewrite (Hload _ _ self) |]. rewrite Hdb. simpl. split.
    + intros k Hk. by apply written_lookup_other.
    + intros i k d Hi. by eapply written_lookup.
Qed.

Lemma load_merges_witness :
  let members := [("a", JNum 1); ("b", JArr [JStr "x"])] in
  let w := set_files {["kvs.json" := JsonText (JObj members)]}
             (set_redis_db (<["a" := RedisEntry (JsonText JNull) JNull]>
                              {["c" := RedisEntry (JsonText (JNum 3)) (JNum 60)]})
                (set_heap [ODict [(AStr "c", py_int 3); (AStr "a", py_None)]]
                   (initial_world []))) in
  (∃ w', load {| instance_id := 1 |} "kvs.json" w = (Ok tt, w') ∧
         store_lookup w' (AStr "c") = Some (py_int 3) ∧
         ∃ v n, store_lookup w' (AStr "a") = Some v ∧
                snapshot n (heap_of w') v = Some (JNum 1)) ∧
  (∃ w', load {| expire := JNum 5 |} "kvs.json" w = (Ok tt, w') ∧
         redis_db w' !! "c" = Some (RedisEntry (JsonText (JNum 3)) (JNum 60)) ∧
         redis_db w' !! "a" = Some (RedisEntry (JsonText (JNum 1)) (JNum 5))).
Proof.
  intros members w.
  assert ("c" ∉ members.*1) as Hc.
  { apply (bool_decide_eq_false_1 ("c" ∈ members.*1)). reflexivity. }
  destruct (load_merges "kvs.json" w members) as [Hmem Hredis].
  - reflexivity.
  - constructor.
    + apply (bool_decide_eq_true_1 (NoDup _)). reflexivity.
    + repeat constructor.
  - split.
    + destruct (Hmem {| instance_id := 1 |}) as (w' & Hload & Hother & Hin & _);
        [reflexivity |].
      exists w'. split; [exact Hload |]. split.
      * rewrite Hother; [reflexivity |]. intros k Hk [= <-]. exact (Hc Hk).
      * apply (Hin 0%nat "a" (JNum 1)). reflexivity.
    + destruct (Hredis {| expire := JNum 5 |}) as (w' & Hload & Hother & Hin);
        [reflexivity |].
      exists w'. split; [exact Hload |]. split.
      * rewrite Hother; [reflexivity | exact Hc].
      * apply (Hin 0%nat "a" (JNum 1)). reflexivity.
Defined.

(** ** The Redis backend: instances, connection, stored texts *)

(** X14: constructing a Redis backend touches nothing (no connection is
    opened): [EphemeralRedisKVS()] takes its [expire] from
    [settings['kvs']['expiry']], [PersistentRedisKVS()] has [expire = None].
    What an instance writes carries its [expire]: the setting for the
    ephemeral class, [None] for the persistent one. *)
Theorem entries_carry_the_expiry k v w doc :
  net w = [] → json_dumps (heap_of w) v = Ok doc →
  (∀ m e, assoc "kvs" (settings w) = Some (JObj m) → assoc "expiry" m = Some e →
     EphemeralRedisKVS w = (Ok {| expire := e |}, w) ∧
     ∃ w1, (self <- EphemeralRedisKVS ;; RedisKVS_set self (py_str k) v) w =
             (Ok tt, w1) ∧
           redis_db w1 !! k = Some (RedisEntry (JsonText doc) e)) ∧
  (PersistentRedisKVS w = (Ok {| expire := JNull |}, w) ∧
   ∃ w1, (self <- PersistentRedisKVS ;; RedisKVS_set self (py_str k) v) w =
           (Ok tt, w1) ∧
         redis_db w1 !! k = Some (RedisEntry (JsonText doc) JNull)).
Proof.
  intros Hnet Hd. split.
  - intros m e Hk He.
    assert (EphemeralRedisKVS w = (Ok {| expire := e |}, w)) as Hnew.
    { unfold EphemeralRedisKVS, settings_item, bind, get_world, lift, subscript.
      by rewrite Hk, He. }
    split; [done |]. eexists. unfold bind at 1. rewrite Hnew.
    rewrite (RedisKVS_set_ok _ k v w doc Hnet Hd). split; [done |].
    simpl. apply lookup_insert_eq.
  - split; [done |]. eexists. unfold bind at 1. unfold PersistentRedisKVS, ret.
    rewrite (RedisKVS_set_ok _ k v w doc Hnet Hd). split; [done |].
    simpl. apply lookup_insert_eq.
Qed.

Lemma entries_carry_the_expiry_witness :
  let w := set_redis_db {["hi" := RedisEntry (JsonText (JNum 8)) (JNum 60)]}
             (initial_world [("kvs", JObj [("type", JStr "redis_ephemeral");
                                           ("expiry", JNum 60)])]) in
  (∃ w1, (self <- EphemeralRedisKVS ;; RedisKVS_set self (py_str "hi") (py_int 9)) w =
           (Ok tt, w1) ∧
         redis_db w1 !! "hi" = Some (RedisEntry (JsonText (JNum 9)) (JNum 60))) ∧
  (∃ w1, (self <- PersistentRedisKVS ;; RedisKVS_set self (py_str "hi") (py_int 9)) w =
           (Ok tt, w1) ∧
         redis_db w1 !! "hi" = Some (RedisEntry (JsonText (JNum 9)) JNull)).
Proof.
  intros w.
  destruct (entries_carry_the_expiry "hi" (py_int 9) w (JNum 9))
    as [He [_ Hp]]; [reflexivity | reflexivity |].
  split; [| exact Hp].
  destruct (He [("type", JStr "redis_ephemeral"); ("expiry", JNum 60)] (JNum 60))
    as [_ H]; [reflexivity | reflexivity | exact H].
Defined.

(** X15: every call on the Redis backend starts with [connect()]. While no
    connection is open and the network is down, [self[key]], [set] and
    [keys()] raise the connection error before looking at their arguments;
    the remote store and the heap are as before. Once the connection is
    open, [set] checks the value and then the key before any round trip: a
    rejected [set] leaves the world exactly as it was. *)
Theorem redis_connects_first (self : RedisKVS) key value w :
  (redis_connected w = false → ∀ rest, net w = false :: rest →
     RedisKVS_getitem self key w = (Raise ConnectionError, set_net rest w) ∧
     RedisKVS_set self key value w = (Raise ConnectionError, set_net rest w) ∧
     RedisKVS_keys self w = (Raise ConnectionError, set_net rest w)) ∧
  (redis_connected w = true →
     (∀ e, json_dumps (heap_of w) value = Raise e →
           RedisKVS_set self key value w = (Raise e, w)) ∧
     (∀ doc, json_dumps (heap_of w) value = Ok doc → is_str key = false →
           RedisKVS_set self key value w =
             (Raise (AssertionError "KVS keys must be strings"), w))).
Proof.
  split.
  - intros Hc rest Hnet.
    unfold RedisKVS_getitem, RedisKVS_set, RedisKVS_keys, RedisKVS_connect,
      redis_connect.
    mrun. rewrite Hc. mrun. by rewrite Hnet.
  - intros Hc. split.
    + intros e He. unfold RedisKVS_set, RedisKVS_connect, redis_connect.
      mrun. rewrite Hc. mrun. by rewrite He.
    + intros doc Hd Hk. unfold RedisKVS_set, RedisKVS_connect, redis_connect.
      mrun. rewrite Hc. mrun. rewrite Hd. mrun. by rewrite Hk.
Qed.

Lemma redis_connects_first_witness :
  let self := {| expire := JNull |} in
  let w := set_net [false] (initial_world []) in
  let w' := set_redis_connected true (initial_world []) in
  RedisKVS_set self (py_int 5) (VAtom (ABytes "x")) w =
    (Raise ConnectionError, set_net [] w) ∧
  RedisKVS_set self (py_int 5) (VAtom (ABytes "x")) w' =
    (Raise (TypeError "Object of type bytes is not JSON serializable"), w') ∧
  RedisKVS_set self (py_int 5) (py_int 1) w' =
    (Raise (AssertionError "KVS keys must be strings"), w').
Proof.
  intros self w w'.
  destruct (redis_connects_first self (py_int 5) (VAtom (ABytes "x")) w)
    as [H1 _].
  destruct (redis_connects_first self (py_int 5) (VAtom (ABytes "x")) w')
    as [_ H2].
  destruct (redis_connects_first self (py_int 5) (py_int 1) w') as [_ H3].
  split; [apply (H1 eq_refl []); reflexivity |].
  split; [apply (H2 eq_refl); reflexivity |].
  apply (proj2 (H3 eq_refl) (JNum 1)); reflexivity.
Defined.

Lemma RedisKVS_getitem_malformed (self : RedisKVS) k w e raw :
  net w = [] → redis_db w !! k = Some e → payload e = NotJson raw →
  RedisKVS_getitem self (py_str k) w =
    (Raise JSONDecodeError, set_redis_connected true w).
Proof.
  intros Hnet Hk Hp. rewrite RedisKVS_getitem_eq by done. by rewrite Hk, Hp.
Qed.

(** One turn of the loop of [dump] on the Redis backend, for a key of the
    remote store: the text is parsed and entered in [data], or it is not
    JSON and the decoder's error leaves the loop. *)
Lemma RedisKVS_dump_step (self : RedisKVS) ld k w e acc :
  net w = [] → redis_db w !! k = Some e →
  heap_of w !! ld = Some (ODict acc) →
  match payload e with
  | JsonText _ =>
      ∃ w' acc', dump_step self ld (py_str k) w = (Ok tt, w') ∧
                 net w' = [] ∧ redis_db w' = redis_db w ∧
                 heap_of w' !! ld = Some (ODict acc')
  | NotJson _ =>
      dump_step self ld (py_str k) w =
        (Raise JSONDecodeError, set_redis_connected true w)
  end.
Proof.
  intros Hnet Hk Hld. destruct (payload e) as [doc|raw] eqn:Hp.
  - pose proof (decode_spec doc (heap_of w)) as Hdec.
    destruct (decode doc (heap_of w)) as [r h'] eqn:Edec.
    destruct Hdec as ([Hlen Hfr] & _). simpl in *.
    pose proof (lookup_lt_Some _ _ _ Hld) as Hlt.
    exists (set_heap (<[ld := ODict (dict_set (AStr k) r acc)]> h')
              (set_redis_connected true w)), (dict_set (AStr k) r acc).
    split.
    + unfold dump_step, bind. simpl. rewrite RedisKVS_getitem_eq by done.
      rewrite Hk, Hp. simpl. rewrite Edec.
      unfold py_str, dict_store, bind, read. simpl.
      rewrite Hfr by done. rewrite Hld. reflexivity.
    + split; [done |]. split; [done |]. simpl.
      apply list_lookup_insert_eq. lia.
  - unfold dump_step, bind. simpl.
    by rewrite (RedisKVS_getitem_malformed self k w e raw).
Qed.

Lemma RedisKVS_dump_loop_malformed (self : RedisKVS) ld db : ∀ ks w acc,
  Forall (λ k, is_Some (db !! k)) ks →
  Exists (λ k, ∃ e raw, db !! k = Some e ∧ payload e = NotJson raw) ks →
  net w = [] → redis_db w = db → heap_of w !! ld = Some (ODict acc) →
  ∃ w', for_each (py_str <$> ks) (dump_step self ld) w =
          (Raise JSONDecodeError, w').
Proof.
  induction ks as [|k ks IH]; intros w acc Hall Hex Hnet Hdb Hld.
  { by apply Exists_nil in Hex. }
  apply Forall_cons in Hall as [[e Hk] Hall]. rewrite <- Hdb in Hk.
  pose proof (RedisKVS_dump_step self ld k w e acc Hnet Hk Hld) as Hstep.
  rewrite fmap_cons. cbn [for_each]. unfold bind at 1.
  destruct (payload e) as [doc|raw] eqn:Hp.
  - destruct Hstep as (w1 & acc1 & -> & Hnet1 & Hdb1 & Hld1).
    apply Exists_cons in Hex as [(e' & raw & Hk' & Hp')|Hex].
    { rewrite <- Hdb in Hk'. congruence. }
    eapply IH; eauto. congruence.
  - rewrite Hstep. eauto.
Qed.

(** X16: a string of the remote store that is not JSON makes [self[key]]
    raise the decoder's error, and makes [dump] raise it as well, whatever
    else the store holds: no file is written, and the remote store is as it
    was. *)
Theorem malformed_entry_fails_the_dump (self : RedisKVS) k w e raw :
  net w = [] → redis_db w !! k = Some e → payload e = NotJson raw →
  (∃ w1, RedisKVS_getitem self (py_str k) w = (Raise JSONDecodeError, w1) ∧
         redis_db w1 = redis_db w) ∧
  ∀ filename, ∃ w1,
    dump self filename w = (Raise JSONDecodeError, w1) ∧
    files w1 = files w ∧ redis_db w1 = redis_db w.
Proof.
  intros Hnet Hk Hp. split.
  { eexists. split; [by eapply RedisKVS_getitem_malformed | done]. }
  intros filename.
  set (ld := length (heap_of w)).
  set (wa := set_heap (heap_of w ++ [ODict []]) w).
  set (wb := set_redis_connected true wa).
  set (ks := (map_to_list (redis_db w)).*1).
  assert (keys self wa = (Ok (py_str <$> ks), wb)) as Hkeys.
  { simpl. by rewrite RedisKVS_keys_eq. }
  destruct (RedisKVS_dump_loop_malformed self ld (redis_db w) ks wb [])
    as [w1 Hloop]; try done.
  { apply Forall_forall. intros k' Hk'.
    apply list_elem_of_fmap in Hk' as ([k'' e'] & -> & Hin).
    apply elem_of_map_to_list in Hin. eauto. }
  { apply Exists_exists. exists k. split; [| eauto].
    apply list_elem_of_fmap. exists (k, e). split; [done |].
    by apply elem_of_map_to_list. }
  { simpl. by rewrite lookup_app_r, Nat.sub_diag. }
  assert (dump self filename w = (Raise JSONDecodeError, w1)) as Hdump.
  { unfold dump, bind at 1. unfold alloc. fold ld wa.
    unfold bind at 1. rewrite Hkeys.
    unfold bind at 1. unfold dump_step in Hloop. by rewrite Hloop. }
  exists w1. split; [done |]. split.
  - assert (keeps files (for_each (py_str <$> ks) (dump_step self ld))) as Hkeep.
    { apply keeps_for_each. intros key.
      apply keeps_bind; [by apply keeps_RedisKVS_getitem |].
      intros x. by apply keeps_dict_store. }
    specialize (Hkeep wb). by rewrite Hloop in Hkeep.
  - assert (keeps redis_db (for_each (py_str <$> ks) (dump_step self ld))) as Hkeep.
    { apply keeps_for_each. intros key.
      apply keeps_bind; [by apply keeps_RedisKVS_getitem |].
      intros x. by apply keeps_dict_store. }
    specialize (Hkeep wb). by rewrite Hloop in Hkeep.
Qed.

Lemma malformed_entry_fails_the_dump_witness :
  let self := {| expire := JNull |} in
  let w := set_redis_db (<["a" := RedisEntry (JsonText (JNum 1)) JNull]>
                           {["b" := RedisEntry (NotJson "{oops") JNull]})
             (initial_world []) in
  ∃ w1, dump self (Some "kvs.json") w = (Raise JSONDecodeError, w1) ∧
        files w1 = files w ∧ redis_db w1 = redis_db w.
Proof.
  intros self w.
  destruct (malformed_entry_fails_the_dump self "b" w
              (RedisEntry (NotJson "{oops") JNull) "{oops") as [_ H];
    [reflexivity | reflexivity | reflexivity |].
  apply H.
Defined.

(** X17: with the network up, [keys()] of the Redis backend returns the
    keys of the remote store, each once, as strings; after a successful
    [set(k, v)] it returns [k] and the keys it returned before. *)
Theorem redis_keys_lists_the_store (self : RedisKVS) w :
  net w = [] →
  ∃ ks,
    RedisKVS_keys self w = (Ok (py_str <$> ks), set_redis_connected true w) ∧
    NoDup ks ∧ (∀ k, k ∈ ks ↔ is_Some (redis_db w !! k)) ∧
    ∀ (self' : RedisKVS) k v doc, json_dumps (heap_of w) v = Ok doc →
      ∃ w1 ks1,
        RedisKVS_set self' (py_str k) v w = (Ok tt, w1) ∧
        RedisKVS_keys self w1 = (Ok (py_str <$> ks1), w1) ∧
        ∀ k', k' ∈ ks1 ↔ k' = k ∨ k' ∈ ks.
Proof.
  intros Hnet.
  assert (∀ (db : gmap string redis_entry) k,
            k ∈ (map_to_list db).*1 ↔ is_Some (db !! k)) as Hin.
  { intros db k. rewrite list_elem_of_fmap. split.
    - intros ([k' e] & -> & He%elem_of_map_to_list). eauto.
    - intros [e He]. exists (k, e). split; [done |]. by apply elem_of_map_to_list. }
  exists (map_to_list (redis_db w)).*1.
  split; [by apply RedisKVS_keys_eq |].
  split; [apply NoDup_fst_map_to_list |]. split; [apply Hin |].
  intros self' k v doc Hd. eexists _, _.
  split; [by apply RedisKVS_set_ok |]. split.
  - rewrite RedisKVS_keys_eq by done. reflexivity.
  - intros k'. simpl. rewrite !Hin, lookup_insert_is_Some.
    split; [intros [-> | [_ ?]]; eauto |].
    intros [-> | ?]; [by left |].
    destruct (decide (k = k')); [by left | by right].
Qed.

Lemma redis_keys_lists_the_store_witness :
  let self := {| expire := JNull |} in
  let w := set_redis_db {["a" := RedisEntry (JsonText (JNum 1)) JNull]}
             (initial_world []) in
  ∃ ks, RedisKVS_keys self w = (Ok (py_str <$> ks), set_redis_connected true w) ∧
        ∀ k, k ∈ ks ↔ is_Some (redis_db w !! k).
Proof.
  intros self w.
  destruct (redis_keys_lists_the_store self w) as (ks & H1 & _ & H2 & _);
    [reflexivity |].
  exists ks. split; [exact H1 | exact H2].
Defined.

(** ** The start-up check on every configuration *)

(** The check, case by case. *)
Lemma kvs_startup_check_eq w :
  kvs_startup_check w =
    match assoc "kvs" (settings w) with
    | None => (Raise (StartupCheck no_kvs_message), w)
    | Some (JObj m) =>
        match assoc "type" m with
        | None => (Raise (KeyError (JStr "type")), w)
        | Some t =>
            match KVS_MAP_item t with
            | Ok c => (Ok true, set_KVS (Some c) w)
            | Raise (KeyError _) =>
                (Raise (StartupCheck (unknown_type_message t)), w)
            | Raise e => (Raise e, w)
            | Stuck => (Stuck, w)
            end
        end
    | Some x =>
        (match subscript x "type" with
         | Ok _ => Stuck
         | Raise e => Raise e
         | Stuck => Stuck
         end, w)
    end.
Proof.
  unfold kvs_startup_check, bind, try_except_KeyError, settings_kvs_type,
    settings_item, bind, get_world, lift, raise, ret. simpl.
  destruct (assoc "kvs" (settings w)) as [x|] eqn:Hk; simpl.
  2: { rewrite Hk. by rewrite bool_decide_eq_true_2. }
  destruct x as [| | | | |m]; simpl; try done.
  destruct (assoc "type" m) as [t|] eqn:Ht; simpl.
  - destruct (KVS_MAP_item t) as [c|e|] eqn:E; simpl; [done | | done].
    destruct e; simpl; try done.
    rewrite Hk. rewrite bool_decide_eq_false_2 by done.
    rewrite Hk. simpl. rewrite Ht.
    assert (not_in_KVS_MAP t = Ok true) as ->.
    { destruct t as [| | |s| |]; try (simpl in E; done).
      unfold KVS_MAP_item in E. unfold not_in_KVS_MAP.
      destruct (assoc s KVS_MAP); [done |]. by rewrite bool_decide_eq_true_2. }
    rewrite Hk. simpl. by rewrite Ht.
  - rewrite Hk. rewrite bool_decide_eq_false_2 by done.
    rewrite Hk. simpl. by rewrite Ht.
Qed.

Lemma KVS_MAP_item_Ok t c :
  KVS_MAP_item t = Ok c ↔
  t = JStr "stub" ∧ c = InMemoryKVS_class ∨
  t = JStr "redis_ephemeral" ∧ c = EphemeralRedisKVS_class ∨
  t = JStr "redis" ∧ c = PersistentRedisKVS_class.
Proof.
  split.
  - destruct t as [| | |s| |]; simpl; try done.
    unfold KVS_MAP. simpl.
    repeat (case_bool_decide; [subst; intros [= <-]; eauto |]). done.
  - intros [[-> ->]|[[-> ->]|[-> ->]]]; reflexivity.
Qed.

(** X18: the last branch of the handler of [kvs_startup_check] is never
    taken: on no configuration does the check raise the start-up error
    "KVS incorrectly configured ...". *)
Theorem misconfigured_branch_is_dead w :
  (kvs_startup_check w).1 ≠
    Raise (StartupCheck
      ("KVS incorrectly configured. Please fix the error, and" +:+ nl +:+
       "then replace this with a more meaningful error message")).
Proof.
  rewrite kvs_startup_check_eq.
  destruct (assoc "kvs" (settings w)) as [x|]; simpl.
  2: { intros H. vm_compute in H. discriminate H. }
  destruct x as [| | | | |m]; simpl; try (intros H; discriminate H).
  destruct (assoc "type" m) as [t|]; simpl; [| intros H; discriminate H].
  destruct (KVS_MAP_item t) as [c|e|] eqn:E; simpl;
    [intros H; discriminate H | | intros H; discriminate H].
  destruct e; simpl; try (intros H; discriminate H).
  destruct t as [| | |s| |]; try (simpl in E; discriminate E).
  unfold KVS_MAP_item in E. destruct (assoc s KVS_MAP); discriminate E.
Qed.

(** X19: [kvs_startup_check] returns exactly when [settings['kvs']['type']]
    is one of the three strings of [KVS_MAP]; it then returns [True], binds
    [KVS] to the class of that name and changes nothing else. *)
Theorem kvs_startup_check_succeeds_iff w r w' :
  kvs_startup_check w = (Ok r, w') ↔
  r = true ∧
  ∃ m s c,
    assoc "kvs" (settings w) = Some (JObj m) ∧ assoc "type" m = Some (JStr s) ∧
    (s = "stub" ∧ c = InMemoryKVS_class ∨
     s = "redis_ephemeral" ∧ c = EphemeralRedisKVS_class ∨
     s = "redis" ∧ c = PersistentRedisKVS_class) ∧
    w' = set_KVS (Some c) w.
Proof.
  rewrite kvs_startup_check_eq. split.
  - destruct (assoc "kvs" (settings w)) as [[| | |s| |m]|]; simpl; try done.
    destruct (assoc "type" m) as [t|] eqn:Ht; simpl; [| done].
    destruct (KVS_MAP_item t) as [c|[]|] eqn:E; simpl; try done.
    intros [= <- <-]. split; [done |].
    apply KVS_MAP_item_Ok in E.
    destruct E as [[-> ->]|[[-> ->]|[-> ->]]]; eexists m, _, _;
      (split; [done |]); (split; [exact Ht |]); (split; [| done]); eauto.
  - intros (-> & m & s & c & -> & -> & Hs & ->).
    assert (KVS_MAP_item (JStr s) = Ok c) as ->; [| done].
    apply KVS_MAP_item_Ok.
    destruct Hs as [[-> ->]|[[-> ->]|[-> ->]]]; eauto.
Qed.

(** X20: when [kvs_startup_check] does not return, the world is as it was:
    [KVS] keeps what it was bound to. Whatever way the check ends, it ends
    the same way when run again, in the same world: the check is
    idempotent. *)
Theorem kvs_startup_check_again w :
  let r := kvs_startup_check w in
  (r.1 ≠ Ok true → r.2 = w) ∧
  set_KVS (KVS r.2) w = r.2 ∧
  kvs_startup_check r.2 = r.
Proof.
  simpl. rewrite (kvs_startup_check_eq w).
  destruct (assoc "kvs" (settings w)) as [x|] eqn:Hk.
  - destruct x as [| | |s| |m]; simpl;
      try (split; [done |]; split; [by destruct w |];
           rewrite kvs_startup_check_eq, Hk; done).
    destruct (assoc "type" m) as [t|] eqn:Ht; simpl.
    + destruct (KVS_MAP_item t) as [c|e|] eqn:E; simpl.
      * split; [done |]. split; [done |].
        rewrite kvs_startup_check_eq. simpl. by rewrite Hk, Ht, E.
      * destruct e; simpl; (split; [done |]; split; [by destruct w |]);
          rewrite kvs_startup_check_eq, Hk, Ht, E; done.
      * split; [done |]. split; [by destruct w |].
        by rewrite kvs_startup_check_eq, Hk, Ht, E.
    + split; [done |]. split; [by destruct w |].
      by rewrite kvs_startup_check_eq, Hk, Ht.
  - simpl. split; [done |]. split; [by destruct w |].
    by rewrite kvs_startup_check_eq, Hk.
Qed.

(** X21: what [kvs_startup_check] does with a [kvs.type] that is not a
    string, and with a [kvs] that is not a mapping. A number, a boolean or
    [None] as [kvs.type] is answered like an unknown name, with the start-up
    error that shows it as [str()] does. A list or a mapping as [kvs.type],
    and a [kvs] that is not a mapping, make a [TypeError] leave the check:
    only [KeyError] is handled. *)
Theorem kvs_startup_check_odd_types w :
  (∀ m t, assoc "kvs" (settings w) = Some (JObj m) → assoc "type" m = Some t →
     match t with
     | JStr _ => True
     | JNum z =>
         kvs_startup_check w =
           (Raise (StartupCheck
              ("Unknown KVS type: " +:+ pretty z +:+ nl +:+
               "Look at example settings file to see what's available. " +:+ nl +:+
               "Suppported types: ['stub', 'redis_ephemeral', 'redis']")), w)
     | JBool b =>
         kvs_startup_check w =
           (Raise (StartupCheck
              ("Unknown KVS type: " +:+ (if b then "True" else "False") +:+ nl +:+
               "Look at example settings file to see what's available. " +:+ nl +:+
               "Suppported types: ['stub', 'redis_ephemeral', 'redis']")), w)
     | JNull =>
         kvs_startup_check w =
           (Raise (StartupCheck
              ("Unknown KVS type: None" +:+ nl +:+
               "Look at example settings file to see what's available. " +:+ nl +:+
               "Suppported types: ['stub', 'redis_ephemeral', 'redis']")), w)
     | JArr _ | JObj _ =>
         ∃ msg, kvs_startup_check w = (Raise (TypeError msg), w)
     end) ∧
  (∀ x, assoc "kvs" (settings w) = Some x → (∀ m, x ≠ JObj m) →
     ∃ msg, kvs_startup_check w = (Raise (TypeError msg), w)).
Proof.
  split.
  - intros m t Hk Ht. rewrite kvs_startup_check_eq, Hk, Ht.
    destruct t as [|[]|z|s|items|members]; simpl; try done; eauto.
  - intros x Hk Hx. rewrite kvs_startup_check_eq, Hk.
    destruct x as [| | | | |m]; simpl; eauto. by destruct (Hx m).
Qed.

Lemma kvs_startup_check_odd_types_witness :
  (∃ msg, kvs_startup_check (initial_world [("kvs", JStr "stub")]) =
            (Raise (TypeError msg), initial_world [("kvs", JStr "stub")])) ∧
  (∃ msg, kvs_startup_check (initial_world [("kvs", JObj [("type", JArr [JStr "stub"])])]) =
            (Raise (TypeError msg),
             initial_world [("kvs", JObj [("type", JArr [JStr "stub"])])])) ∧
  ∃ msg, kvs_startup_check (initial_world [("kvs", JObj [("type", JNum 5)])]) =
           (Raise (StartupCheck msg), initial_world [("kvs", JObj [("type", JNum 5)])]).
Proof.
  split; [| split].
  - apply (proj2 (kvs_startup_check_odd_types (initial_world [("kvs", JStr "stub")]))
             (JStr "stub")); [reflexivity | discriminate].
  - apply (proj1 (kvs_startup_check_odd_types
                    (initial_world [("kvs", JObj [("type", JArr [JStr "stub"])])]))
             [("type", JArr [JStr "stub"])] (JArr [JStr "stub"]));
      reflexivity.
  - eexists.
    apply (proj1 (kvs_startup_check_odd_types
                    (initial_world [("kvs", JObj [("type", JNum 5)])]))
             [("type", JNum 5)] (JNum 5)); reflexivity.
Defined.

(** ** The copy as a graph *)

(** X22: the copy [self[k]] hands out has the shape of the stored value as
    a graph, not only as a tree: there is a one-to-one map from the objects
    copied to new objects such that the copy of every object holds, place by
    place, the same atoms and the copies of the same objects. An object met
    twice in the stored value is one object in the copy, and a value that
    contains itself is copied without end-less descent. *)
Theorem getitem_copies_the_graph (self : InMemoryKVS) k v w :
  world_ok w = true → store_lookup w (AStr k) = Some v →
  ∃ r w1 (m : memo),
    InMemoryKVS_getitem self (py_str k) w = (Ok r, w1) ∧
    copy_of m v r ∧
    (∀ lx lx' ly, memo_get lx m = Some ly → memo_get lx' m = Some ly → lx = lx') ∧
    ∀ lx ly, memo_get lx m = Some ly →
      (lx < length (heap_of w) ≤ ly)%nat ∧
      ∃ o o', heap_of w !! lx = Some o ∧ heap_of w1 !! ly = Some o' ∧
              obj_copy_of m o o'.
Proof.
  intros Hw Hk. pose proof Hw as [Hok [es Hes]]%world_ok_inv.
  unfold store_lookup in Hk. rewrite Hes in Hk. simpl in Hk.
  pose proof (store_value_ok w es (AStr k) v Hok Hes Hk) as Hv.
  set (h := heap_of w) in *.
  destruct (deepcopy_total h Hok (length h) v (h, []) (copy_inv_start h) Hv
              (free_count_start _)) as [[y st'] E].
  assert (settled h (h, []) (λ _, False)) as Hs0 by (by intros l [? ?]).
  destruct (deepcopy_spec h Hok (length h) v (h, []) y st' _
              (copy_inv_start h) Hv Hs0 E) as (Hpost & Hc & Hs).
  pose proof (post_inv _ _ _ Hpost) as Hinv.
  exists y, (set_heap st'.1 w), st'.2. split.
  { unfold py_str. rewrite (InMemoryKVS_getitem_eq self _ w es Hes), Hk. simpl.
    unfold copy_deepcopy. fold h. by rewrite E. }
  split; [done |]. split; [apply (inv_inj _ _ Hinv) |].
  intros lx ly Hm. split.
  - destruct (inv_memo _ _ Hinv _ _ Hm). lia.
  - destruct (Hs lx) as (ly' & o & o' & Hm' & Ho & Ho' & Hcopy); [eauto | tauto |].
    assert (ly' = ly) as -> by congruence. eauto.
Qed.

Lemma getitem_copies_the_graph_witness :
  let w := set_heap [ODict [(AStr "k", VRef 1%nat)];
                     OList [VRef 2%nat; VRef 2%nat; VRef 1%nat];
                     OList [py_int 1]] (initial_world []) in
  ∃ r w1 (m : memo),
    InMemoryKVS_getitem {| instance_id := 1 |} (py_str "k") w = (Ok r, w1) ∧
    copy_of m (VRef 1%nat) r ∧
    (∀ lx lx' ly, memo_get lx m = Some ly → memo_get lx' m = Some ly → lx = lx') ∧
    ∀ lx ly, memo_get lx m = Some ly →
      (lx < length (heap_of w) ≤ ly)%nat ∧
      ∃ o o', heap_of w !! lx = Some o ∧ heap_of w1 !! ly = Some o' ∧
              obj_copy_of m o o'.
Proof.
  intros w.
  apply (getitem_copies_the_graph {| instance_id := 1 |} "k" (VRef 1%nat) w);
    reflexivity.
Defined.

(** ** The self-test *)

Lemma InMemoryKVS_getitem_atom (self : InMemoryKVS) k w a :
  is_Some (store_entries w) → default py_None (store_lookup w k) = VAtom a →
  InMemoryKVS_getitem self (VAtom k) w = (Ok (VAtom a), w).
Proof.
  intros [es Hes] Ha. unfold store_lookup in Ha. rewrite Hes in Ha. simpl in Ha.
  rewrite (InMemoryKVS_getitem_eq self k w es Hes), Ha.
  apply copy_deepcopy_atom.
Qed.

Lemma RedisKVS_getitem_num (self : RedisKVS) k w z ttl :
  net w = [] → redis_db w !! k = Some (RedisEntry (JsonText (JNum z)) ttl) →
  RedisKVS_getitem self (py_str k) w = (Ok (py_int z), set_redis_connected true w).
Proof.
  intros Hnet Hk. rewrite RedisKVS_getitem_eq by done. rewrite Hk. simpl.
  by destruct w.
Qed.

Lemma EphemeralRedisKVS_eq w m e :
  assoc "kvs" (settings w) = Some (JObj m) → assoc "expiry" m = Some e →
  EphemeralRedisKVS w = (Ok {| expire := e |}, w).
Proof.
  intros Hk He.
  unfold EphemeralRedisKVS, settings_item, bind, get_world, lift, subscript.
  by rewrite Hk, He.
Qed.

Lemma json_dumps_int h z : json_dumps h (py_int z) = Ok (JNum z).
Proof. unfold json_dumps. by destruct (length h). Qed.

Lemma bind_Ok {A B} (c : M A) (k : A → M B) w a w1 :
  c w = (Ok a, w1) → bind c k w = k a w1.
Proof. intros H. unfold bind. by rewrite H. Qed.

Lemma bind_Raise {A B} (c : M A) (k : A → M B) w e w1 :
  c w = (Raise e, w1) → bind c k w = (Raise e, w1).
Proof. intros H. unfold bind. by rewrite H. Qed.

Lemma py_assert_true msg w : py_assert true msg w = (Ok tt, w).
Proof. done. Qed.

Lemma ret_eq {A} (a : A) w : ret a w = (Ok a, w).
Proof. done. Qed.

Lemma RedisKVS_getitem_none (self : RedisKVS) k w :
  net w = [] → redis_db w !! k = None →
  RedisKVS_getitem self (py_str k) w = (Ok py_None, set_redis_connected true w).
Proof. intros Hnet Hk. rewrite RedisKVS_getitem_eq by done. by rewrite Hk. Qed.

(** A run of [test] from a world in which neither store has ["hi"]. *)
Lemma test_run w m e es :
  world_ok w = true → store_entries w = Some es →
  dict_get (AStr "hi") es = None →
  net w = [] → redis_db w !! "hi" = None →
  assoc "kvs" (settings w) = Some (JObj m) → assoc "expiry" m = Some e →
  ∃ w',
    test w =
      (Ok [PrintVal py_None; PrintVal (py_int 9); PrintType "int"; PrintBool true;
           PrintList ((VAtom <$> es.*1) ++ [py_str "hi"]);
           PrintList (py_str <$> (map_to_list (redis_db w')).*1);
           PrintStr "Test successful";
           PrintStr "Please wait before running test again";
           PrintStr "redis needs to flush expiring objects";
           PrintStr "This delay is set in the config file.";
           PrintStr "It is typically 1s - 24h, depending on";
           PrintStr "the work."], w') ∧
    world_ok w' = true ∧ net w' = [] ∧ settings w' = settings w ∧
    store_entries w' = Some (es ++ [(AStr "hi", py_int 7)]) ∧
    redis_db w' = <["hi" := RedisEntry (JsonText (JNum 9)) e]> (redis_db w).
Proof.
  intros Hw Hes Hhi Hnet Hdb Hk He.
  pose proof (EphemeralRedisKVS_eq w m e Hk He) as Hnew.
  set (ek := {| expire := e |}) in *.
  set (mk1 := {| instance_id := 1 |}). set (mk2 := {| instance_id := 2 |}).
  (* reads before the writes *)
  assert (InMemoryKVS_getitem mk1 (py_str "hi") w = (Ok py_None, w)) as H1.
  { apply InMemoryKVS_getitem_atom; [eauto |].
    unfold store_lookup. rewrite Hes. simpl. by rewrite Hhi. }
  set (w1 := set_redis_connected true w).
  assert (RedisKVS_getitem ek (py_str "hi") w = (Ok py_None, w1)) as H2.
  { by apply RedisKVS_getitem_none. }
  assert (RedisKVS_getitem ek (py_str "hi") w1 = (Ok py_None, w1)) as H3.
  { by rewrite (RedisKVS_getitem_none ek "hi" w1). }
  (* the writes *)
  set (es1 := es ++ [(AStr "hi", py_int 5)]).
  set (es2 := es ++ [(AStr "hi", py_int 7)]).
  assert (dict_set (AStr "hi") (py_int 5) es = es1) as Hes1.
  { by apply dict_set_fresh. }
  assert (dict_set (AStr "hi") (py_int 7) es1 = es2) as Hes2.
  { unfold es1, es2. clear -Hhi. induction es as [|[k v] es IH]; simpl.
    - done.
    - simpl in Hhi. destruct (key_eqb k (AStr "hi")); [done |]. by rewrite IH. }
  set (w2 := set_heap (<[OBJECT_STORE w := ODict es1]> (heap_of w)) w1).
  assert (InMemoryKVS_set mk1 (py_str "hi") (py_int 5) w1 = (Ok tt, w2)) as H4.
  { rewrite (InMemoryKVS_set_ok mk1 "hi" (py_int 5) w1 (JNum 5) es);
      [by rewrite Hes1 | apply json_dumps_int | done]. }
  pose proof (proj1 (store_entries_Some _ _) Hes) as Hs.
  pose proof (lookup_lt_Some _ _ _ Hs) as Hslt.
  assert (store_entries w2 = Some es1) as Hst2.
  { apply store_entries_Some. simpl. by apply list_lookup_insert_eq. }
  set (w3 := set_heap (<[OBJECT_STORE w := ODict es2]> (heap_of w)) w1).
  assert (InMemoryKVS_set mk2 (py_str "hi") (py_int 7) w2 = (Ok tt, w3)) as H5.
  { rewrite (InMemoryKVS_set_ok mk2 "hi" (py_int 7) w2 (JNum 7) es1);
      [| apply json_dumps_int | done].
    rewrite Hes2. unfold w2, w3. simpl. by rewrite list_insert_insert_eq. }
  assert (store_entries w3 = Some es2) as Hst3.
  { apply store_entries_Some. simpl. by apply list_lookup_insert_eq. }
  set (w4 := set_redis_db (<["hi" := RedisEntry (JsonText (JNum 8)) e]> (redis_db w)) w3).
  assert (RedisKVS_set ek (py_str "hi") (py_int 8) w3 = (Ok tt, w4)) as H6.
  { rewrite (RedisKVS_set_ok ek "hi" (py_int 8) w3 (JNum 8));
      [done | done | apply json_dumps_int]. }
  set (w5 := set_redis_db (<["hi" := RedisEntry (JsonText (JNum 9)) e]> (redis_db w)) w3).
  assert (RedisKVS_set ek (py_str "hi") (py_int 9) w4 = (Ok tt, w5)) as H7.
  { rewrite (RedisKVS_set_ok ek "hi" (py_int 9) w4 (JNum 9));
      [| done | apply json_dumps_int].
    unfold w4, w5. simpl. by rewrite insert_insert_eq. }
  (* reads after the writes *)
  assert (InMemoryKVS_getitem mk1 (py_str "hi") w5 = (Ok (py_int 7), w5)) as H8.
  { apply InMemoryKVS_getitem_atom; [by exists es2 |].
    unfold store_lookup.
    change (store_entries w5) with (store_entries w3). rewrite Hst3. simpl.
    by rewrite <- Hes2, dict_get_set. }
  assert (RedisKVS_getitem ek (py_str "hi") w5 = (Ok (py_int 9), w5)) as H9.
  { rewrite (RedisKVS_getitem_num ek "hi" w5 9 e); [done | done |].
    simpl. apply lookup_insert_eq. }
  assert (InMemoryKVS_keys mk1 w5 = (Ok ((VAtom <$> es.*1) ++ [py_str "hi"]), w5)) as H10.
  { rewrite (InMemoryKVS_keys_eq mk1 w5 es2); [| done].
    unfold es2. by rewrite !fmap_app. }
  assert (RedisKVS_keys ek w5 =
            (Ok (py_str <$> (map_to_list (redis_db w5)).*1), w5)) as H11.
  { by rewrite RedisKVS_keys_eq. }
  exists w5. split.
  { unfold test. fold mk1 mk2.
    rewrite (bind_Ok _ _ _ _ _ Hnew), (bind_Ok _ _ _ _ _ Hnew).
    rewrite (bind_Ok _ _ _ _ _ H1).
    rewrite (bind_Ok _ _ _ _ _ (py_assert_true _ _)).
    rewrite (bind_Ok _ _ _ _ _ H2), (bind_Ok _ _ _ _ _ H3).
    rewrite (bind_Ok _ _ _ _ _ (py_assert_true _ _)).
    rewrite (bind_Ok _ _ _ _ _ H4), (bind_Ok _ _ _ _ _ H5).
    rewrite (bind_Ok _ _ _ _ _ H6), (bind_Ok _ _ _ _ _ H7).
    rewrite (bind_Ok _ _ _ _ _ H8).
    change (py_eq_int (py_int 7) 7) with true.
    rewrite (bind_Ok _ _ _ _ _ (py_assert_true _ _)).
    rewrite (bind_Ok _ _ _ _ _ H9), (bind_Ok _ _ _ _ _ H9).
    change (py_type (py_int 9)) with (@ret string "int").
    rewrite (bind_Ok _ _ _ _ _ (ret_eq _ _)).
    rewrite (bind_Ok _ _ _ _ _ H9), (bind_Ok _ _ _ _ _ H9).
    change (py_eq_int (py_int 9) 9) with true.
    rewrite (bind_Ok _ _ _ _ _ (py_assert_true _ _)).
    rewrite (bind_Ok _ _ _ _ _ H10), (bind_Ok _ _ _ _ _ H11). reflexivity. }
  split.
  { apply world_ok_inv. split; [| by exists es2].
    pose proof Hw as [Hok _]%world_ok_inv. simpl.
    apply heap_ok_insert; [done |]. rewrite <- Hes2, <- Hes1.
    apply obj_ok_dict_set; [| done]. apply obj_ok_dict_set; [| done].
    by eapply heap_ok_lookup. }
  by repeat split.
Qed.

Lemma py_assert_false msg w :
  py_assert false msg w = (Raise (AssertionError msg), w).
Proof. done. Qed.

Lemma decode_not_None doc h : doc ≠ JNull → py_is_None (decode doc h).1 = false.
Proof.
  destruct doc as [| | | |items|members]; simpl; try done.
  - by destruct (decode_list decode items h).
  - by destruct (decode_members decode members h).
Qed.

Lemma RedisKVS_getitem_text (self : RedisKVS) k w e0 doc :
  net w = [] → redis_db w !! k = Some e0 → payload e0 = JsonText doc →
  RedisKVS_getitem self (py_str k) w =
    (Ok (decode doc (heap_of w)).1,
     set_heap (decode doc (heap_of w)).2 (set_redis_connected true w)).
Proof.
  intros Hnet Hk Hp. rewrite RedisKVS_getitem_eq by done. rewrite Hk, Hp. simpl.
  by destruct (decode doc (heap_of w)).
Qed.

(** [test] stops at its first [assert] when the table has a value other
    than [None] under ["hi"]. *)
Lemma test_leftover_mem w m e v :
  world_ok w = true →
  assoc "kvs" (settings w) = Some (JObj m) → assoc "expiry" m = Some e →
  store_lookup w (AStr "hi") = Some v → v ≠ py_None →
  ∃ w', test w = (Raise (AssertionError ""), w').
Proof.
  intros Hw Hk He Hv Hne. pose proof Hw as [_ [es Hes]]%world_ok_inv.
  pose proof (EphemeralRedisKVS_eq w m e Hk He) as Hnew.
  destruct (InMemoryKVS_getitem_copy {| instance_id := 1 |} (AStr "hi") v w es Hw Hes)
    as (r & h' & Hget & _ & _ & _ & Heq & _).
  { unfold store_lookup in Hv. rewrite Hes in Hv. simpl in Hv. by rewrite Hv. }
  assert (py_is_None r = false) as Hr.
  { destruct r as [[]|]; try done. specialize (Heq 0%nat). simpl in Heq.
    destruct v as [a|l]; simpl in Heq; [| done]. injection Heq as <-.
    by destruct Hne. }
  eexists. unfold test.
  rewrite (bind_Ok _ _ _ _ _ Hnew), (bind_Ok _ _ _ _ _ Hnew).
  unfold py_str in Hget. unfold py_str at 1. rewrite (bind_Ok _ _ _ _ _ Hget).
  rewrite Hr. by rewrite (bind_Raise _ _ _ _ _ (py_assert_false _ _)).
Qed.

(** X23: from a world in which neither store has ["hi"], with the network
    up and [kvs.expiry] set, [test()] passes. It was given to print [None],
    [9], the type [int], [True], the keys of both stores, which hold
    ["hi"], and its closing lines; it leaves ["hi"] bound to [7] in the
    in-memory table and to the text of [9], with the configured expiry, in
    the remote store. *)
Theorem test_passes w m e :
  world_ok w = true → store_lookup w (AStr "hi") = None →
  net w = [] → redis_db w !! "hi" = None →
  assoc "kvs" (settings w) = Some (JObj m) → assoc "expiry" m = Some e →
  ∃ ks1 ks2 w',
    test w =
      (Ok [PrintVal py_None; PrintVal (py_int 9); PrintType "int"; PrintBool true;
           PrintList ks1; PrintList ks2;
           PrintStr "Test successful";
           PrintStr "Please wait before running test again";
           PrintStr "redis needs to flush expiring objects";
           PrintStr "This delay is set in the config file.";
           PrintStr "It is typically 1s - 24h, depending on";
           PrintStr "the work."], w') ∧
    py_str "hi" ∈ ks1 ∧ py_str "hi" ∈ ks2 ∧
    store_lookup w' (AStr "hi") = Some (py_int 7) ∧
    redis_db w' !! "hi" = Some (RedisEntry (JsonText (JNum 9)) e).
Proof.
  intros Hw Hhi Hnet Hdb Hk He. pose proof Hw as [_ [es Hes]]%world_ok_inv.
  unfold store_lookup in Hhi. rewrite Hes in Hhi. simpl in Hhi.
  destruct (test_run w m e es Hw Hes Hhi Hnet Hdb Hk He)
    as (w' & Htest & _ & _ & _ & Hes' & Hdb').
  eexists _, _, w'. split; [exact Htest |]. split; [| split; [| split]].
  - apply elem_of_app. right. by left.
  - apply list_elem_of_fmap. exists "hi". split; [done |].
    apply list_elem_of_fmap. eexists ("hi", _). split; [done |].
    apply elem_of_map_to_list. rewrite Hdb'. apply lookup_insert_eq.
  - unfold store_lookup. rewrite Hes'. simpl.
    rewrite <- (dict_set_fresh (AStr "hi") (py_int 7) es Hhi).
    apply dict_get_set.
  - rewrite Hdb'. apply lookup_insert_eq.
Qed.

Lemma test_passes_witness :
  let w := initial_world [("kvs", JObj [("type", JStr "redis_ephemeral");
                                        ("expiry", JNum 1)])] in
  ∃ ks1 ks2 w',
    test w =
      (Ok [PrintVal py_None; PrintVal (py_int 9); PrintType "int"; PrintBool true;
           PrintList ks1; PrintList ks2;
           PrintStr "Test successful";
           PrintStr "Please wait before running test again";
           PrintStr "redis needs to flush expiring objects";
           PrintStr "This delay is set in the config file.";
           PrintStr "It is typically 1s - 24h, depending on";
           PrintStr "the work."], w') ∧
    py_str "hi" ∈ ks1 ∧ py_str "hi" ∈ ks2 ∧
    store_lookup w' (AStr "hi") = Some (py_int 7) ∧
    redis_db w' !! "hi" = Some (RedisEntry (JsonText (JNum 9)) (JNum 1)).
Proof.
  intros w.
  apply (test_passes w [("type", JStr "redis_ephemeral"); ("expiry", JNum 1)]
           (JNum 1)); reflexivity.
Defined.

(** X24: [test()] cannot be run twice on the same stores. With the network
    up and [kvs.expiry] set, it stops at an [assert] with [AssertionError]
    when the in-memory table has a value other than [None] under ["hi"],
    and when the remote store has under ["hi"] a JSON text other than
    [null]; so it does in the world a run that passed has left. *)
Theorem test_fails_on_leftovers w m e :
  world_ok w = true → net w = [] →
  assoc "kvs" (settings w) = Some (JObj m) → assoc "expiry" m = Some e →
  (∀ v, store_lookup w (AStr "hi") = Some v → v ≠ py_None →
        ∃ w', test w = (Raise (AssertionError ""), w')) ∧
  (store_lookup w (AStr "hi") = None →
   ∀ e0 doc, redis_db w !! "hi" = Some e0 → payload e0 = JsonText doc →
             doc ≠ JNull →
             ∃ w', test w = (Raise (AssertionError ""), w')) ∧
  (store_lookup w (AStr "hi") = None → redis_db w !! "hi" = None →
   ∃ out w1 w2, test w = (Ok out, w1) ∧
                test w1 = (Raise (AssertionError ""), w2)).
Proof.
  intros Hw Hnet Hk He. pose proof Hw as [_ [es Hes]]%world_ok_inv.
  pose proof (EphemeralRedisKVS_eq w m e Hk He) as Hnew.
  split; [| split].
  - intros v Hv Hne. by eapply test_leftover_mem.
  - intros Hhi e0 doc Hdb Hp Hdoc.
    assert (InMemoryKVS_getitem {| instance_id := 1 |} (py_str "hi") w =
              (Ok py_None, w)) as H1.
    { apply InMemoryKVS_getitem_atom; [eauto | by rewrite Hhi]. }
    pose proof (RedisKVS_getitem_text {| expire := e |} "hi" w e0 doc Hnet Hdb Hp)
      as H2.
    set (w1 := set_heap _ _) in H2.
    pose proof (RedisKVS_getitem_text {| expire := e |} "hi" w1 e0 doc Hnet Hdb Hp)
      as H3.
    eexists. unfold test.
    rewrite (bind_Ok _ _ _ _ _ Hnew), (bind_Ok _ _ _ _ _ Hnew).
    rewrite (bind_Ok _ _ _ _ _ H1).
    rewrite (bind_Ok _ _ _ _ _ (py_assert_true _ _)).
    rewrite (bind_Ok _ _ _ _ _ H2), (bind_Ok _ _ _ _ _ H3).
    rewrite decode_not_None by done.
    by rewrite (bind_Raise _ _ _ _ _ (py_assert_false _ _)).
  - intros Hhi Hdb.
    unfold store_lookup in Hhi. rewrite Hes in Hhi. simpl in Hhi.
    destruct (test_run w m e es Hw Hes Hhi Hnet Hdb Hk He)
      as (w1 & Htest & Hw1 & _ & Hset1 & Hes1 & _).
    destruct (test_leftover_mem w1 m e (py_int 7)) as [w2 Hfail]; try done.
    + by rewrite Hset1.
    + unfold store_lookup. rewrite Hes1. simpl.
      rewrite <- (dict_set_fresh (AStr "hi") (py_int 7) es Hhi).
      apply dict_get_set.
    + eauto.
Qed.

Lemma test_fails_on_leftovers_witness :
  let cfg := [("kvs", JObj [("type", JStr "redis_ephemeral"); ("expiry", JNum 1)])] in
  (∃ out w1 w2, test (initial_world cfg) = (Ok out, w1) ∧
                test w1 = (Raise (AssertionError ""), w2)) ∧
  ∃ w', test (set_redis_db {["hi" := RedisEntry (JsonText (JNum 9)) (JNum 1)]}
                (initial_world cfg)) = (Raise (AssertionError ""), w').
Proof.
  intros cfg. split.
  - destruct (test_fails_on_leftovers (initial_world cfg)
                [("type", JStr "redis_ephemeral"); ("expiry", JNum 1)] (JNum 1))
      as (_ & _ & H); [reflexivity | reflexivity | reflexivity | reflexivity |].
    apply H; reflexivity.
  - destruct (test_fails_on_leftovers
                (set_redis_db {["hi" := RedisEntry (JsonText (JNum 9)) (JNum 1)]}
                   (initial_world cfg))
                [("type", JStr "redis_ephemeral"); ("expiry", JNum 1)] (JNum 1))
      as (_ & H & _); [reflexivity | reflexivity | reflexivity | reflexivity |].
    apply (H eq_refl (RedisEntry (JsonText (JNum 9)) (JNum 1)) (JNum 9));
      [reflexivity | reflexivity | discriminate].
Defined.
